(** * rovertest: a rover on granular terrain, co-simulated

  Shallow embedding of [src/rovertest.cpp] (Project Chrono demo: a
  six-wheel rover driven by Chrono's rigid-body solver, coupled with a
  Chrono::Gpu particle terrain) and the properties of its coupling loop,
  checkpoint reader, frame recorder and startup code.

  Conventions of the embedding.
  - The loop counter [t] is a C++ [float] and the step size a [double]:
    both are modelled bit for bit with the IEEE 754 specification of the
    Standard Library ([SpecFloat], binary32 and binary64, round to
    nearest even).
  - [ChVector<>], [ChQuaternion<>] and [ChBody] are class templates of the
    Chrono library over a scalar type; the embedding is generic over a
    scalar interface [Real], with two instances: the real numbers (the
    idealised reading, used where a property is about the formula) and
    binary64 (used to run the code on concrete inputs).
  - The two solvers are external collaborators. Their step functions are
    the fields of two classes; what the coupling protocol needs from them
    is stated as classes of laws, assumed where a property needs them.
  - Undefined behaviour and [exit] are results of their own, never
    silently given some value. *)

From Stdlib Require Import ZArith QArith Qround Reals RNsatz Lra Lia Bool Ascii String.
From Stdlib Require Import DecimalString Floats.SpecFloat.
From stdpp Require Import base option list.

Local Open Scope Z_scope.

(* ===================================================================== *)
(** * Machine arithmetic: binary32 and binary64                           *)
(* ===================================================================== *)

Module Ieee.

(** C++ [float] and [double]. Both are [spec_float]; the operations fix
    the precision. *)
Definition float : Type := spec_float.
Definition double : Type := spec_float.

Definition dadd : double -> double -> double := SFadd 53 1024.
Definition dsub : double -> double -> double := SFsub 53 1024.
Definition dmul : double -> double -> double := SFmul 53 1024.
Definition ddiv : double -> double -> double := SFdiv 53 1024.
Definition dsqrt : double -> double := SFsqrt 53 1024.

(** Integer to [double] conversion (exact below 2^53). *)
Definition d_of_Z (z : Z) : double := binary_normalize 53 1024 z 0 false.

(** The decimal literal [n/d], correctly rounded: [0.005] is
    [dlit 5 1000]. Numerator and denominator are exact doubles, and the
    division rounds their quotient to the nearest double. *)
Definition dlit (n d : Z) : double := ddiv (d_of_Z n) (d_of_Z d).

Definition f_of_Z (z : Z) : float := binary_normalize 24 128 z 0 false.
Definition flit (n d : Z) : float := SFdiv 24 128 (f_of_Z n) (f_of_Z d).

(** Widening [float] to [double] is exact; it renormalises the mantissa
    to 53 bits. *)
Definition f2d (x : float) : double :=
  match x with
  | S754_finite s m e => binary_round 53 1024 s m e
  | _ => x
  end.

(** Narrowing [double] to [float] rounds to nearest even. *)
Definition d2f (x : double) : float :=
  match x with
  | S754_finite s m e => binary_round 24 128 s m e
  | _ => x
  end.

Definition dltb : double -> double -> bool := SFltb.
Definition dleb : double -> double -> bool := SFleb.

(** Truncation toward zero of a finite value. *)
Definition trunc_finite (s : bool) (m : positive) (e : Z) : Z :=
  let a := match e with
           | Zneg k => Z.shiftr (Zpos m) (Zpos k)
           | _ => Z.shiftl (Zpos m) e
           end in
  if s then - a else a.

(** [double] to [unsigned int]: the value is truncated; when the
    truncated value does not fit in 32 bits, or the operand is an
    infinity or a NaN, the conversion is undefined ([None]). *)
Definition d2uint (x : double) : option Z :=
  match x with
  | S754_zero _ => Some 0
  | S754_finite s m e =>
      let z := trunc_finite s m e in
      if (0 <=? z) && (z <? 2 ^ 32) then Some z else None
  | _ => None
  end.

(** The exact rational value of a finite float. *)
Definition to_Q (x : spec_float) : option Q :=
  match x with
  | S754_zero _ => Some 0%Q
  | S754_finite s m e =>
      let a := (inject_Z (Zpos m) * Qpower 2 e)%Q in
      Some (if s then Qopp a else a)
  | _ => None
  end.

Definition dzero : double := S754_zero false.
Definition fzero : float := S754_zero false.

End Ieee.

(* ===================================================================== *)
(** * The scalar interface of Chrono's templates                          *)
(* ===================================================================== *)

(** [ChVector<Real>], [ChQuaternion<Real>] are templates over the scalar
  type. [r_lit n d] is the literal [n/d]; [r_float x] is [x] after a
  round trip through [float] (as when a [double] is stored in a
  [ChMatrix33<float>]). *)
Class Real (T : Type) := {
r_lit : Z -> Z -> T;
r_add : T -> T -> T;
r_sub : T -> T -> T;
r_mul : T -> T -> T;
r_div : T -> T -> T;
r_opp : T -> T;
r_abs : T -> T;
r_sqrt : T -> T;
r_float : T -> T
}.

Definition r_zero {T} `{Real T} : T := r_lit 0 1.

(** Equality of numbers and finiteness. On the real numbers these are
    equality and truth; on binary64 the two zeros are the same number,
    and the infinities and NaN are not finite. *)
Class NumberEq (T : Type) := {
r_same : T -> T -> Prop;
r_finite : T -> Prop
}.

(** The part of arithmetic the force accumulators rely on, in a form that
    holds of the real numbers and of binary64. *)
Class RealLaws (T : Type) {RT : Real T} {NT : NumberEq T} : Prop := {
r_same_refl : forall x : T, r_same x x;
r_same_trans : forall x y z : T, r_same x y -> r_same y z -> r_same x z;
r_add_0_l : forall z x : T, r_same z r_zero -> r_same (r_add z x) x;
r_sub_diag : forall x : T, r_finite x -> r_same (r_sub x x) r_zero;
r_mul_0_l : forall z x : T, r_same z r_zero -> r_finite x -> r_same (r_mul z x) r_zero;
r_sub_0_0 : forall y z : T,
  r_same y r_zero -> r_same z r_zero -> r_same (r_sub y z) r_zero
}.

(** [std::sin], [std::cos] and Chrono's constant [CH_C_PI]. *)
Class Libm (T : Type) := {
std_sin : T -> T;
std_cos : T -> T;
CH_C_PI : T
}.

#[export] Instance R_Real : Real R := {
r_lit n d := (IZR n / IZR d)%R;
r_add := Rplus;
r_sub := Rminus;
r_mul := Rmult;
r_div := Rdiv;
r_opp := Ropp;
r_abs := Rabs;
r_sqrt := sqrt;
r_float x := x
}.

#[export] Instance R_NumberEq : NumberEq R := {
r_same := eq;
r_finite _ := True
}.

#[export] Instance R_Libm : Libm R := {
std_sin := sin;
std_cos := cos;
CH_C_PI := PI
}.

#[export] Instance double_Real : Real Ieee.double := {
r_lit := Ieee.dlit;
r_add := Ieee.dadd;
r_sub := Ieee.dsub;
r_mul := Ieee.dmul;
r_div := Ieee.ddiv;
r_opp := SFopp;
r_abs := SFabs;
r_sqrt := Ieee.dsqrt;
r_float x := Ieee.f2d (Ieee.d2f x)
}.

Definition is_zero (x : spec_float) : bool :=
  match x with
  | S754_zero _ => true
  | _ => false
  end.

Definition finite_b (x : spec_float) : bool :=
  match x with
  | S754_zero _ | S754_finite _ _ _ => true
  | _ => false
  end.

#[export] Instance double_NumberEq : NumberEq Ieee.double := {
r_same x y := x = y \/ (is_zero x = true /\ is_zero y = true);
r_finite x := finite_b x = true
}.

(* ===================================================================== *)
(** * Chrono data: vectors, quaternions, bodies                           *)
(* ===================================================================== *)

Record ChVector (T : Type) := mkVec { vec_x : T; vec_y : T; vec_z : T }.
Arguments mkVec {T} _ _ _.
Arguments vec_x {T} _.
Arguments vec_y {T} _.
Arguments vec_z {T} _.

Record ChQuaternion (T : Type) := mkQuat { e0 : T; e1 : T; e2 : T; e3 : T }.
Arguments mkQuat {T} _ _ _ _.
Arguments e0 {T} _.
Arguments e1 {T} _.
Arguments e2 {T} _.
Arguments e3 {T} _.

Section VectorOps.
Context {T : Type} `{Real T}.

Definition r_one : T := r_lit 1 1.
Definition r_two : T := r_lit 2 1.

Definition VNULL : ChVector T := mkVec r_zero r_zero r_zero.
Definition QUNIT : ChQuaternion T := mkQuat r_one r_zero r_zero r_zero.

Definition Vadd (a b : ChVector T) : ChVector T :=
  mkVec (r_add (vec_x a) (vec_x b)) (r_add (vec_y a) (vec_y b))
        (r_add (vec_z a) (vec_z b)).

Definition Vsub (a b : ChVector T) : ChVector T :=
  mkVec (r_sub (vec_x a) (vec_x b)) (r_sub (vec_y a) (vec_y b))
        (r_sub (vec_z a) (vec_z b)).

Definition Vcross (a b : ChVector T) : ChVector T :=
  mkVec (r_sub (r_mul (vec_y a) (vec_z b)) (r_mul (vec_z a) (vec_y b)))
        (r_sub (r_mul (vec_z a) (vec_x b)) (r_mul (vec_x a) (vec_z b)))
        (r_sub (r_mul (vec_x a) (vec_y b)) (r_mul (vec_y a) (vec_x b))).

Definition Vdot (a b : ChVector T) : T :=
  r_add (r_add (r_mul (vec_x a) (vec_x b)) (r_mul (vec_y a) (vec_y b)))
        (r_mul (vec_z a) (vec_z b)).

(** [ChVector::Length] *)
Definition Length (a : ChVector T) : T := r_sqrt (Vdot a a).

(** [v / s] *)
Definition Vdiv (a : ChVector T) (s : T) : ChVector T :=
  mkVec (r_div (vec_x a) s) (r_div (vec_y a) s) (r_div (vec_z a) s).

(** [ChQuaternion::GetXaxis], [GetYaxis], [GetZaxis]: the columns of the
    rotation matrix of a unit quaternion, in the closed form Chrono's
    header uses. The header is library code that [src/] does not
    contain; [Rotate_unit_X] and its siblings below show that on unit
    quaternions these are the three coordinate axes rotated by the
    quaternion. *)
Definition GetXaxis (q : ChQuaternion T) : ChVector T :=
  mkVec (r_sub (r_mul (r_add (r_mul (e0 q) (e0 q)) (r_mul (e1 q) (e1 q))) r_two) r_one)
        (r_mul (r_add (r_mul (e1 q) (e2 q)) (r_mul (e0 q) (e3 q))) r_two)
        (r_mul (r_sub (r_mul (e1 q) (e3 q)) (r_mul (e0 q) (e2 q))) r_two).

Definition GetYaxis (q : ChQuaternion T) : ChVector T :=
  mkVec (r_mul (r_sub (r_mul (e1 q) (e2 q)) (r_mul (e0 q) (e3 q))) r_two)
        (r_sub (r_mul (r_add (r_mul (e0 q) (e0 q)) (r_mul (e2 q) (e2 q))) r_two) r_one)
        (r_mul (r_add (r_mul (e2 q) (e3 q)) (r_mul (e0 q) (e1 q))) r_two).

Definition GetZaxis (q : ChQuaternion T) : ChVector T :=
  mkVec (r_mul (r_add (r_mul (e1 q) (e3 q)) (r_mul (e0 q) (e2 q))) r_two)
        (r_mul (r_sub (r_mul (e2 q) (e3 q)) (r_mul (e0 q) (e1 q))) r_two)
        (r_sub (r_mul (r_add (r_mul (e0 q) (e0 q)) (r_mul (e3 q) (e3 q))) r_two) r_one).

(** Hamilton product and the rotation [q v q*] of a vector, the
    mathematical meaning of "the axis rotated by the orientation". *)
Definition Qcross (a b : ChQuaternion T) : ChQuaternion T :=
  mkQuat
    (r_sub (r_sub (r_sub (r_mul (e0 a) (e0 b)) (r_mul (e1 a) (e1 b)))
                  (r_mul (e2 a) (e2 b))) (r_mul (e3 a) (e3 b)))
    (r_sub (r_add (r_add (r_mul (e0 a) (e1 b)) (r_mul (e1 a) (e0 b)))
                  (r_mul (e2 a) (e3 b))) (r_mul (e3 a) (e2 b)))
    (r_add (r_add (r_sub (r_mul (e0 a) (e2 b)) (r_mul (e1 a) (e3 b)))
                  (r_mul (e2 a) (e0 b))) (r_mul (e3 a) (e1 b)))
    (r_add (r_sub (r_add (r_mul (e0 a) (e3 b)) (r_mul (e1 a) (e2 b)))
                  (r_mul (e2 a) (e1 b))) (r_mul (e3 a) (e0 b))).

Definition Qconj (q : ChQuaternion T) : ChQuaternion T :=
  mkQuat (e0 q) (r_opp (e1 q)) (r_opp (e2 q)) (r_opp (e3 q)).

Definition Rotate (q : ChQuaternion T) (v : ChVector T) : ChVector T :=
  let p := Qcross (Qcross q (mkQuat r_zero (vec_x v) (vec_y v) (vec_z v)))
                  (Qconj q) in
  mkVec (e1 p) (e2 p) (e3 p).

(** Squared norm of a quaternion. *)
Definition Length2_q (q : ChQuaternion T) : T :=
  r_add (r_add (r_add (r_mul (e0 q) (e0 q)) (r_mul (e1 q) (e1 q)))
               (r_mul (e2 q) (e2 q))) (r_mul (e3 q) (e3 q)).

End VectorOps.

(** Equality of numbers and finiteness, component by component. *)
Definition Vsame {T} `{NumberEq T} (a b : ChVector T) : Prop :=
  r_same (vec_x a) (vec_x b) /\ r_same (vec_y a) (vec_y b) /\ r_same (vec_z a) (vec_z b).

Definition Vfinite {T} `{NumberEq T} (a : ChVector T) : Prop :=
  r_finite (vec_x a) /\ r_finite (vec_y a) /\ r_finite (vec_z a).

(** ** Rigid bodies

  The part of [ChBody] the program touches. The accumulators hold the
  loads the rigid solver applies at its next step. *)
Record ChBody (T : Type) := mkBody {
body_mass : T;
body_inertia : ChVector T;
body_pos : ChVector T;
body_rot : ChQuaternion T;
body_pos_dt : ChVector T;
body_wvel : ChVector T;
Force_acc : ChVector T;
Torque_acc : ChVector T;
body_fixed : bool
}.
Arguments mkBody {T} _ _ _ _ _ _ _ _ _.
Arguments body_mass {T} _.
Arguments body_inertia {T} _.
Arguments body_pos {T} _.
Arguments body_rot {T} _.
Arguments body_pos_dt {T} _.
Arguments body_wvel {T} _.
Arguments Force_acc {T} _.
Arguments Torque_acc {T} _.
Arguments body_fixed {T} _.

Section BodyOps.
Context {T : Type} `{Real T}.

(** [ChSystem::NewBody]: unit mass and inertia, at the origin, at rest,
    free. *)
Definition NewBody : ChBody T :=
  mkBody r_one (mkVec r_one r_one r_one) VNULL QUNIT VNULL VNULL VNULL VNULL
         false.

Definition SetMass (m : T) (b : ChBody T) : ChBody T :=
  mkBody m (body_inertia b) (body_pos b) (body_rot b) (body_pos_dt b)
         (body_wvel b) (Force_acc b) (Torque_acc b) (body_fixed b).

Definition SetInertiaXX (i : ChVector T) (b : ChBody T) : ChBody T :=
  mkBody (body_mass b) i (body_pos b) (body_rot b) (body_pos_dt b)
         (body_wvel b) (Force_acc b) (Torque_acc b) (body_fixed b).

Definition SetPos (p : ChVector T) (b : ChBody T) : ChBody T :=
  mkBody (body_mass b) (body_inertia b) p (body_rot b) (body_pos_dt b)
         (body_wvel b) (Force_acc b) (Torque_acc b) (body_fixed b).

Definition SetBodyFixed (f : bool) (b : ChBody T) : ChBody T :=
  mkBody (body_mass b) (body_inertia b) (body_pos b) (body_rot b)
         (body_pos_dt b) (body_wvel b) (Force_acc b) (Torque_acc b) f.

Definition with_accumulators (f t : ChVector T) (b : ChBody T) : ChBody T :=
  mkBody (body_mass b) (body_inertia b) (body_pos b) (body_rot b)
         (body_pos_dt b) (body_wvel b) f t (body_fixed b).

(** Modelled from the spec: [ChBody::Empty_forces_accumulators],
    [Accumulate_force] and [Accumulate_torque] are Chrono library code
    that [src/] does not contain. The spec's interface is
    [clearAccumulators(handle)], [accumulateForce(handle, force,
    atPosition)] and [accumulateTorque(handle, torque)]: clearing zeroes
    both accumulators; a force given in absolute coordinates at an
    absolute point adds the force and its moment about the body's
    position; a torque adds to the torque accumulator. *)
Definition Empty_forces_accumulators (b : ChBody T) : ChBody T :=
  with_accumulators VNULL VNULL b.

Definition Accumulate_force (force appl_point : ChVector T) (b : ChBody T)
  : ChBody T :=
  with_accumulators
    (Vadd (Force_acc b) force)
    (Vadd (Torque_acc b) (Vcross (Vsub appl_point (body_pos b)) force))
    b.

Definition Accumulate_torque (torque : ChVector T) (b : ChBody T) : ChBody T :=
  with_accumulators (Force_acc b) (Vadd (Torque_acc b) torque) b.

End BodyOps.

(* ===================================================================== *)
(** * Results and observable effects                                      *)
(* ===================================================================== *)

(** How a computation of the program ends. *)
Inductive Result (A : Type) : Type :=
| Done (a : A)
| Exit (status : Z)
| Throw (what : string)
| Undefined (what : string)
| Unmodelled (what : string)
| OutOfFuel.
Arguments Done {A} _.
Arguments Exit {A} _.
Arguments Throw {A} _.
Arguments Undefined {A} _.
Arguments Unmodelled {A} _.
Arguments OutOfFuel {A}.

(** A computation appends to the chronological list of its observable
    effects and ends in a [Result]. *)
Definition Run (E A : Type) : Type := list E -> list E * Result A.

Definition ret {E A} (a : A) : Run E A := fun tr => (tr, Done a).

Definition bind {E A B} (m : Run E A) (k : A -> Run E B) : Run E B :=
  fun tr =>
    match m tr with
    | (tr', Done a) => k a tr'
    | (tr', Exit n) => (tr', Exit n)
    | (tr', Throw s) => (tr', Throw s)
    | (tr', Undefined s) => (tr', Undefined s)
    | (tr', Unmodelled s) => (tr', Unmodelled s)
    | (tr', OutOfFuel) => (tr', OutOfFuel)
    end.

Definition emit {E} (e : E) : Run E unit := fun tr => (tr ++ [e], Done tt).

Definition stop {E A} (r : Result A) : Run E A := fun tr => (tr, r).

Notation "'let*' x ':=' m 'in' k" := (bind m (fun x => k))
  (at level 10, x pattern, m at level 100, k at level 200).
Notation "m ;;; k" := (bind m (fun _ => k))
  (at level 100, k at level 200, right associativity).

Fixpoint mapM {E A B} (f : A -> Run E B) (l : list A) : Run E (list B) :=
  match l with
  | [] => ret []
  | a :: l' => let* b := f a in let* bs := mapM f l' in ret (b :: bs)
  end.

(** One row of a mesh-frame file: name, position, three basis vectors,
    three scale factors. *)
Record MeshFrameRow (T : Type) := mkRow {
  row_name : string;
  row_pos : ChVector T;
  row_vx : ChVector T;
  row_vy : ChVector T;
  row_vz : ChVector T;
  row_scale : ChVector T
}.
Arguments mkRow {T} _ _ _ _ _ _.
Arguments row_name {T} _.
Arguments row_pos {T} _.
Arguments row_vx {T} _.
Arguments row_vy {T} _.
Arguments row_vz {T} _.
Arguments row_scale {T} _.

(** What the program prints, by message, with the values printed. *)
Inductive Msg (T : Type) : Type :=
| MsgUsage (name : string)
| MsgGravity (deg gx gy gz : T)
| MsgCheckpointError
| MsgInertia (ix iy iz : T)
| MsgSoupFamilies (n : nat)
| MsgRenderingAt (fps : Z)
| MsgMasses (chassis wheel : T)
| MsgWeight (w : T)
| MsgSettingFree
| MsgTerrainMax (z : T)
| MsgRenderingFrame (n : Z)
| MsgWheelForces (f : ChVector T)
| MsgWheelTorques (t : ChVector T)
| MsgRot (q : ChQuaternion T)
| MsgTime.
Arguments MsgUsage {T} _.
Arguments MsgGravity {T} _ _ _ _.
Arguments MsgCheckpointError {T}.
Arguments MsgInertia {T} _ _ _.
Arguments MsgSoupFamilies {T} _.
Arguments MsgRenderingAt {T} _.
Arguments MsgMasses {T} _ _.
Arguments MsgWeight {T} _.
Arguments MsgSettingFree {T}.
Arguments MsgTerrainMax {T} _.
Arguments MsgRenderingFrame {T} _.
Arguments MsgWheelForces {T} _.
Arguments MsgWheelTorques {T} _.
Arguments MsgRot {T} _.
Arguments MsgTime {T}.

(** Observable effects: standard output, the file system, and the calls
    that advance one of the two solvers. [G] is the type of the terrain
    system, whose state a snapshot file holds. *)
Inductive Solver : Type := Terrain | Rigid.

Inductive IO (T G : Type) : Type :=
| Print (m : Msg T)
| CreateDirectory (path : string)
| WriteFile (path : string) (sys : G)
| WriteMeshFile (path : string) (rows : list (MeshFrameRow T))
| Advance (who : Solver) (h : Ieee.double).
Arguments Print {T G} _.
Arguments Advance {T G} _ _.
Arguments CreateDirectory {T G} _.
Arguments WriteFile {T G} _ _.
Arguments WriteMeshFile {T G} _ _.

Definition is_file_output {T G} (e : IO T G) : bool :=
  match e with
  | WriteFile _ _ | WriteMeshFile _ _ => true
  | _ => false
  end.

Definition is_fs_effect {T G} (e : IO T G) : bool :=
  match e with
  | CreateDirectory _ | WriteFile _ _ | WriteMeshFile _ _ => true
  | _ => false
  end.

Definition is_advance {T G} (e : IO T G) : bool :=
  match e with
  | Advance _ _ => true
  | _ => false
  end.

(* ===================================================================== *)
(** * Checkpoint files                                                    *)
(* ===================================================================== *)

(** ** Decimal text to [float]: [std::stof] *)

Definition is_digit (c : ascii) : bool :=
  (48 <=? nat_of_ascii c)%nat && (nat_of_ascii c <=? 57)%nat.

Definition is_space (c : ascii) : bool :=
  let n := nat_of_ascii c in
  (n =? 32)%nat || ((9 <=? n)%nat && (n <=? 13)%nat).

Definition digit_value (c : ascii) : Z := Z.of_nat (nat_of_ascii c) - 48.

Fixpoint skip_space (s : string) : string :=
  match s with
  | String c r => if is_space c then skip_space r else s
  | EmptyString => s
  end.

(** The longest prefix of digits, and what follows it. *)
Fixpoint take_digits (s : string) : string * string :=
  match s with
  | String c r =>
      if is_digit c
      then let '(d, r') := take_digits r in (String c d, r')
      else (EmptyString, s)
  | EmptyString => (EmptyString, EmptyString)
  end.

Fixpoint digits_value (acc : Z) (s : string) : Z :=
  match s with
  | String c r => digits_value (10 * acc + digit_value c) r
  | EmptyString => acc
  end.

Definition take_sign (s : string) : bool * string :=
  match s with
  | String "-" r => (true, r)
  | String "+" r => (false, r)
  | _ => (false, s)
  end.

(** The exponent part: [e] or [E], an optional sign and at least one
    digit; when no digit follows, there is no exponent part. *)
Definition take_exponent (s : string) : Z :=
  match s with
  | String c r =>
      if (Ascii.eqb c "e" || Ascii.eqb c "E")%bool
      then let '(neg, r1) := take_sign r in
           let '(ds, _) := take_digits r1 in
           match ds with
           | EmptyString => 0
           | _ => if neg then - digits_value 0 ds else digits_value 0 ds
           end
      else 0
  | EmptyString => 0
  end.

(** ** Decimal to [float], correctly rounded

    [strtof] returns the [float] nearest to the decimal it reads, ties to
    even. The decimal [n * 10^e10] ([n] not negative) is the quotient of
    two integers; the quotient is scaled by a power of two so that its
    integer part has the 24 bits of a [float] mantissa (fewer for a
    subnormal result), and rounded to an integer. *)

(** [x * 2^s] for [s] positive, [x] otherwise. *)
Definition shift_up (x s : Z) : Z := x * 2 ^ Z.max s 0.

(** The integer nearest to [a / b], ties to even. *)
Definition round_half_even (a b : Z) : Z :=
  let q := a / b in
  match 2 * (a mod b) ?= b with
  | Lt => q
  | Eq => if Z.even q then q else q + 1
  | Gt => q + 1
  end.

(** The [k] with [2^(k-1) <= a / b < 2^k]. *)
Definition magnitude (a b : Z) : Z :=
  let k := Z.log2 a - Z.log2 b in
  if shift_up b k <=? shift_up a (- k) then k + 1 else k.

Definition decimal_num (n e10 : Z) : Z := n * 10 ^ Z.max e10 0.
Definition decimal_den (e10 : Z) : Z := 10 ^ Z.max (- e10) 0.

(** The exponent of the result before a carry: 24 bits of mantissa, and
    never below the exponent of the subnormal numbers. *)
Definition float_exponent (n e10 : Z) : Z :=
  Z.max (magnitude (decimal_num n e10) (decimal_den e10) - 24) (-149).

Definition float_mantissa (n e10 : Z) : Z :=
  let e := float_exponent n e10 in
  round_half_even (shift_up (decimal_num n e10) (- e)) (shift_up (decimal_den e10) e).

(** Whether the decimal is a [float] exactly (nothing is rounded away). *)
Definition decimal_exact (n e10 : Z) : bool :=
  let e := float_exponent n e10 in
  shift_up (decimal_num n e10) (- e) mod shift_up (decimal_den e10) e =? 0.

(** The [float] nearest to [(-1)^neg * n * 10^e10], ties to even; an
    infinity when the rounded value is beyond the largest [float]. *)
Definition decimal_to_float (neg : bool) (n e10 : Z) : Ieee.float :=
  if n <=? 0 then S754_zero neg else
  let e := float_exponent n e10 in
  match float_mantissa n e10 with
  | Zpos p =>
      if Zpos p =? 2 ^ 24
      then (if e + 1 <=? 104 then S754_finite neg 8388608 (e + 1) else S754_infinity neg)
      else (if e <=? 104 then S754_finite neg p e else S754_infinity neg)
  | _ => S754_zero neg
  end.

(** Below the least normal [float], [2^-126]. *)
Definition below_normal (x : Ieee.float) : bool :=
  match x with
  | S754_zero _ => true
  | S754_finite _ m e => Zpos (digits2_pos m) + e <=? -126
  | _ => false
  end.

(** What [strtof] and [std::stof] make of the decimal. Overflow sets
    [errno] to [ERANGE] and [std::stof] throws [std::out_of_range]. So
    does underflow: a result below the least normal [float] that is not
    the decimal exactly (as [1e-40], [1e-46], [1.4e-45]). For a decimal
    below the least normal [float] that rounds up to it, whether [errno]
    is set depends on the platform (tininess before or after rounding),
    and the embedding says so. *)
Definition strtof_result (neg : bool) (n e10 : Z) : Result Ieee.float :=
  let x := decimal_to_float neg n e10 in
  match x with
  | S754_infinity _ => Throw "out_of_range"
  | _ =>
      if (0 <? n) && negb (decimal_exact n e10)
      then if below_normal x then Throw "out_of_range"
           else if magnitude (decimal_num n e10) (decimal_den e10) <=? -126
                then Unmodelled "stof: underflow to the least normal float"
                else Done x
      else Done x
  end.




(** Tokens that [strtof] reads but the embedding does not: hexadecimal
    floats, [inf], [nan]. *)
Definition outside_decimal_form (s : string) : bool :=
  match s with
  | String "0" (String c _) => (Ascii.eqb c "x" || Ascii.eqb c "X")%bool
  | String c _ =>
      (Ascii.eqb c "i" || Ascii.eqb c "I" || Ascii.eqb c "n" || Ascii.eqb c "N")%bool
  | EmptyString => false
  end.

(** [std::stof]: skips white space, reads the longest decimal prefix and
    ignores the rest of the token; throws [std::invalid_argument] when no
    number can be read and [std::out_of_range] when the value overflows or
    underflows. *)
Definition stof (tok : string) : Result Ieee.float :=
  let '(neg, s2) := take_sign (skip_space tok) in
  if outside_decimal_form s2 then Unmodelled "stof: not a decimal numeral" else
  let '(ip, s3) := take_digits s2 in
  let '(fp, s4) := match s3 with
                   | String "." r => take_digits r
                   | _ => (EmptyString, s3)
                   end in
  match (ip ++ fp)%string with
  | EmptyString => Throw "invalid_argument"
  | ds =>
      strtof_result neg (digits_value 0 ds)
        (take_exponent s4 - Z.of_nat (String.length fp))
  end.

(** ** [loadCheckpointFile] *)

(** [line.find(d)]: the position of the first occurrence, [None] for
    [npos]. *)
Definition find (line d : string) : option nat := String.index 0 d line.

(** [line.substr(0, pos)]: with [npos], the whole line. *)
Definition substr0 (line : string) (pos : option nat) : string :=
  match pos with
  | Some p => String.substring 0 p line
  | None => line
  end.

(** [line.erase(0, pos + 1)]: with [npos], [pos + 1] wraps around to [0]
    and nothing is erased. *)
Definition erase0 (line : string) (pos : option nat) : string :=
  match pos with
  | Some p => String.substring (S p) (String.length line - S p) line
  | None => line
  end.

(** One turn of the inner loop: the token up to the first comma is
    converted and erased from the line. *)
Definition read_field (line : string) : Result (Ieee.float * string) :=
  let pos := find line "," in
  let tok := substr0 line pos in
  match stof tok with
  | Done v => Done (v, erase0 line pos)
  | Exit n => Exit n
  | Throw s => Throw s
  | Undefined s => Undefined s
  | Unmodelled s => Unmodelled s
  | OutOfFuel => OutOfFuel
  end.

Definition parse_point {E} (line : string) : Run E (ChVector Ieee.float) :=
  let* f0 := stop (read_field line) in
  let* f1 := stop (read_field (snd f0)) in
  let* f2 := stop (read_field (snd f1)) in
  ret (mkVec (fst f0) (fst f1) (fst f2)).

(** The file system as the program reads it: the lines [std::getline]
    yields for a path, [None] when the file cannot be opened. *)
Definition FileSystem : Type := string -> option (list string).

Definition loadCheckpointFile {T G} (fs : FileSystem) (checkpoint_file : string)
  : Run (IO T G) (list (ChVector Ieee.float)) :=
  match fs checkpoint_file with
  | None => emit (Print MsgCheckpointError) ;;; stop (Exit 1)
  | Some lines => mapM parse_point (tail lines)
  end.

(** ** The checkpoint writer *)

Inductive digit : Type :=
| Dg0 | Dg1 | Dg2 | Dg3 | Dg4 | Dg5 | Dg6 | Dg7 | Dg8 | Dg9.

Definition digit_char (d : digit) : ascii :=
  match d with
  | Dg0 => "0" | Dg1 => "1" | Dg2 => "2" | Dg3 => "3" | Dg4 => "4"
  | Dg5 => "5" | Dg6 => "6" | Dg7 => "7" | Dg8 => "8" | Dg9 => "9"
  end%char.


(** A printed number: sign, integer digits (at least one), fraction
    digits, and an optional exponent with its sign and digits (at least
    one). *)
Record Numeral : Type := mkNumeral {
  num_neg : bool;
  num_int : digit * list digit;
  num_frac : list digit;
  num_exp : option (bool * (digit * list digit))
}.

Fixpoint print_digits (ds : list digit) : string :=
  match ds with
  | [] => EmptyString
  | d :: ds' => String (digit_char d) (print_digits ds')
  end.

Definition print_numeral (n : Numeral) : string :=
  ((if num_neg n then "-" else "")
   ++ print_digits (fst (num_int n) :: snd (num_int n))
   ++ match num_frac n with
      | [] => ""
      | f => "." ++ print_digits f
      end
   ++ match num_exp n with
      | None => ""
      | Some (s, e) => "e" ++ (if s then "-" else "+") ++ print_digits (fst e :: snd e)
      end)%string.



(** Modelled from the spec: the writer of checkpoint files is the terrain
    solver's snapshot function in CSV mode ([ChSystemGpu::WriteFile]),
    library code that [src/] does not contain. The spec gives the schema:
    "text, one header line (discarded), then one line per particle:
    x,y,z (comma-delimited, no trailing metadata)". How a coordinate is
    printed is the writer's choice: [fmt] is that choice. *)
Definition checkpoint_line (fmt : Ieee.float -> Numeral) (p : ChVector Ieee.float)
  : string :=
  (print_numeral (fmt (vec_x p)) ++ "," ++ print_numeral (fmt (vec_y p)) ++ ","
   ++ print_numeral (fmt (vec_z p)))%string.

Definition write_checkpoint (fmt : Ieee.float -> Numeral)
  (points : list (ChVector Ieee.float)) : list string :=
  "x,y,z"%string :: map (checkpoint_line fmt) points.










(* ===================================================================== *)
(** * The two systems                                                     *)
(* ===================================================================== *)

(** What [ApplyMeshMotion] hands to the terrain system for one mesh. *)
Record MeshMotion (T : Type) := mkMotion {
  mm_pos : ChVector T;
  mm_rot : ChQuaternion T;
  mm_pos_dt : ChVector T;
  mm_wvel : ChVector T
}.
Arguments mkMotion {T} _ _ _ _.
Arguments mm_pos {T} _.
Arguments mm_rot {T} _.
Arguments mm_pos_dt {T} _.
Arguments mm_wvel {T} _.

(** A mesh soup of the terrain system: what [LoadMeshes] registers, and
    the motion last applied to it. *)
Record Mesh (T : Type) := mkMesh {
  mesh_file : string;
  mesh_rotscale : ChVector T;
  mesh_translation : ChVector T;
  mesh_mass : T;
  mesh_motion : option (MeshMotion T)
}.
Arguments mkMesh {T} _ _ _ _ _.
Arguments mesh_file {T} _.
Arguments mesh_rotscale {T} _.
Arguments mesh_translation {T} _.
Arguments mesh_mass {T} _.
Arguments mesh_motion {T} _.

Inductive OutputMode : Type := CSV | BINARY | HDF5 | NONE.
Inductive Verbosity : Type := QUIET | INFO | METRICS.

(** Configuration calls of the terrain system that the program makes once
    and never reads back. [P] bundles the stiffness, damping, friction,
    cohesion and adhesion coefficients of the JSON file. *)
Inductive GpuSetting (P : Type) : Type :=
| SetBDFixed (b : bool)
| SetMaterial (coefficients : P)
| SetFixedStepSize (h : Ieee.double)
| SetFrictionMode_MULTI_STEP
| SetTimeIntegrator_CENTERED_DIFFERENCE
| SetVerbosity (v : Verbosity).
Arguments SetBDFixed {P} _.
Arguments SetMaterial {P} _.
Arguments SetFixedStepSize {P} _.
Arguments SetFrictionMode_MULTI_STEP {P}.
Arguments SetTimeIntegrator_CENTERED_DIFFERENCE {P}.
Arguments SetVerbosity {P} _.

(** [ChSystemGpuMesh]. [X] is the state the solver keeps to itself. *)
Record ChSystemGpuMesh (T P X : Type) := mkGpu {
  gpu_sphere_radius : T;
  gpu_sphere_density : T;
  gpu_box : ChVector T;
  gpu_particles : list (ChVector Ieee.float);
  gpu_gravity : ChVector T;
  gpu_meshes : list (Mesh T);
  gpu_mesh_collision : bool;
  gpu_output_mode : OutputMode;
  gpu_settings : list (GpuSetting P);
  gpu_initialized : bool;
  gpu_state : X
}.
Arguments mkGpu {T P X} _ _ _ _ _ _ _ _ _ _ _.
Arguments gpu_sphere_radius {T P X} _.
Arguments gpu_sphere_density {T P X} _.
Arguments gpu_box {T P X} _.
Arguments gpu_particles {T P X} _.
Arguments gpu_gravity {T P X} _.
Arguments gpu_meshes {T P X} _.
Arguments gpu_mesh_collision {T P X} _.
Arguments gpu_output_mode {T P X} _.
Arguments gpu_settings {T P X} _.
Arguments gpu_initialized {T P X} _.
Arguments gpu_state {T P X} _.

(** Joints and motors between the chassis and a wheel. Their frame sits
    at the wheel's initial position; its rotation, [Q_from_AngX(CH_C_PI /
    2)], and the motor's ramp, [ChFunction_Ramp(0, CH_C_PI)], are the same
    constants for every link and are not stored. *)
Inductive ChLink (T : Type) : Type :=
| ChLinkLockRevolute (body1 body2 : nat) (pos : ChVector T)
| ChLinkMotorRotationAngle (body1 body2 : nat) (pos : ChVector T).
Arguments ChLinkLockRevolute {T} _ _ _.
Arguments ChLinkMotorRotationAngle {T} _ _ _.

(** [ChSystemNSC]. Bodies are shared between the program and the system
    ([std::shared_ptr]): the system's list is the store, and a body handle
    is an index into it. [Y] is the state the solver keeps to itself. *)
Record ChSystemNSC (T Y : Type) := mkSys {
  sys_G_acc : ChVector T;
  sys_bodies : list (ChBody T);
  sys_links : list (ChLink T);
  sys_state : Y
}.
Arguments mkSys {T Y} _ _ _ _.
Arguments sys_G_acc {T Y} _.
Arguments sys_bodies {T Y} _.
Arguments sys_links {T Y} _.
Arguments sys_state {T Y} _.

(** The terrain solver as the program uses it, beyond plain setters. *)
Class TerrainSolver (T P X : Type) := {
  gpu_state_new : X;
  AdvanceSimulation : ChSystemGpuMesh T P X -> Ieee.double -> ChSystemGpuMesh T P X;
  CollectMeshContactForces : ChSystemGpuMesh T P X -> nat -> ChVector T * ChVector T;
  GetMaxParticleZ : ChSystemGpuMesh T P X -> T;
  PDLayerSampler_BOX : ChVector T -> ChVector T -> T -> T -> list (ChVector Ieee.float)
}.

(** The rigid-body solver. *)
Class RigidSolver (T Y : Type) := {
  sys_state_new : Y;
  DoStepDynamics : ChSystemNSC T Y -> Ieee.double -> ChSystemNSC T Y
}.

(** What the coupling loop relies on: a step of the rigid solver keeps
    the bodies it was given (their number and their fixed flags) and
    leaves a fixed body as it is. *)
Class RigidSolverLaws (T Y : Type) {RS : RigidSolver T Y} : Prop := {
  step_length : forall (sys : ChSystemNSC T Y) h,
    length (sys_bodies (DoStepDynamics sys h)) = length (sys_bodies sys);
  step_fixed_flag : forall (sys : ChSystemNSC T Y) h i b,
    sys_bodies sys !! i = Some b ->
    body_fixed <$> (sys_bodies (DoStepDynamics sys h) !! i) = Some (body_fixed b);
  step_fixed_body : forall (sys : ChSystemNSC T Y) h i b,
    sys_bodies sys !! i = Some b -> body_fixed b = true ->
    sys_bodies (DoStepDynamics sys h) !! i = Some b
}.

(** What the coupling loop relies on from the terrain solver: a step
    keeps the meshes that were loaded. *)
Class TerrainSolverLaws (T P X : Type) {TS : TerrainSolver T P X} : Prop := {
  advance_meshes : forall (g : ChSystemGpuMesh T P X) h,
    length (gpu_meshes (AdvanceSimulation g h)) = length (gpu_meshes g)
}.

(** The program's variables that live across the coupling loop. *)
Record World (T P X Y : Type) := mkWorld {
  gpu_sys : ChSystemGpuMesh T P X;
  rover_sys : ChSystemNSC T Y;
  chassis_body : nat;
  wheel_bodies : list nat;
  terrain_height_offset : T;
  chassis_fixed : bool;
  currframe : Z
}.
Arguments mkWorld {T P X Y} _ _ _ _ _ _ _.
Arguments gpu_sys {T P X Y} _.
Arguments rover_sys {T P X Y} _.
Arguments chassis_body {T P X Y} _.
Arguments wheel_bodies {T P X Y} _.
Arguments terrain_height_offset {T P X Y} _.
Arguments chassis_fixed {T P X Y} _.
Arguments currframe {T P X Y} _.

(** One turn of the coupling loop, with the states between its phases. *)
Record StepRecord (T P X Y : Type) := mkStep {
  sr_t : Ieee.float;
  sr_curr_step : Z;
  sr_begin : World T P X Y;
  sr_released : bool;
  sr_entry : World T P X Y;
  sr_pushed : ChSystemGpuMesh T P X;
  sr_advanced : World T P X Y;
  sr_collected : World T P X Y;
  sr_frame : option (list (MeshFrameRow T));
  sr_end : World T P X Y
}.
Arguments mkStep {T P X Y} _ _ _ _ _ _ _ _ _ _.
Arguments sr_t {T P X Y} _.
Arguments sr_curr_step {T P X Y} _.
Arguments sr_begin {T P X Y} _.
Arguments sr_released {T P X Y} _.
Arguments sr_entry {T P X Y} _.
Arguments sr_pushed {T P X Y} _.
Arguments sr_advanced {T P X Y} _.
Arguments sr_collected {T P X Y} _.
Arguments sr_frame {T P X Y} _.
Arguments sr_end {T P X Y} _.

(* ===================================================================== *)
(** * The program                                                         *)
(* ===================================================================== *)

(** The simulation parameters read from the JSON file
    ([ChGpuSimulationParameters]). The numeric fields are held at the
    precision at which [main] reads them: [step_size] and [time_end] as
    the [double] they widen to when used. *)
Record Params (T P : Type) := mkParams {
  sphere_radius : T;
  sphere_density : T;
  box_X : T;
  box_Y : T;
  box_Z : T;
  step_size : Ieee.double;
  time_end : Ieee.double;
  material : P;
  output_dir : string;
  write_mode : OutputMode;
  verbose : Verbosity
}.
Arguments mkParams {T P} _ _ _ _ _ _ _ _ _ _ _.
Arguments sphere_radius {T P} _.
Arguments sphere_density {T P} _.
Arguments box_X {T P} _.
Arguments box_Y {T P} _.
Arguments box_Z {T P} _.
Arguments step_size {T P} _.
Arguments time_end {T P} _.
Arguments material {T P} _.
Arguments output_dir {T P} _.
Arguments write_mode {T P} _.
Arguments verbose {T P} _.

(** The command line after the library conversions: [parsed_json] is the
    outcome of [ParseJSON] on [argv[1]], [run_mode] is
    [std::atoi(argv[2])], [input_grav_angle_deg] is [std::stod(argv[4])]. *)
Record Args (T P : Type) := mkArgs {
  argc : Z;
  argv0 : string;
  parsed_json : option (Params T P);
  run_mode : Z;
  checkpoint_file_base : string;
  input_grav_angle_deg : T
}.
Arguments mkArgs {T P} _ _ _ _ _ _.
Arguments argc {T P} _.
Arguments argv0 {T P} _.
Arguments parsed_json {T P} _.
Arguments run_mode {T P} _.
Arguments checkpoint_file_base {T P} _.
Arguments input_grav_angle_deg {T P} _.

(** [enum RUN_MODE] *)
Definition SETTLING : Z := 0.
Definition TESTING : Z := 1.

Definition out_fps : Z := 50.

(** [unsigned int out_steps = 1 / (out_fps * iteration_step)]: the
    product and the quotient are [double] operations, the initialisation
    converts to [unsigned int]. *)
Definition compute_out_steps (iteration_step : Ieee.double) : option Z :=
  Ieee.d2uint (Ieee.ddiv (Ieee.d_of_Z 1) (Ieee.dmul (Ieee.d_of_Z out_fps) iteration_step)).

(** [curr_step % out_steps == 0] on [unsigned int]: undefined when
    [out_steps] is zero. *)
Definition cadence_check (curr_step out_steps : Z) : option bool :=
  if out_steps =? 0 then None else Some (curr_step mod out_steps =? 0).

(** [t < params.time_end] and [t >= 0.5]: the [float] is widened. *)
Definition loop_continues (t : Ieee.float) (time_end : Ieee.double) : bool :=
  Ieee.dltb (Ieee.f2d t) time_end.

Definition settle_threshold : Ieee.double := Ieee.dlit 5 10.

Definition past_settling (t : Ieee.float) : bool :=
  Ieee.dleb settle_threshold (Ieee.f2d t).

(** [t += iteration_step]: the sum is a [double], stored as a [float]. *)
Definition next_time (t : Ieee.float) (iteration_step : Ieee.double) : Ieee.float :=
  Ieee.d2f (Ieee.dadd (Ieee.f2d t) iteration_step).

(** [curr_step++] on [unsigned int]. *)
Definition next_step (curr_step : Z) : Z := (curr_step + 1) mod 2 ^ 32.

(** The times at which the loop body runs: the [for] header alone. *)
Fixpoint loop_times (fuel : nat) (t : Ieee.float) (h time_end : Ieee.double)
  : list Ieee.float :=
  match fuel with
  | O => []
  | S fuel' =>
      if loop_continues t time_end
      then t :: loop_times fuel' (next_time t h) h time_end
      else []
  end.

(** [%06d] of a number that is not negative. *)
Definition pad6 (n : Z) : string :=
  let s := DecimalString.NilZero.string_of_uint (N.to_uint (Z.to_N n)) in
  (string_of_list_ascii (repeat "0"%char (6 - String.length s)) ++ s)%string.

Definition wheel_filename : string := "../data/meshes/wheel_scaled.obj".
Definition chassis_filename : string := "../data/meshes/MER_body.obj".

Section Program.
Context {T P X Y : Type} {RT : Real T} {TS : TerrainSolver T P X}
  {RS : RigidSolver T Y}.

Local Abbreviation Gpu := (ChSystemGpuMesh T P X).
Local Abbreviation Sys := (ChSystemNSC T Y).
Local Abbreviation Eff := (IO T (ChSystemGpuMesh T P X)).

Definition mars_grav_mag : T := r_lit 370 1.
Definition time_settling : Ieee.double := Ieee.dlit 1 1.
Definition time_running : Ieee.double := Ieee.dlit 10 1.

Definition METERS_TO_CM : T := r_lit 100 1.
Definition KG_TO_GRAM : T := r_lit 1000 1.

Definition wheel_rad : T := r_mul (r_lit 13 100) METERS_TO_CM.
Definition wheel_width : T := r_mul (r_lit 16 100) METERS_TO_CM.

Definition ROVER_MASS_REDUCTION : T := r_lit 1 1.
Definition wheel_mass : T := r_mul (r_mul ROVER_MASS_REDUCTION (r_lit 4 1)) KG_TO_GRAM.
Definition chassis_mass : T := r_mul (r_mul ROVER_MASS_REDUCTION (r_lit 161 1)) KG_TO_GRAM.

Definition front_wheel_offset_x : T := r_mul (r_lit 7 10) METERS_TO_CM.
Definition front_wheel_offset_y : T := r_mul (r_lit 6 10) METERS_TO_CM.
Definition middle_wheel_offset_x : T := r_mul (r_opp (r_lit 1 100)) METERS_TO_CM.
Definition middle_wheel_offset_y : T := r_mul (r_lit 55 100) METERS_TO_CM.
Definition rear_wheel_offset_x : T := r_mul (r_opp (r_lit 51 100)) METERS_TO_CM.
Definition rear_wheel_offset_y : T := r_mul (r_lit 6 10) METERS_TO_CM.
Definition wheel_offset_z : T := r_mul (r_opp (r_lit 164 1000)) METERS_TO_CM.

Definition chassis_length_x : T := r_mul (r_lit 2 1) METERS_TO_CM.
Definition chassis_length_y : T := r_mul (r_lit 2 1) METERS_TO_CM.
Definition chassis_length_z : T := r_mul (r_lit 15 10) METERS_TO_CM.

(** The diagonal of [wheel_scaling], a [ChMatrix33<float>]. *)
Definition wheel_scaling : ChVector T :=
  mkVec (r_float (r_mul wheel_rad (r_lit 2 1))) (r_float wheel_width)
        (r_float (r_mul wheel_rad (r_lit 2 1))).

Definition chassis_scaling : ChVector T :=
  mkVec (r_float METERS_TO_CM) (r_float METERS_TO_CM) (r_float METERS_TO_CM).

Definition wheel_inertia_x : T :=
  r_add (r_mul (r_mul (r_mul (r_div (r_lit 1 1) (r_lit 4 1)) wheel_mass) wheel_rad) wheel_rad)
        (r_mul (r_div (r_lit 1 1) (r_lit 12 1)) wheel_mass).
Definition wheel_inertia_y : T :=
  r_mul (r_mul (r_mul (r_div (r_lit 1 1) (r_lit 2 1)) wheel_mass) wheel_rad) wheel_rad.
Definition wheel_inertia_z : T := wheel_inertia_x.

(** [std::abs(wheel_offset_z) + 2 * wheel_rad] *)
Definition height_offset_chassis_to_bottom : T :=
  r_add (r_abs wheel_offset_z) (r_mul (r_lit 2 1) wheel_rad).

(** ** Setters of the terrain system *)

Definition gpu_new (radius density : T) (box : ChVector T) : Gpu :=
  mkGpu radius density box [] VNULL [] true CSV [] false gpu_state_new.

Definition SetParticlePositions (pts : list (ChVector Ieee.float)) (g : Gpu) : Gpu :=
  mkGpu (gpu_sphere_radius g) (gpu_sphere_density g) (gpu_box g) pts
        (gpu_gravity g) (gpu_meshes g) (gpu_mesh_collision g)
        (gpu_output_mode g) (gpu_settings g) (gpu_initialized g) (gpu_state g).

Definition SetGravitationalAcceleration (a : ChVector T) (g : Gpu) : Gpu :=
  mkGpu (gpu_sphere_radius g) (gpu_sphere_density g) (gpu_box g)
        (gpu_particles g) a (gpu_meshes g) (gpu_mesh_collision g)
        (gpu_output_mode g) (gpu_settings g) (gpu_initialized g) (gpu_state g).

Definition with_meshes (ms : list (Mesh T)) (g : Gpu) : Gpu :=
  mkGpu (gpu_sphere_radius g) (gpu_sphere_density g) (gpu_box g)
        (gpu_particles g) (gpu_gravity g) ms (gpu_mesh_collision g)
        (gpu_output_mode g) (gpu_settings g) (gpu_initialized g) (gpu_state g).

Definition LoadMeshes (ms : list (Mesh T)) (g : Gpu) : Gpu := with_meshes ms g.

Definition EnableMeshCollision (b : bool) (g : Gpu) : Gpu :=
  mkGpu (gpu_sphere_radius g) (gpu_sphere_density g) (gpu_box g)
        (gpu_particles g) (gpu_gravity g) (gpu_meshes g) b
        (gpu_output_mode g) (gpu_settings g) (gpu_initialized g) (gpu_state g).

Definition SetOutputMode (m : OutputMode) (g : Gpu) : Gpu :=
  mkGpu (gpu_sphere_radius g) (gpu_sphere_density g) (gpu_box g)
        (gpu_particles g) (gpu_gravity g) (gpu_meshes g) (gpu_mesh_collision g)
        m (gpu_settings g) (gpu_initialized g) (gpu_state g).

Definition configure (c : GpuSetting P) (g : Gpu) : Gpu :=
  mkGpu (gpu_sphere_radius g) (gpu_sphere_density g) (gpu_box g)
        (gpu_particles g) (gpu_gravity g) (gpu_meshes g) (gpu_mesh_collision g)
        (gpu_output_mode g) (gpu_settings g ++ [c]) (gpu_initialized g) (gpu_state g).

Definition Initialize (g : Gpu) : Gpu :=
  mkGpu (gpu_sphere_radius g) (gpu_sphere_density g) (gpu_box g)
        (gpu_particles g) (gpu_gravity g) (gpu_meshes g) (gpu_mesh_collision g)
        (gpu_output_mode g) (gpu_settings g) true (gpu_state g).

Definition GetNumMeshes (g : Gpu) : nat := length (gpu_meshes g).

Definition with_motion (mm : MeshMotion T) (m : Mesh T) : Mesh T :=
  mkMesh (mesh_file m) (mesh_rotscale m) (mesh_translation m) (mesh_mass m) (Some mm).

(** Modelled from the spec: [ChSystemGpuMesh::ApplyMeshMotion] is library
    code that [src/] does not contain; the spec's interface is
    [setSoupPose(handle, position, orientation, linearVelocity,
    angularVelocity)], which writes the kinematic state of one soup. *)
Definition ApplyMeshMotion (i : nat) (pos : ChVector T) (rot : ChQuaternion T)
  (pos_dt wvel : ChVector T) (g : Gpu) : Gpu :=
  with_meshes (alter (with_motion (mkMotion pos rot pos_dt wvel)) i (gpu_meshes g)) g.

(** ** Bodies in the rigid system *)

Definition with_bodies (bs : list (ChBody T)) (s : Sys) : Sys :=
  mkSys (sys_G_acc s) bs (sys_links s) (sys_state s).

Definition Set_G_acc (a : ChVector T) (s : Sys) : Sys :=
  mkSys a (sys_bodies s) (sys_links s) (sys_state s).

Definition AddBody (b : ChBody T) (s : Sys) : Sys :=
  with_bodies (sys_bodies s ++ [b]) s.

Definition AddLink (l : ChLink T) (s : Sys) : Sys :=
  mkSys (sys_G_acc s) (sys_bodies s) (sys_links s ++ [l]) (sys_state s).

(** A method call through a body handle. *)
Definition on_body (handle : nat) (f : ChBody T -> ChBody T) (s : Sys) : Sys :=
  with_bodies (alter f handle (sys_bodies s)) s.

Definition get_body (s : Sys) (handle : nat) : Run Eff (ChBody T) :=
  match sys_bodies s !! handle with
  | Some b => ret b
  | None => stop (Undefined "body handle outside the system")
  end.

Local Abbreviation Wd := (World T P X Y).
Local Abbreviation Step := (StepRecord T P X Y).

(** ** [addWheelBody]

    The five global vectors: [wheel_bodies], and the four parallel vectors
    [mesh_filenames], [mesh_rotscales], [mesh_translations] and
    [mesh_masses], which are always pushed together and are held here as
    one list of meshes. *)
Record Globals := mkGlobals {
  g_wheel_bodies : list nat;
  g_meshes : list (Mesh T)
}.

Definition addWheelBody (rover_sys : Sys) (glob : Globals) (chassis_body : nat)
  (wheel_filename : string) (wheel_initial_pos_relative : ChVector T)
  : Run Eff (Sys * Globals) :=
  let* chassis := get_body rover_sys chassis_body in
  let wheel_initial_pos := Vadd (body_pos chassis) wheel_initial_pos_relative in
  let wheel_body := NewBody in
  let wheel_body := SetMass wheel_mass wheel_body in
  let wheel_body := SetBodyFixed false wheel_body in
  let wheel_body :=
    SetInertiaXX (mkVec wheel_inertia_x wheel_inertia_y wheel_inertia_z) wheel_body in
  emit (Print (MsgInertia wheel_inertia_x wheel_inertia_y wheel_inertia_z)) ;;;
  let wheel_body := SetPos wheel_initial_pos wheel_body in
  let handle := length (sys_bodies rover_sys) in
  let rover_sys := AddBody wheel_body rover_sys in
  let rover_sys :=
    AddLink (ChLinkLockRevolute chassis_body handle wheel_initial_pos) rover_sys in
  let rover_sys :=
    AddLink (ChLinkMotorRotationAngle chassis_body handle wheel_initial_pos) rover_sys in
  ret (rover_sys,
       mkGlobals (g_wheel_bodies glob ++ [handle])
                 (g_meshes glob
                  ++ [mkMesh wheel_filename wheel_scaling VNULL (r_float wheel_mass) None])).

(** ** [writeMeshFrames]

    [GetFrame_REF_to_abs] of a plain [ChBody] is the body's own frame.
    The row is what the function appends to [outstream]. *)
Definition writeMeshFrames (terrain_height_offset : T) (body : ChBody T)
  (obj_name : string) (mesh_scaling : ChVector T) : Run Eff (MeshFrameRow T) :=
  let rot := body_rot body in
  let pos := Vadd (body_pos body) (mkVec r_zero r_zero terrain_height_offset) in
  let vx := GetXaxis rot in
  let vy := GetYaxis rot in
  let vz := GetZaxis rot in
  emit (Print (MsgRot rot)) ;;;
  let vx := Vdiv vx (Length vx) in
  let vy := Vdiv vy (Length vy) in
  let vz := Vdiv vz (Length vz) in
  ret (mkRow obj_name pos vx vy vz mesh_scaling).

(** ** The body of the coupling loop, phase by phase *)

Definition with_gpu (g : Gpu) (w : Wd) : Wd :=
  mkWorld g (rover_sys w) (chassis_body w) (wheel_bodies w)
          (terrain_height_offset w) (chassis_fixed w) (currframe w).

Definition with_rover (s : Sys) (w : Wd) : Wd :=
  mkWorld (gpu_sys w) s (chassis_body w) (wheel_bodies w)
          (terrain_height_offset w) (chassis_fixed w) (currframe w).

(** Lines 407-415: the chassis is set free, once. *)
Definition release_chassis (t : Ieee.float) (w : Wd) : Run Eff Wd :=
  if chassis_fixed w && past_settling t then
    emit (Print MsgSettingFree) ;;;
    let rover := on_body (chassis_body w) (SetBodyFixed false) (rover_sys w) in
    let max_terrain_z := r_float (GetMaxParticleZ (gpu_sys w)) in
    emit (Print (MsgTerrainMax max_terrain_z)) ;;;
    ret (mkWorld (gpu_sys w) rover (chassis_body w) (wheel_bodies w)
                 (r_add max_terrain_z height_offset_chassis_to_bottom)
                 false (currframe w))
  else ret w.

(** Lines 416-421: the motion of wheel [i] goes to mesh [i]. *)
Fixpoint push_wheel_motion (i : nat) (wheels : list nat) (rover : Sys) (g : Gpu)
  : Run Eff Gpu :=
  match wheels with
  | [] => ret g
  | handle :: rest =>
      let* curr_body := get_body rover handle in
      push_wheel_motion (S i) rest rover
        (ApplyMeshMotion i (body_pos curr_body) (body_rot curr_body)
                         (body_pos_dt curr_body) (body_wvel curr_body) g)
  end.

(** Lines 428-436 for one wheel. *)
Definition load_wheel (wheel_force wheel_torque : ChVector T) (b : ChBody T)
  : ChBody T :=
  let b := Empty_forces_accumulators b in
  let b := Accumulate_force wheel_force (body_pos b) b in
  Accumulate_torque wheel_torque b.

(** Lines 426-436: [wheel_force] and [wheel_torque] are declared before
    the loop and keep the values of its last turn. *)
Fixpoint collect_wheel_forces (i : nat) (wheels : list nat) (g : Gpu)
  (rover : Sys) (wheel_force wheel_torque : ChVector T)
  : Run Eff (Sys * (ChVector T * ChVector T)) :=
  match wheels with
  | [] => ret (rover, (wheel_force, wheel_torque))
  | handle :: rest =>
      let* _ := get_body rover handle in
      let ft := CollectMeshContactForces g i in
      collect_wheel_forces (S i) rest g
        (on_body handle (load_wheel (fst ft) (snd ft)) rover) (fst ft) (snd ft)
  end.

(** [sprintf(filename, "%s/step%06d", ...)] into [char filename[100]]. *)
Definition frame_filename (dir : string) (frame : Z) : Run Eff string :=
  let name := (dir ++ "/step" ++ pad6 frame)%string in
  if (String.length name <? 100)%nat then ret name
  else stop (Undefined "sprintf past the end of filename").

(** Lines 439-462: one frame. *)
Definition record_frame (dir : string) (wheel_force wheel_torque : ChVector T)
  (w : Wd) : Run Eff (Wd * list (MeshFrameRow T)) :=
  emit (Print (MsgRenderingFrame (currframe w))) ;;;
  emit (Print (MsgWheelForces wheel_force)) ;;;
  emit (Print (MsgWheelTorques wheel_torque)) ;;;
  let* filename := frame_filename dir (currframe w) in
  emit (WriteFile filename (gpu_sys w)) ;;;
  let* wheel_rows :=
    mapM (fun handle =>
            let* b := get_body (rover_sys w) handle in
            writeMeshFrames (terrain_height_offset w) b wheel_filename wheel_scaling)
         (wheel_bodies w) in
  let* chassis := get_body (rover_sys w) (chassis_body w) in
  let* chassis_row :=
    writeMeshFrames (terrain_height_offset w) chassis chassis_filename chassis_scaling in
  let rows := wheel_rows ++ [chassis_row] in
  emit (WriteMeshFile (filename ++ "_meshframes.csv")%string rows) ;;;
  ret (mkWorld (gpu_sys w) (rover_sys w) (chassis_body w) (wheel_bodies w)
               (terrain_height_offset w) (chassis_fixed w) (currframe w + 1),
       rows).

(** Lines 407-463. *)
Definition loop_body (dir : string) (iteration_step : Ieee.double) (out_steps : Z)
  (t : Ieee.float) (curr_step : Z) (w : Wd) : Run Eff Step :=
  let* w1 := release_chassis t w in
  let* pushed := push_wheel_motion 0 (wheel_bodies w1) (rover_sys w1) (gpu_sys w1) in
  emit (Advance Terrain iteration_step) ;;;
  let g := AdvanceSimulation pushed iteration_step in
  emit (Advance Rigid iteration_step) ;;;
  let r := DoStepDynamics (rover_sys w1) iteration_step in
  let w2 := with_rover r (with_gpu g w1) in
  let* c := collect_wheel_forces 0 (wheel_bodies w2) g r VNULL VNULL in
  let w3 := with_rover (fst c) w2 in
  match cadence_check curr_step out_steps with
  | None => stop (Undefined "modulo by zero")
  | Some true =>
      let* f := record_frame dir (fst (snd c)) (snd (snd c)) w3 in
      ret (mkStep t curr_step w (chassis_fixed w && past_settling t) w1 pushed
                  w2 w3 (Some (snd f)) (fst f))
  | Some false =>
      ret (mkStep t curr_step w (chassis_fixed w && past_settling t) w1 pushed
                  w2 w3 None w3)
  end.

(** Line 406: the [for] statement. *)
Fixpoint coupling_loop (fuel : nat) (dir : string)
  (iteration_step time_end : Ieee.double) (out_steps : Z)
  (t : Ieee.float) (curr_step : Z) (w : Wd) : Run Eff (Wd * list Step) :=
  if loop_continues t time_end then
    match fuel with
    | O => stop OutOfFuel
    | S fuel' =>
        let* s := loop_body dir iteration_step out_steps t curr_step w in
        let* rest := coupling_loop fuel' dir iteration_step time_end out_steps
                       (next_time t iteration_step) (next_step curr_step) (sr_end s) in
        ret (fst rest, s :: snd rest)
    end
  else ret (w, []).

(** ** [main] *)

(** Lines 268-274. *)
Definition initial_particles (fs : FileSystem) (args : Args T P) (params : Params T P)
  : Run Eff (list (ChVector Ieee.float)) :=
  let fill_bottom := r_zero in
  let fill_top := r_div (box_Z params) (r_lit 2 1) in
  let hdims :=
    mkVec (r_sub (r_div (box_X params) (r_lit 2 1)) (r_lit 2 1))
          (r_sub (r_div (box_Y params) (r_lit 2 1)) (r_lit 2 1))
          (r_sub (r_abs (r_div (r_sub fill_bottom fill_top) (r_lit 2 1))) (r_lit 2 1)) in
  let center := mkVec r_zero r_zero (r_div (r_add fill_bottom fill_top) (r_lit 2 1)) in
  if run_mode args =? SETTLING then
    ret (PDLayerSampler_BOX center hdims
           (r_mul (r_lit 2 1) (sphere_radius params)) (r_lit 101 100))
  else if run_mode args =? TESTING then
    loadCheckpointFile fs (checkpoint_file_base args ++ ".csv")%string
  else ret [].

(** Lines 276-306. The fifteen coefficient setters are one [SetMaterial]. *)
Definition configure_terrain (params : Params T P) (G : ChVector T)
  (body_points : list (ChVector Ieee.float)) (g : Gpu) : Gpu :=
  let g := SetParticlePositions body_points g in
  let g := configure (SetBDFixed true) g in
  let g := configure (SetMaterial (material params)) g in
  let g := SetGravitationalAcceleration G g in
  let g := configure (SetFixedStepSize (step_size params)) g in
  let g := configure SetFrictionMode_MULTI_STEP g in
  configure SetTimeIntegrator_CENTERED_DIFFERENCE g.

(** Lines 309-365: the chassis, fixed, and the six wheels. *)
Definition chassis_inertia : ChVector T :=
  mkVec (r_div (r_mul (r_add (r_mul chassis_length_y chassis_length_y)
                             (r_mul chassis_length_z chassis_length_z)) chassis_mass)
               (r_lit 12 1))
        (r_div (r_mul (r_add (r_mul chassis_length_x chassis_length_x)
                             (r_mul chassis_length_z chassis_length_z)) chassis_mass)
               (r_lit 12 1))
        (r_div (r_mul (r_add (r_mul chassis_length_x chassis_length_x)
                             (r_mul chassis_length_y chassis_length_y)) chassis_mass)
               (r_lit 12 1)).

Definition wheel_offsets : list (ChVector T) :=
  [ mkVec front_wheel_offset_x front_wheel_offset_y wheel_offset_z;
    mkVec front_wheel_offset_x (r_opp front_wheel_offset_y) wheel_offset_z;
    mkVec middle_wheel_offset_x middle_wheel_offset_y wheel_offset_z;
    mkVec middle_wheel_offset_x (r_opp middle_wheel_offset_y) wheel_offset_z;
    mkVec rear_wheel_offset_x rear_wheel_offset_y wheel_offset_z;
    mkVec rear_wheel_offset_x (r_opp rear_wheel_offset_y) wheel_offset_z ].

Fixpoint add_wheels (offsets : list (ChVector T)) (chassis_body : nat)
  (st : Sys * Globals) : Run Eff (Sys * Globals) :=
  match offsets with
  | [] => ret st
  | o :: rest =>
      let* st' := addWheelBody (fst st) (snd st) chassis_body wheel_filename o in
      add_wheels rest chassis_body st'
  end.

Definition build_rover (params : Params T P) (G : ChVector T)
  : Run Eff (Sys * Globals * nat) :=
  let rover_sys := mkSys (mkVec r_zero (r_opp (r_lit 98 10)) r_zero) [] [] sys_state_new in
  let rover_sys := Set_G_acc G rover_sys in
  let chassis := NewBody in
  let init_offset_x := r_div (r_opp (box_X params)) (r_lit 4 1) in
  let chassis := SetMass chassis_mass chassis in
  let chassis := SetInertiaXX chassis_inertia chassis in
  let chassis := SetPos (mkVec init_offset_x r_zero r_zero) chassis in
  let chassis_body := length (sys_bodies rover_sys) in
  let rover_sys := AddBody chassis rover_sys in
  let rover_sys := on_body chassis_body (SetBodyFixed true) rover_sys in
  let* st := add_wheels wheel_offsets chassis_body (rover_sys, mkGlobals [] []) in
  ret (st, chassis_body).

(** Lines 253-385, given the gravity vector: everything [main] does
    between printing gravity and computing [out_steps]. *)
Definition setup (fs : FileSystem) (args : Args T P) (params : Params T P)
  (G : ChVector T) : Run Eff Wd :=
  let gpu := gpu_new (sphere_radius params) (sphere_density params)
                     (mkVec (box_X params) (box_Y params) (box_Z params)) in
  let* body_points := initial_particles fs args params in
  let gpu := configure_terrain params G body_points gpu in
  let* rover := build_rover params G in
  let rover_sys := fst (fst rover) in
  let glob := snd (fst rover) in
  let chassis_body := snd rover in
  let terrain_height_offset := r_add (box_Z params) height_offset_chassis_to_bottom in
  let gpu := LoadMeshes (g_meshes glob) gpu in
  let gpu := SetOutputMode (write_mode params) gpu in
  let gpu := configure (SetVerbosity (verbose params)) gpu in
  emit (CreateDirectory "../") ;;;
  emit (CreateDirectory ("../" ++ output_dir params)%string) ;;;
  emit (Print (MsgSoupFamilies (GetNumMeshes gpu))) ;;;
  let gpu := Initialize gpu in
  emit (Print (MsgRenderingAt out_fps)) ;;;
  ret (mkWorld gpu rover_sys chassis_body (g_wheel_bodies glob)
               terrain_height_offset true 0).

(** Lines 392-398. *)
Definition select_phase (args : Args T P) (params : Params T P) (w : Wd)
  : Wd * Ieee.double :=
  if run_mode args =? SETTLING
  then (with_gpu (EnableMeshCollision false (gpu_sys w)) w, time_settling)
  else if run_mode args =? TESTING
  then (with_gpu (EnableMeshCollision true (gpu_sys w)) w, time_running)
  else (w, time_end params).

Context {LM : Libm T}.

(** Lines 243-248: gravity, rotated about the +Y axis. *)
Definition gravity (input_grav_angle_deg : T) : ChVector T :=
  let grav_angle :=
    r_div (r_mul (r_mul (r_lit 2 1) CH_C_PI) input_grav_angle_deg) (r_lit 360 1) in
  let Gx := r_mul (r_opp mars_grav_mag) (std_sin grav_angle) in
  let Gy := r_zero in
  let Gz := r_mul (r_opp mars_grav_mag) (std_cos grav_angle) in
  mkVec Gx Gy Gz.

Definition main (fuel : nat) (fs : FileSystem) (args : Args T P)
  : Run Eff (Z * list Step) :=
  match (if argc args =? 5 then parsed_json args else None) with
  | None => emit (Print (MsgUsage (argv0 args))) ;;; ret (1, [])
  | Some params =>
      let G := gravity (input_grav_angle_deg args) in
      emit (Print (MsgGravity (input_grav_angle_deg args) (vec_x G) (vec_y G) (vec_z G))) ;;;
      let iteration_step := step_size params in
      let* w := setup fs args params G in
      match compute_out_steps iteration_step with
      | None => stop (Undefined "conversion of out_steps to unsigned int")
      | Some out_steps =>
          let phase := select_phase args params w in
          emit (Print (MsgMasses chassis_mass wheel_mass)) ;;;
          emit (Print (MsgWeight
                  (r_abs (r_mul (r_add chassis_mass (r_mul (r_lit 4 1) wheel_mass))
                                mars_grav_mag)))) ;;;
          let* run := coupling_loop fuel (output_dir params) iteration_step (snd phase)
                        out_steps Ieee.fzero 0 (fst phase) in
          (if run_mode args =? SETTLING
           then emit (WriteFile (checkpoint_file_base args)
                                (SetOutputMode CSV (gpu_sys (fst run))))
           else ret tt) ;;;
          emit (Print MsgTime) ;;;
          ret (0, snd run)
      end
  end.

End Program.

(* ===================================================================== *)
(** * Notions the properties are stated with                              *)
(* ===================================================================== *)

(** The motion [ApplyMeshMotion] is given for a body. *)
Definition motion_of {T} (b : ChBody T) : MeshMotion T :=
  mkMotion (body_pos b) (body_rot b) (body_pos_dt b) (body_wvel b).

(** Body handles of a world are sound: they point into the system, and
    the wheels are distinct bodies, none of them the chassis. [main]
    builds such a world. *)
Definition world_ok {T P X Y} (w : World T P X Y) : Prop :=
  (chassis_body w < length (sys_bodies (rover_sys w)))%nat
  /\ Forall (fun h => (h < length (sys_bodies (rover_sys w)))%nat) (wheel_bodies w)
  /\ NoDup (wheel_bodies w)
  /\ chassis_body w ∉ wheel_bodies w.

(** The chassis as the program's flag describes it: while
    [chassis_fixed] is set, the body is fixed in the rigid system. *)
Definition chassis_held {T P X Y} (w : World T P X Y) : Prop :=
  chassis_fixed w = true ->
  body_fixed <$> sys_bodies (rover_sys w) !! chassis_body w = Some true.

(** The terrain system has one mesh per wheel, in the order of the
    wheels; [main] loads them so. *)
Definition meshes_match {T P X Y} (w : World T P X Y) : Prop :=
  length (gpu_meshes (gpu_sys w)) = length (wheel_bodies w).


#[export] Instance world_ok_dec {T P X Y} (w : World T P X Y) : Decision (world_ok w).
Proof. unfold world_ok. apply _. Defined.

#[export] Instance meshes_match_dec {T P X Y} (w : World T P X Y)
  : Decision (meshes_match w).
Proof. unfold meshes_match. apply _. Defined.

#[export] Instance chassis_held_dec {T P X Y} (w : World T P X Y)
  : Decision (chassis_held w).
Proof. unfold chassis_held. apply _. Defined.

(** Reading the outcome of a run: whether it ran to its end, and the
    turns of the loop it made (none when it did not). *)
Definition completed {E A} (r : list E * Result A) : bool :=
  match snd r with
  | Done _ => true
  | _ => false
  end.

Definition steps_of {E W S} (r : list E * Result (W * list S)) : list S :=
  match snd r with
  | Done (_, steps) => steps
  | _ => []
  end.

Definition world_of {E W} (d : W) (r : list E * Result W) : W :=
  match snd r with
  | Done w => w
  | _ => d
  end.

(** The body behind a handle. *)
Definition body_at {T P X Y} (w : World T P X Y) (handle : nat) : option (ChBody T) :=
  sys_bodies (rover_sys w) !! handle.

Section RunsOfTheLoop.
Context {T P X Y : Type} {RT : Real T} {TS : TerrainSolver T P X}
  {RS : RigidSolver T Y}.

(** [s] records one turn of the loop body. *)
Definition is_step (dir : string) (h : Ieee.double) (out_steps : Z)
  (s : StepRecord T P X Y) : Prop :=
  exists tr tr',
    loop_body dir h out_steps (sr_t s) (sr_curr_step s) (sr_begin s) tr
    = (tr', Done s).

(** Consecutive turns: each begins in the world the one before it left,
    at the next time and step number. *)
Inductive run_from (dir : string) (h : Ieee.double) (out_steps : Z)
  : World T P X Y -> Ieee.float -> Z -> list (StepRecord T P X Y) -> Prop :=
| run_nil w t cs : run_from dir h out_steps w t cs []
| run_cons w t cs s rest :
    is_step dir h out_steps s ->
    sr_begin s = w -> sr_t s = t -> sr_curr_step s = cs ->
    run_from dir h out_steps (sr_end s) (next_time t h) (next_step cs) rest ->
    run_from dir h out_steps w t cs (s :: rest).

End RunsOfTheLoop.

(** Some mesh of the terrain system holds the motion [m]. *)
Definition holds_motion {T P X} (g : ChSystemGpuMesh T P X) (m : MeshMotion T) : Prop :=
  exists j mesh, gpu_meshes g !! j = Some mesh /\ mesh_motion mesh = Some m.

(** The push of step 1 as the claim words it: every wheel, and the
    chassis once it is free, has its motion in some mesh when the solvers
    are advanced. *)
Definition pushes_every_coupled_body {T P X Y} (s : StepRecord T P X Y) : Prop :=
  (forall i handle b,
      wheel_bodies (sr_entry s) !! i = Some handle ->
      body_at (sr_entry s) handle = Some b ->
      holds_motion (sr_pushed s) (motion_of b))
  /\ (chassis_fixed (sr_entry s) = false ->
      forall b, body_at (sr_entry s) (chassis_body (sr_entry s)) = Some b ->
                holds_motion (sr_pushed s) (motion_of b)).

(** A frame is recorded at exactly the steps whose number is a multiple
    of [n] (for step numbers in the range of [curr_step]). *)
Definition frames_every {T P X Y} (n : Z) (steps : list (StepRecord T P X Y)) : Prop :=
  forall k s, steps !! k = Some s -> Z.of_nat k < 2 ^ 32 ->
              (is_Some (sr_frame s) <-> Z.of_nat k mod n = 0).

(** [round(1 / (out_fps * h))] as the spec words the cadence: the exact
    quotient, rounded to the nearest integer. *)
Definition rounded_out_steps (h : Ieee.double) : option Z :=
  match Ieee.to_Q h with
  | Some q => Some (Qfloor (1 / (inject_Z out_fps * q) + (1 # 2))%Q)
  | None => None
  end.

(** The integer truncation of the exact quotient [1 / p]. *)
Definition truncated_inverse (p : Ieee.double) : option Z :=
  match Ieee.to_Q p with
  | Some P => Some (Qfloor (1 / P))
  | None => None
  end.

(** [2^-31] as a [double]. *)
Definition two_pow_minus_31 : Ieee.double := S754_finite false 4503599627370496 (-83).


(** ** Printed numbers, piece by piece *)

(** Every character of a string satisfies [P]. *)
Fixpoint all_chars (P : ascii -> Prop) (s : string) : Prop :=
  match s with
  | EmptyString => True
  | String c r => P c /\ all_chars P r
  end.


(** A field of a line: a string without a comma. *)
Definition no_comma (s : string) : Prop := all_chars (fun c => c <> ","%char) s.

(** A line of three fields. *)
Definition line_of_fields (f : string * string * string) : string :=
  (fst (fst f) ++ "," ++ snd (fst f) ++ "," ++ snd f)%string.

Definition fields_no_comma (f : string * string * string) : Prop :=
  no_comma (fst (fst f)) /\ no_comma (snd (fst f)) /\ no_comma (snd f).

(** What [parse_point] makes of a line; it has no effect of its own. *)
Definition point_of_line (line : string) : Result (ChVector Ieee.float) :=
  snd (parse_point (E := unit) line []).

Definition line_parses (line : string) : bool :=
  match point_of_line line with
  | Done _ => true
  | _ => false
  end.

(** One turn of the inner loop on a line with a comma, and on a line
    without. *)
Definition field_result (tok rest : string) : Result (Ieee.float * string) :=
  match stof tok with
  | Done v => Done (v, rest)
  | Exit n => Exit n
  | Throw s => Throw s
  | Undefined s => Undefined s
  | Unmodelled s => Unmodelled s
  | OutOfFuel => OutOfFuel
  end.

(** Whether the first wheel, after the solvers' first advance, is at a
    finite position. *)
Definition first_wheel_finite {P X Y : Type}
  (steps : list (StepRecord Ieee.double P X Y)) (wheels : list nat) : bool :=
  match steps !! 0%nat with
  | Some s =>
      match wheels !! 0%nat with
      | Some handle =>
          match body_at (sr_advanced s) handle with
          | Some b => finite_b (vec_x (body_pos b)) && finite_b (vec_y (body_pos b))
                      && finite_b (vec_z (body_pos b))
          | None => true
          end
      | None => true
      end
  | None => true
  end.





(** ** Reading a trace *)

(** The paths of the files a trace writes, in the order of the writes. *)
Definition written_paths {T G} (tr : list (IO T G)) : list string :=
  omap (fun e => match e with
                 | WriteFile p _ | WriteMeshFile p _ => Some p
                 | _ => None
                 end) tr.

(** The solver steps of a trace: which solver, by which step size. *)
Definition advances {T G} (tr : list (IO T G)) : list (Solver * Ieee.double) :=
  omap (fun e => match e with
                 | Advance who h => Some (who, h)
                 | _ => None
                 end) tr.

(** The two files of frame number [n]. *)
Definition frame_files (dir : string) (n : Z) : list string :=
  [ (dir ++ "/step" ++ pad6 n)%string;
    ((dir ++ "/step" ++ pad6 n) ++ "_meshframes.csv")%string ].

(** The files of [count] consecutive frames from number [first] on. *)
Definition frame_paths (dir : string) (first : Z) (count : nat) : list string :=
  flat_map (fun j => frame_files dir (first + Z.of_nat j)) (seq 0 count).

(** The turns of a run that recorded a frame. *)
Definition recorded_frames {T P X Y} (steps : list (StepRecord T P X Y)) : nat :=
  length (filter (fun s => is_Some (sr_frame s)) steps).

(** The row of the mesh-frame file for a body: its position raised by
    the terrain height offset, and its three axes, normalised. *)
Definition row_of {T} `{Real T} (offset : T) (name : string) (scaling : ChVector T)
  (b : ChBody T) : MeshFrameRow T :=
  mkRow name
        (Vadd (body_pos b) (mkVec r_zero r_zero offset))
        (Vdiv (GetXaxis (body_rot b)) (Length (GetXaxis (body_rot b))))
        (Vdiv (GetYaxis (body_rot b)) (Length (GetYaxis (body_rot b))))
        (Vdiv (GetZaxis (body_rot b)) (Length (GetZaxis (body_rot b))))
        scaling.

(** The directories a trace creates, in order. *)
Definition created_directories {T G} (tr : list (IO T G)) : list string :=
  omap (fun e => match e with
                 | CreateDirectory p => Some p
                 | _ => None
                 end) tr.

Section Prelude.
Context {T P X : Type} {RT : Real T} {LM : Libm T}.

Local Abbreviation Eff := (IO T (ChSystemGpuMesh T P X)).

(** What [main] prints before the loop in a SETTLING run. *)
Definition settling_prelude (args : Args T P) (params : Params T P) : list Eff :=
  [Print (MsgGravity (input_grav_angle_deg args)
            (vec_x (gravity (input_grav_angle_deg args)))
            (vec_y (gravity (input_grav_angle_deg args)))
            (vec_z (gravity (input_grav_angle_deg args))))]
  ++ repeat (Print (MsgInertia wheel_inertia_x wheel_inertia_y wheel_inertia_z)) 6
  ++ [CreateDirectory "../";
      CreateDirectory ("../" ++ output_dir params);
      Print (MsgSoupFamilies 6); Print (MsgRenderingAt out_fps);
      Print (MsgMasses chassis_mass wheel_mass);
      Print (MsgWeight (r_abs (r_mul (r_add chassis_mass (r_mul (r_lit 4 1) wheel_mass))
                                     mars_grav_mag)))].

End Prelude.

(* ===================================================================== *)
(** * Reference solvers and inputs                                        *)
(* ===================================================================== *)

(** Simple solvers with which the program runs on concrete inputs. The
    terrain stays at rest and presses on mesh [i] with a force and a
    torque that depend on [i]. One rigid solver is frozen: it moves
    nothing. The other, on binary64, knows no joints: it moves every free
    body by one explicit Euler step under gravity and the accumulated
    force, and leaves fixed bodies alone. *)
Module Reference.

Definition D : Type := Ieee.double.

(** A body at rest at the origin with the orientation [q]. *)
Definition body_turned {T} `{Real T} (q : ChQuaternion T) : ChBody T :=
  mkBody r_one (mkVec r_one r_one r_one) VNULL q VNULL VNULL VNULL VNULL false.

Definition contact_load {T} `{Real T} (i : nat) : ChVector T * ChVector T :=
  (mkVec r_zero r_zero (r_lit (1000 * (Z.of_nat i + 1)) 1),
   mkVec (r_lit (Z.of_nat i + 1) 1) r_zero r_zero).

Definition still_terrain {T} `{Real T} : TerrainSolver T unit unit := {|
  gpu_state_new := tt;
  AdvanceSimulation g _ := g;
  CollectMeshContactForces _ i := contact_load i;
  GetMaxParticleZ _ := r_lit 125 10;
  PDLayerSampler_BOX _ _ _ _ := [mkVec Ieee.fzero Ieee.fzero (Ieee.flit 125 10)]
|}.

Definition frozen_rigid {T} : RigidSolver T unit := {|
  sys_state_new := tt;
  DoStepDynamics s _ := s
|}.

Definition Vscale (s : D) (v : ChVector D) : ChVector D :=
  mkVec (Ieee.dmul s (vec_x v)) (Ieee.dmul s (vec_y v)) (Ieee.dmul s (vec_z v)).

Definition euler_body (G : ChVector D) (h : Ieee.double) (b : ChBody D) : ChBody D :=
  if body_fixed b then b
  else
    let a := Vadd G (Vdiv (Force_acc b) (body_mass b)) in
    let v := Vadd (body_pos_dt b) (Vscale h a) in
    mkBody (body_mass b) (body_inertia b) (Vadd (body_pos b) (Vscale h v))
           (body_rot b) v (body_wvel b) (Force_acc b) (Torque_acc b) false.

Definition euler_rigid : RigidSolver D unit := {|
  sys_state_new := tt;
  DoStepDynamics s h :=
    mkSys (sys_G_acc s) (map (euler_body (sys_G_acc s) h) (sys_bodies s))
          (sys_links s) (sys_state s)
|}.

(** [0.005] and [0.003] as the JSON parser stores them in a [float]
    field, widened; and [0.03] as a [double]. *)
Definition h_0_005 : Ieee.double := Ieee.f2d (Ieee.flit 5 1000).
Definition h_0_003 : Ieee.double := Ieee.f2d (Ieee.flit 3 1000).
Definition h_0_03 : Ieee.double := Ieee.dlit 3 100.

Definition demo_params {T} `{Real T} (h : Ieee.double) : Params T unit :=
  mkParams (r_lit 1 1) (r_lit 25 10) (r_lit 100 1) (r_lit 100 1)
           (r_lit 50 1) h (Ieee.dlit 2 1) tt "out" CSV QUIET.

Definition demo_args {T} `{Real T} (mode : Z) (h : Ieee.double) : Args T unit :=
  mkArgs 5 "rovertest" (Some (demo_params h)) mode "settled" r_zero.

Definition no_files : FileSystem := fun _ => None.

(** Gravity at angle zero, on binary64. *)
Definition demo_gravity : ChVector D :=
  mkVec Ieee.dzero Ieee.dzero (Ieee.d_of_Z (-370)).

Definition Eff : Type := IO D (ChSystemGpuMesh D unit unit).

(** A SETTLING run from [setup] to the end of the coupling loop, on
    binary64 with the Euler solver. *)
Definition settling_world (h : Ieee.double) : Run Eff (World D unit unit unit) :=
  let* w := setup (TS := still_terrain) (RS := euler_rigid) no_files
                  (demo_args SETTLING h) (demo_params h) demo_gravity in
  ret (fst (select_phase (demo_args SETTLING h) (demo_params h) w)).

Definition settling_run (fuel : nat) (h : Ieee.double)
  : Run Eff (World D unit unit unit * list (StepRecord D unit unit unit)) :=
  let* w := settling_world h in
  match compute_out_steps h with
  | Some out_steps =>
      coupling_loop (TS := still_terrain) (RS := euler_rigid) fuel "out" h
                    time_settling out_steps Ieee.fzero 0 w
  | None => stop (Undefined "conversion of out_steps to unsigned int")
  end.

(** The same run, as a world and a loop. *)
Definition empty_world {T} `{Real T} : World T unit unit unit :=
  mkWorld (mkGpu r_zero r_zero VNULL [] VNULL [] true CSV [] false tt)
          (mkSys VNULL [] [] tt) 0%nat [] r_zero true 0.

Definition h_0_02 : Ieee.double := Ieee.f2d (Ieee.flit 2 100).

Definition demo_world (h : Ieee.double) : World D unit unit unit :=
  world_of empty_world (settling_world h []).

Definition demo_loop (fuel : nat) (h : Ieee.double)
  : list Eff * Result (World D unit unit unit * list (StepRecord D unit unit unit)) :=
  coupling_loop (TS := still_terrain) (RS := euler_rigid) fuel "out" h
                time_settling (default 0 (compute_out_steps h)) Ieee.fzero 0
                (demo_world h) [].

(** On the real numbers, with the frozen rigid solver: the world [main]
    sets up at gravity angle zero, and the first turns of its loop. *)
Definition ideal_world : World R unit unit unit :=
  world_of empty_world
    (setup (TS := still_terrain) (RS := frozen_rigid) no_files
           (demo_args SETTLING h_0_005) (demo_params h_0_005)
           (gravity (input_grav_angle_deg (demo_args (T := R) SETTLING h_0_005))) []).

Definition ideal_loop (fuel : nat)
  : list (IO R (ChSystemGpuMesh R unit unit))
    * Result (World R unit unit unit * list (StepRecord R unit unit unit)) :=
  coupling_loop (TS := still_terrain) (RS := frozen_rigid) fuel "out" h_0_005
                (Ieee.dlit 1 100) 4 Ieee.fzero 0 ideal_world [].

(** A writer's choice of number format: fixed notation with six decimals,
    as [printf("%f")] prints. *)
Definition digit_of (n : Z) : digit :=
  match n with
  | 0 => Dg0 | 1 => Dg1 | 2 => Dg2 | 3 => Dg3 | 4 => Dg4
  | 5 => Dg5 | 6 => Dg6 | 7 => Dg7 | 8 => Dg8 | _ => Dg9
  end.

Fixpoint digits_of (fuel : nat) (n : Z) (acc : list digit) : list digit :=
  match fuel with
  | O => acc
  | S fuel' =>
      if n <? 10 then digit_of n :: acc
      else digits_of fuel' (n / 10) (digit_of (n mod 10) :: acc)
  end.

Definition micro_units (m : positive) (e : Z) : Z :=
  match e with
  | Zneg k => (Zpos m * 1000000 + 2 ^ (Zpos k - 1)) / 2 ^ Zpos k
  | _ => Zpos m * 2 ^ e * 1000000
  end.

Definition fixed6 (x : Ieee.float) : Numeral :=
  match x with
  | S754_finite s m e =>
      let u := micro_units m e in
      let ip := digits_of 60 (u / 1000000) [] in
      let fp := digits_of 7 (1000000 + u mod 1000000) [] in
      mkNumeral s (hd Dg0 ip, tl ip) (tl fp) None
  | S754_zero s => mkNumeral s (Dg0, []) [Dg0; Dg0; Dg0; Dg0; Dg0; Dg0] None
  | _ => mkNumeral false (Dg0, []) [] None
  end.

Definition demo_points : list (ChVector Ieee.float) :=
  [ mkVec (Ieee.flit (-15) 10) (Ieee.flit 225 100) (Ieee.flit 1 10) ].

Definition checkpoint_on_disk : FileSystem :=
  fun path => if String.eqb path "settled.csv"
              then Some (write_checkpoint fixed6 demo_points) else None.

End Reference.

(* ===================================================================== *)
(** * Properties                                                          *)
(* ===================================================================== *)

(** ** Computations in [Run] *)

Lemma bind_Done {E A B} (m : Run E A) (k : A -> Run E B) tr tr' b :
  bind m k tr = (tr', Done b) ->
  exists a tr1, m tr = (tr1, Done a) /\ k a tr1 = (tr', Done b).
Proof.
  unfold bind. destruct (m tr) as [tr1 [a | | | | | ]]; intros Hk; try discriminate.
  eauto.
Qed.

Lemma bind_step {E A B} (m : Run E A) (k : A -> Run E B) tr tr1 a :
  m tr = (tr1, Done a) -> bind m k tr = k a tr1.
Proof. unfold bind. intros ->. reflexivity. Qed.

Lemma mapM_Done_length {E A B} (f : A -> Run E B) l tr tr' bs :
  mapM f l tr = (tr', Done bs) -> length bs = length l.
Proof.
  revert tr tr' bs. induction l as [| a l IH]; intros tr tr' bs Hm; simpl in Hm.
  - inversion Hm. reflexivity.
  - apply bind_Done in Hm as (b & tr1 & _ & Hm).
    apply bind_Done in Hm as (bs' & tr2 & Hl & Hm).
    inversion Hm; subst. simpl. f_equal. eauto.
Qed.

(** ** Building the rover *)

Section BuildRover.
Context {T P X Y : Type} {RT : Real T} {TS : TerrainSolver T P X}
  {RS : RigidSolver T Y}.


End BuildRover.

(** ** Gravity *)

Section Gravity.
Context {P X Y : Type} {TS : TerrainSolver R P X} {RS : RigidSolver R Y}.


End Gravity.

(** ** The frame recorder *)

Section FrameRow.
Context {T P X : Type} {RT : Real T}.

(** The recorder prints the orientation and returns one row. *)
Lemma writeMeshFrames_row (offset : T) (body : ChBody T) (name : string)
  (scaling : ChVector T) (tr : list (IO T (ChSystemGpuMesh T P X))) :
  writeMeshFrames offset body name scaling tr
  = (tr ++ [Print (MsgRot (body_rot body))],
     Done (mkRow name
             (Vadd (body_pos body) (mkVec r_zero r_zero offset))
             (Vdiv (GetXaxis (body_rot body)) (Length (GetXaxis (body_rot body))))
             (Vdiv (GetYaxis (body_rot body)) (Length (GetYaxis (body_rot body))))
             (Vdiv (GetZaxis (body_rot body)) (Length (GetZaxis (body_rot body))))
             scaling)).
Proof. reflexivity. Qed.

End FrameRow.

Section FrameRecorder.
Context {P X : Type}.
Local Open Scope R_scope.

Lemma R_lits : (2 / 1 = 2) /\ (1 / 1 = 1) /\ (0 / 1 = 0).
Proof. repeat split; lra. Qed.

Ltac unit_quaternion q H :=
  destruct q as [a b c d];
  unfold Length2_q, Vdot, GetXaxis, GetYaxis, GetZaxis, r_two, r_one in *;
  simpl in *;
  destruct R_lits as (-> & -> & _);
  nsatz.

Lemma Xaxis_unit (q : ChQuaternion R) :
  Length2_q q = 1 -> Vdot (GetXaxis q) (GetXaxis q) = 1.
Proof. intros H. unit_quaternion q H. Qed.

Lemma Yaxis_unit (q : ChQuaternion R) :
  Length2_q q = 1 -> Vdot (GetYaxis q) (GetYaxis q) = 1.
Proof. intros H. unit_quaternion q H. Qed.

Lemma Zaxis_unit (q : ChQuaternion R) :
  Length2_q q = 1 -> Vdot (GetZaxis q) (GetZaxis q) = 1.
Proof. intros H. unit_quaternion q H. Qed.

Lemma XYaxis_orthogonal (q : ChQuaternion R) :
  Length2_q q = 1 -> Vdot (GetXaxis q) (GetYaxis q) = 0.
Proof. intros H. unit_quaternion q H. Qed.

Lemma YZaxis_orthogonal (q : ChQuaternion R) :
  Length2_q q = 1 -> Vdot (GetYaxis q) (GetZaxis q) = 0.
Proof. intros H. unit_quaternion q H. Qed.

Lemma ZXaxis_orthogonal (q : ChQuaternion R) :
  Length2_q q = 1 -> Vdot (GetZaxis q) (GetXaxis q) = 0.
Proof. intros H. unit_quaternion q H. Qed.

Ltac rotated_axis q H :=
  destruct q as [a b c d];
  unfold Length2_q, Rotate, Qcross, Qconj, GetXaxis, GetYaxis, GetZaxis,
    r_two, r_one, r_zero in *;
  simpl in *;
  destruct R_lits as (-> & -> & ->);
  f_equal; nsatz.

(** On unit quaternions, Chrono's closed forms are the coordinate axes
    rotated by the quaternion. *)
Lemma Rotate_unit_X (q : ChQuaternion R) :
  Length2_q q = 1 -> GetXaxis q = Rotate q (mkVec 1 0 0).
Proof. intros H. rotated_axis q H. Qed.

Lemma Rotate_unit_Y (q : ChQuaternion R) :
  Length2_q q = 1 -> GetYaxis q = Rotate q (mkVec 0 1 0).
Proof. intros H. rotated_axis q H. Qed.

Lemma Rotate_unit_Z (q : ChQuaternion R) :
  Length2_q q = 1 -> GetZaxis q = Rotate q (mkVec 0 0 1).
Proof. intros H. rotated_axis q H. Qed.

Lemma Length_of_unit (v : ChVector R) : Vdot v v = 1 -> Length v = 1.
Proof. unfold Length; simpl. intros ->. apply sqrt_1. Qed.

Lemma Vdiv_by_one (v : ChVector R) : Vdiv v 1 = v.
Proof. destruct v as [x y z]. unfold Vdiv; simpl. f_equal; lra. Qed.

Lemma normalize_unit (v : ChVector R) : Vdot v v = 1 -> Vdiv v (Length v) = v.
Proof. intros Hv. rewrite (Length_of_unit v Hv). apply Vdiv_by_one. Qed.

Lemma Vdot_self_nonneg (v : ChVector R) : 0 <= Vdot v v.
Proof. destruct v as [x y z]. unfold Vdot; simpl. nra. Qed.

(** A vector that is not zero, divided by its length, has length one. *)
Lemma normalize_length (v : ChVector R) :
  Length v <> 0 -> Length (Vdiv v (Length v)) = 1.
Proof.
  intros Hl. assert (Hsq : Length v * Length v = Vdot v v).
  { unfold Length; simpl. apply sqrt_sqrt, Vdot_self_nonneg. }
  assert (Hd : Vdot (Vdiv v (Length v)) (Vdiv v (Length v)) = 1).
  { destruct v as [x y z]. unfold Length, Vdiv, Vdot in *; simpl in *.
    set (l := sqrt _) in *. field_simplify_eq; [| exact Hl]. lra. }
  unfold Length at 1. rewrite Hd. exact sqrt_1.
Qed.

(** C8. The row the frame recorder emits holds the three axis vectors of
    the body orientation [q] (Chrono's closed forms), each divided by its
    own length, for every orientation. Each of the three whose axis
    vector is not zero has length one. When [q] is a unit quaternion,
    the three axis vectors already have length one, so no normalisation
    divides by zero, and the three vectors of the row are the coordinate
    axes rotated by [q], mutually orthogonal. (Arithmetic on real
    numbers.) *)
Theorem mesh_frame_basis_normalised (offset : R) (body : ChBody R)
  (name : string) (scaling : ChVector R)
  (tr : list (IO R (ChSystemGpuMesh R P X))) :
  exists row,
    writeMeshFrames offset body name scaling tr
    = (tr ++ [Print (MsgRot (body_rot body))], Done row)
    /\ row_vx row = Vdiv (GetXaxis (body_rot body)) (Length (GetXaxis (body_rot body)))
    /\ row_vy row = Vdiv (GetYaxis (body_rot body)) (Length (GetYaxis (body_rot body)))
    /\ row_vz row = Vdiv (GetZaxis (body_rot body)) (Length (GetZaxis (body_rot body)))
    /\ (Length (GetXaxis (body_rot body)) <> 0 -> Length (row_vx row) = 1)
    /\ (Length (GetYaxis (body_rot body)) <> 0 -> Length (row_vy row) = 1)
    /\ (Length (GetZaxis (body_rot body)) <> 0 -> Length (row_vz row) = 1)
    /\ (Length2_q (body_rot body) = 1 ->
        Length (GetXaxis (body_rot body)) = 1
        /\ Length (GetYaxis (body_rot body)) = 1
        /\ Length (GetZaxis (body_rot body)) = 1
        /\ row_vx row = Rotate (body_rot body) (mkVec 1 0 0)
        /\ row_vy row = Rotate (body_rot body) (mkVec 0 1 0)
        /\ row_vz row = Rotate (body_rot body) (mkVec 0 0 1)
        /\ Length (row_vx row) = 1 /\ Length (row_vy row) = 1
        /\ Length (row_vz row) = 1
        /\ Vdot (row_vx row) (row_vy row) = 0
        /\ Vdot (row_vy row) (row_vz row) = 0
        /\ Vdot (row_vz row) (row_vx row) = 0).
Proof.
  eexists. split; [apply writeMeshFrames_row |].
  cbn [row_vx row_vy row_vz].
  split; [reflexivity |]. split; [reflexivity |]. split; [reflexivity |].
  split; [apply normalize_length |]. split; [apply normalize_length |].
  split; [apply normalize_length |].
  intros Hq.
  pose proof (Xaxis_unit _ Hq) as Hx.
  pose proof (Yaxis_unit _ Hq) as Hy.
  pose proof (Zaxis_unit _ Hq) as Hz.
  rewrite !normalize_unit by assumption.
  rewrite !Length_of_unit by assumption.
  repeat split; auto using XYaxis_orthogonal, YZaxis_orthogonal, ZXaxis_orthogonal,
    Rotate_unit_X, Rotate_unit_Y, Rotate_unit_Z.
Qed.

End FrameRecorder.

Lemma turned_axes :
  GetXaxis (mkQuat (3 / 5) (4 / 5) 0 0)%R = (mkVec 1 0 0)%R
  /\ GetYaxis (mkQuat (3 / 5) (4 / 5) 0 0)%R = (mkVec 0 (- 7 / 25) (24 / 25))%R
  /\ GetZaxis (mkQuat (3 / 5) (4 / 5) 0 0)%R = (mkVec 0 (- 24 / 25) (- 7 / 25))%R.
Proof.
  unfold GetXaxis, GetYaxis, GetZaxis, r_two, r_one; simpl.
  repeat split; f_equal; lra.
Qed.

Lemma mesh_frame_basis_witness :
  Length2_q (mkQuat (3 / 5) (4 / 5) 0 0)%R = 1%R
  /\ exists row,
       writeMeshFrames (T := R) (P := unit) (X := unit) 0%R
         (Reference.body_turned (mkQuat (3 / 5) (4 / 5) 0 0)%R) "chassis" chassis_scaling []
       = ([Print (MsgRot (mkQuat (3 / 5) (4 / 5) 0 0)%R)], Done row)
       /\ row_vx row = (mkVec 1 0 0)%R
       /\ row_vy row = (mkVec 0 (- 7 / 25) (24 / 25))%R
       /\ row_vz row = (mkVec 0 (- 24 / 25) (- 7 / 25))%R
       /\ Length (row_vx row) = 1%R /\ Length (row_vy row) = 1%R
       /\ Length (row_vz row) = 1%R
       /\ Vdot (row_vx row) (row_vy row) = 0%R
       /\ Vdot (row_vy row) (row_vz row) = 0%R
       /\ Vdot (row_vz row) (row_vx row) = 0%R.
Proof.
  assert (Hq : Length2_q (mkQuat (3 / 5) (4 / 5) 0 0)%R = 1%R).
  { unfold Length2_q; simpl. lra. }
  split; [exact Hq |].
  destruct (mesh_frame_basis_normalised (P := unit) (X := unit) 0%R
              (Reference.body_turned (mkQuat (3 / 5) (4 / 5) 0 0)%R) "chassis" chassis_scaling [])
    as (row & Hrow & Hx & Hy & Hz & _ & _ & _ & Hunit).
  destruct (Hunit Hq) as (Lx & Ly & Lz & _ & _ & _ & Ux & Uy & Uz & Oxy & Oyz & Ozx).
  destruct turned_axes as (Ax & Ay & Az).
  exists row. split; [exact Hrow |].
  cbn [Reference.body_turned body_rot] in Hx, Hy, Hz, Lx, Ly, Lz.
  rewrite Lx, Ax, Vdiv_by_one in Hx. rewrite Ly, Ay, Vdiv_by_one in Hy.
  rewrite Lz, Az, Vdiv_by_one in Hz.
  repeat split; assumption.
Defined.

(** The claim as worded ("for any input body orientation") fails on the
    code. For the orientation [(1/2, 1/2, 0, 0)] the X axis vector is
    zero and its normalisation divides by zero: on real numbers the row
    holds a vector of length zero, on binary64 it holds three NaN. With
    the orientation [(1, 1, 1, 0)] the first two vectors of the row are
    not orthogonal. *)
Lemma mesh_frame_basis_not_for_every_orientation :
  (exists row,
      writeMeshFrames (T := R) (P := unit) (X := unit) 0%R
        (Reference.body_turned (mkQuat (1 / 2) (1 / 2) 0 0)%R) "chassis" chassis_scaling []
      = ([Print (MsgRot (mkQuat (1 / 2) (1 / 2) 0 0)%R)], Done row)
      /\ Length (GetXaxis (mkQuat (1 / 2) (1 / 2) 0 0)%R) = 0%R
      /\ Length (row_vx row) = 0%R)
  /\ (exists row,
        snd (writeMeshFrames (T := Ieee.double) (P := unit) (X := unit) Ieee.dzero
               (Reference.body_turned (mkQuat (Ieee.dlit 1 2) (Ieee.dlit 1 2) Ieee.dzero Ieee.dzero))
               "chassis" chassis_scaling [])
        = Done row
        /\ Length (GetXaxis (mkQuat (Ieee.dlit 1 2) (Ieee.dlit 1 2) Ieee.dzero Ieee.dzero))
           = S754_zero false
        /\ row_vx row = mkVec S754_nan S754_nan S754_nan)
  /\ (exists row,
        writeMeshFrames (T := R) (P := unit) (X := unit) 0%R
          (Reference.body_turned (mkQuat 1 1 1 0)%R) "chassis" chassis_scaling []
        = ([Print (MsgRot (mkQuat 1 1 1 0)%R)], Done row)
        /\ Vdot (row_vx row) (row_vy row) <> 0%R).
Proof.
  assert (Hzero : GetXaxis (mkQuat (1 / 2) (1 / 2) 0 0)%R = (mkVec 0 0 0)%R).
  { unfold GetXaxis, r_two, r_one; simpl. f_equal; lra. }
  assert (Hlen : Length ((mkVec 0 0 0)%R) = 0%R).
  { unfold Length, Vdot; simpl.
    replace (0 * 0 + 0 * 0 + 0 * 0)%R with 0%R by lra. apply sqrt_0. }
  split; [| split].
  - eexists. split; [exact (writeMeshFrames_row _ _ _ _ []) |].
    cbn [row_vx Reference.body_turned body_rot]. rewrite Hzero, Hlen.
    split; [reflexivity |].
    unfold Vdiv; simpl. unfold Rdiv. rewrite Rmult_0_l. exact Hlen.
  - eexists. split; [vm_compute; reflexivity |].
    split; vm_compute; reflexivity.
  - eexists. split; [exact (writeMeshFrames_row _ _ _ _ []) |].
    cbn [row_vx row_vy Reference.body_turned body_rot].
    assert (Hx : GetXaxis (mkQuat 1 1 1 0)%R = (mkVec 3 2 (- 2))%R).
    { unfold GetXaxis, r_two, r_one; simpl. f_equal; lra. }
    assert (Hy : GetYaxis (mkQuat 1 1 1 0)%R = (mkVec 2 3 2)%R).
    { unfold GetYaxis, r_two, r_one; simpl. f_equal; lra. }
    rewrite Hx, Hy.
    assert (Lx : (0 < Length ((mkVec 3 2 (- 2))%R))%R).
    { unfold Length, Vdot; simpl. apply sqrt_lt_R0. lra. }
    assert (Ly : (0 < Length ((mkVec 2 3 2)%R))%R).
    { unfold Length, Vdot; simpl. apply sqrt_lt_R0. lra. }
    set (lx := Length ((mkVec 3 2 (- 2))%R)) in *.
    set (ly := Length ((mkVec 2 3 2)%R)) in *.
    unfold Vdiv, Vdot; simpl.
    intros H.
    assert (E : (3 / lx * (2 / ly) + 2 / lx * (3 / ly) + - 2 / lx * (2 / ly)
                 = 8 / (lx * ly))%R) by (field; split; lra).
    rewrite E in H.
    assert (0 < 8 / (lx * ly))%R.
    { apply Rdiv_lt_0_compat; [lra | nra]. }
    lra.
Qed.


(** ** Startup *)

Section Startup.
Context {T P X Y : Type} {RT : Real T} {TS : TerrainSolver T P X}
  {RS : RigidSolver T Y} {LM : Libm T}.

(** C7. A TESTING run whose checkpoint file cannot be opened prints the
    gravity line and the checkpoint error, and exits with status 1: no
    solver has been advanced, no directory or file has been created, and
    nothing is tried in place of the missing file. *)
Theorem unreadable_checkpoint_is_fatal (fuel : nat) (fs : FileSystem)
  (args : Args T P) (params : Params T P) :
  argc args = 5 ->
  parsed_json args = Some params ->
  run_mode args = TESTING ->
  fs (checkpoint_file_base args ++ ".csv")%string = None ->
  exists tr,
    main fuel fs args [] = (tr, Exit 1)
    /\ last tr = Some (Print MsgCheckpointError)
    /\ Forall (fun e => is_advance e = false /\ is_fs_effect e = false) tr.
Proof.
  intros Hargc Hjson Hmode Hfs.
  exists [Print (MsgGravity (input_grav_angle_deg args)
                   (vec_x (gravity (input_grav_angle_deg args)))
                   (vec_y (gravity (input_grav_angle_deg args)))
                   (vec_z (gravity (input_grav_angle_deg args))));
          Print MsgCheckpointError].
  split.
  - unfold main, setup, initial_particles, loadCheckpointFile.
    rewrite Hargc, Hjson, Hmode, Hfs. reflexivity.
  - split; [reflexivity |]. repeat constructor.
Qed.

End Startup.

Lemma unreadable_checkpoint_witness :
  exists tr,
    main (T := R) (TS := Reference.still_terrain) (RS := Reference.frozen_rigid)
         10 Reference.no_files (Reference.demo_args TESTING Reference.h_0_005) []
    = (tr, Exit 1)
    /\ last tr = Some (Print MsgCheckpointError)
    /\ Forall (fun e => is_advance e = false /\ is_fs_effect e = false) tr.
Proof.
  apply (unreadable_checkpoint_is_fatal (T := R) 10 Reference.no_files
           (Reference.demo_args TESTING Reference.h_0_005)
           (Reference.demo_params Reference.h_0_005));
    reflexivity.
Defined.

(** ** The phases of the loop body *)

Section LoopPhases.
Context {T P X Y : Type} {RT : Real T} {TS : TerrainSolver T P X}
  {RS : RigidSolver T Y}.

Local Abbreviation Eff := (IO T (ChSystemGpuMesh T P X)).

Lemma get_body_Done (s : ChSystemNSC T Y) handle (tr tr' : list Eff) b :
  get_body s handle tr = (tr', Done b) ->
  tr' = tr /\ sys_bodies s !! handle = Some b.
Proof.
  unfold get_body. destruct (sys_bodies s !! handle) as [b' |]; cbn.
  - intros [= -> ->]. auto.
  - discriminate.
Qed.

Lemma get_body_Some (s : ChSystemNSC T Y) handle (tr : list Eff) b :
  sys_bodies s !! handle = Some b -> get_body s handle tr = (tr, Done b).
Proof. unfold get_body. intros ->. reflexivity. Qed.

Lemma on_body_length handle f (s : ChSystemNSC T Y) :
  length (sys_bodies (on_body handle f s)) = length (sys_bodies s).
Proof. unfold on_body; cbn. apply length_alter. Qed.

Lemma on_body_lookup handle f (s : ChSystemNSC T Y) :
  sys_bodies (on_body handle f s) !! handle = f <$> sys_bodies s !! handle.
Proof. unfold on_body; cbn. apply list_lookup_alter_eq. Qed.

Lemma on_body_lookup_ne handle handle' f (s : ChSystemNSC T Y) :
  handle <> handle' ->
  sys_bodies (on_body handle f s) !! handle' = sys_bodies s !! handle'.
Proof. unfold on_body; cbn. intros. by apply list_lookup_alter_ne. Qed.

(** *** Pushing the wheels' motion *)

Lemma push_wheel_motion_Done wheels :
  forall i (rover : ChSystemNSC T Y) (g : ChSystemGpuMesh T P X) (tr tr' : list Eff) g',
    push_wheel_motion i wheels rover g tr = (tr', Done g') ->
    tr' = tr
    /\ length (gpu_meshes g') = length (gpu_meshes g)
    /\ (forall j, (j < i)%nat -> gpu_meshes g' !! j = gpu_meshes g !! j)
    /\ (forall k handle,
          wheels !! k = Some handle ->
          exists b, sys_bodies rover !! handle = Some b
                    /\ gpu_meshes g' !! (i + k)%nat
                       = with_motion (motion_of b) <$> gpu_meshes g !! (i + k)%nat).
Proof.
  induction wheels as [| handle rest IH]; intros i rover g tr tr' g' Hp; cbn in Hp.
  - injection Hp as -> ->. repeat split; auto. intros k handle Hk. by destruct k.
  - apply bind_Done in Hp as (b & tr1 & Hb & Hp).
    apply get_body_Done in Hb as [-> Hb].
    apply IH in Hp as (-> & Hlen & Hlow & Hhigh).
    cbn in Hlen, Hlow, Hhigh. rewrite length_alter in Hlen.
    repeat split; auto.
    + intros j Hj. rewrite Hlow by lia. apply list_lookup_alter_ne. lia.
    + intros [| k] handle' Hk; cbn in Hk.
      * injection Hk as <-. exists b. split; [done |].
        rewrite Nat.add_0_r, Hlow by lia. apply list_lookup_alter_eq.
      * destruct (Hhigh k handle' Hk) as (b' & Hb' & Hm).
        exists b'. split; [done |].
        replace (i + S k)%nat with (S i + k)%nat by lia.
        etrans; [exact Hm |]. f_equal. apply list_lookup_alter_ne. lia.
Qed.

Lemma push_wheel_motion_total wheels :
  forall i (rover : ChSystemNSC T Y) (g : ChSystemGpuMesh T P X) (tr : list Eff),
    Forall (fun h => (h < length (sys_bodies rover))%nat) wheels ->
    exists g', push_wheel_motion i wheels rover g tr = (tr, Done g').
Proof.
  induction wheels as [| handle rest IH]; intros i rover g tr Hv; cbn.
  - eauto.
  - apply Forall_cons in Hv as [Hh Hv].
    apply lookup_lt_is_Some_2 in Hh as [b Hb].
    rewrite (bind_step _ _ _ _ _ (get_body_Some _ _ _ _ Hb)). by apply IH.
Qed.

(** *** Collecting the contact forces *)

Lemma collect_wheel_forces_Done wheels :
  forall i (g : ChSystemGpuMesh T P X) (rover : ChSystemNSC T Y) f t
         (tr tr' : list Eff) res,
    collect_wheel_forces i wheels g rover f t tr = (tr', Done res) ->
    NoDup wheels ->
    tr' = tr
    /\ length (sys_bodies (fst res)) = length (sys_bodies rover)
    /\ (forall k handle,
          wheels !! k = Some handle ->
          exists b, sys_bodies rover !! handle = Some b
                    /\ sys_bodies (fst res) !! handle
                       = Some (load_wheel (fst (CollectMeshContactForces g (i + k)%nat))
                                          (snd (CollectMeshContactForces g (i + k)%nat)) b))
    /\ (forall handle, handle ∉ wheels ->
          sys_bodies (fst res) !! handle = sys_bodies rover !! handle).
Proof.
  induction wheels as [| handle rest IH]; intros i g rover f t tr tr' res Hc Hnd;
    cbn in Hc.
  - injection Hc as -> <-. repeat split; auto. intros k handle Hk. by destruct k.
  - apply bind_Done in Hc as (b & tr1 & Hb & Hc).
    apply get_body_Done in Hb as [-> Hb].
    apply NoDup_cons in Hnd as [Hnotin Hnd].
    apply IH in Hc as (-> & Hlen & Hin & Hout); [| done].
    rewrite on_body_length in Hlen.
    repeat split; auto.
    + intros [| k] handle' Hk; cbn in Hk.
      * injection Hk as <-. exists b. split; [done |].
        rewrite Hout by done. rewrite on_body_lookup, Hb, Nat.add_0_r. done.
      * destruct (Hin k handle' Hk) as (b' & Hb' & Hres).
        assert (handle <> handle').
        { intros ->. apply Hnotin. eapply list_elem_of_lookup_2. eauto. }
        rewrite on_body_lookup_ne in Hb' by done.
        exists b'. split; [done |].
        replace (i + S k)%nat with (S i + k)%nat by lia. done.
    + intros handle' Hn. apply not_elem_of_cons in Hn as [Hne Hn].
      rewrite Hout by done. by apply on_body_lookup_ne.
Qed.

Lemma collect_wheel_forces_total wheels :
  forall i (g : ChSystemGpuMesh T P X) (rover : ChSystemNSC T Y) f t (tr : list Eff),
    Forall (fun h => (h < length (sys_bodies rover))%nat) wheels ->
    exists res, collect_wheel_forces i wheels g rover f t tr = (tr, Done res).
Proof.
  induction wheels as [| handle rest IH]; intros i g rover f t tr Hv; cbn.
  - eauto.
  - apply Forall_cons in Hv as [Hh Hv].
    apply lookup_lt_is_Some_2 in Hh as [b Hb].
    rewrite (bind_step _ _ _ _ _ (get_body_Some _ _ _ _ Hb)).
    apply IH. by rewrite on_body_length.
Qed.


(** *** Setting the chassis free *)

Lemma release_chassis_Done t (w : World T P X Y) (tr tr' : list Eff) w1 :
  release_chassis t w tr = (tr', Done w1) ->
  gpu_sys w1 = gpu_sys w
  /\ chassis_body w1 = chassis_body w
  /\ wheel_bodies w1 = wheel_bodies w
  /\ currframe w1 = currframe w
  /\ chassis_fixed w1 = chassis_fixed w && negb (past_settling t)
  /\ (chassis_fixed w && past_settling t = false -> w1 = w /\ tr' = tr)
  /\ (chassis_fixed w && past_settling t = true ->
      rover_sys w1 = on_body (chassis_body w) (SetBodyFixed false) (rover_sys w)
      /\ terrain_height_offset w1
         = r_add (r_float (GetMaxParticleZ (gpu_sys w))) height_offset_chassis_to_bottom
      /\ tr' = tr ++ [Print MsgSettingFree;
                      Print (MsgTerrainMax (r_float (GetMaxParticleZ (gpu_sys w))))]).
Proof.
  unfold release_chassis.
  destruct (chassis_fixed w && past_settling t) eqn:Hb; cbn.
  - intros [= <- <-]. cbn. apply andb_prop in Hb as [-> ->]. cbn.
    repeat split; auto; try discriminate. by rewrite <- app_assoc.
  - intros [= <- <-]. repeat split; auto; try discriminate.
    destruct (chassis_fixed w), (past_settling t); done.
Qed.

Lemma release_chassis_total t (w : World T P X Y) (tr : list Eff) :
  exists tr' w1, release_chassis t w tr = (tr', Done w1).
Proof.
  unfold release_chassis.
  destruct (chassis_fixed w && past_settling t); cbn; eauto.
Qed.

(** *** Recording a frame *)

Lemma frame_rows_Done offset (rover : ChSystemNSC T Y) wheels :
  forall (tr tr' : list Eff) rows,
    mapM (fun handle =>
            let* b := get_body rover handle in
            writeMeshFrames offset b wheel_filename wheel_scaling) wheels tr
    = (tr', Done rows) ->
    length rows = length wheels.
Proof. intros tr tr' rows Hm. by apply mapM_Done_length in Hm. Qed.

Lemma frame_rows_total offset (rover : ChSystemNSC T Y) wheels :
  forall (tr : list Eff),
    Forall (fun h => (h < length (sys_bodies rover))%nat) wheels ->
    exists tr' rows,
      mapM (fun handle =>
              let* b := get_body rover handle in
              writeMeshFrames offset b wheel_filename wheel_scaling) wheels tr
      = (tr', Done rows).
Proof.
  induction wheels as [| handle rest IH]; intros tr Hv; cbn.
  - eauto.
  - apply Forall_cons in Hv as [Hh Hv].
    apply lookup_lt_is_Some_2 in Hh as [b Hb].
    erewrite bind_step;
      [| erewrite bind_step by (by apply get_body_Some);
         apply writeMeshFrames_row].
    destruct (IH (tr ++ [Print (MsgRot (body_rot b))]) Hv) as (tr' & rows & Hrows).
    erewrite bind_step by exact Hrows. cbn. eauto.
Qed.

Lemma record_frame_Done dir f t (w : World T P X Y) (tr tr' : list Eff) res :
  record_frame dir f t w tr = (tr', Done res) ->
  fst res = mkWorld (gpu_sys w) (rover_sys w) (chassis_body w) (wheel_bodies w)
                    (terrain_height_offset w) (chassis_fixed w) (currframe w + 1)
  /\ length (snd res) = S (length (wheel_bodies w)).
Proof.
  unfold record_frame. intros Hr.
  do 5 (apply bind_Done in Hr as (? & ? & _ & Hr)).
  apply bind_Done in Hr as (rows & tr1 & Hrows & Hr).
  do 3 (apply bind_Done in Hr as (? & ? & _ & Hr)).
  injection Hr as _ <-. cbn. split; [done |].
  rewrite length_app; cbn. apply frame_rows_Done in Hrows. lia.
Qed.

Lemma record_frame_total dir f t (w : World T P X Y) (tr : list Eff) :
  world_ok w ->
  (String.length (dir ++ "/step" ++ pad6 (currframe w)) < 100)%nat ->
  exists tr' res, record_frame dir f t w tr = (tr', Done res).
Proof.
  intros (Hc & Hw & _) Hfit. unfold record_frame.
  apply Nat.ltb_lt in Hfit.
  apply lookup_lt_is_Some_2 in Hc as [cb Hcb].
  do 3 (erewrite bind_step by reflexivity).
  erewrite bind_step by (unfold frame_filename; rewrite Hfit; reflexivity).
  erewrite bind_step by reflexivity.
  match goal with
  | |- context [bind (mapM _ _) _ ?t] =>
      destruct (frame_rows_total (terrain_height_offset w) (rover_sys w)
                  (wheel_bodies w) t Hw) as (tr1 & rows & Hrows)
  end.
  erewrite bind_step by exact Hrows.
  erewrite bind_step by (by apply get_body_Some).
  erewrite bind_step by apply writeMeshFrames_row.
  erewrite bind_step by reflexivity.
  eauto.
Qed.

Lemma collect_wheel_forces_silent wheels :
  forall i (g : ChSystemGpuMesh T P X) (rover : ChSystemNSC T Y) f t
         (tr tr' : list Eff) res,
    collect_wheel_forces i wheels g rover f t tr = (tr', Done res) ->
    tr' = tr /\ length (sys_bodies (fst res)) = length (sys_bodies rover).
Proof.
  induction wheels as [| handle rest IH]; intros i g rover f t tr tr' res Hc;
    cbn in Hc.
  - injection Hc as -> <-. auto.
  - apply bind_Done in Hc as (b & tr1 & Hb & Hc).
    apply get_body_Done in Hb as [-> Hb].
    apply IH in Hc as (-> & Hlen). by rewrite on_body_length in Hlen.
Qed.

(** *** One turn of the loop body *)

Lemma loop_body_Done dir h out_steps t cs (w : World T P X Y)
  (tr tr' : list Eff) s :
  loop_body dir h out_steps t cs w tr = (tr', Done s) ->
  exists tr1 c,
    sr_t s = t /\ sr_curr_step s = cs /\ sr_begin s = w
    /\ sr_released s = chassis_fixed w && past_settling t
    /\ release_chassis t w tr = (tr1, Done (sr_entry s))
    /\ push_wheel_motion 0 (wheel_bodies (sr_entry s)) (rover_sys (sr_entry s))
         (gpu_sys (sr_entry s)) tr1 = (tr1, Done (sr_pushed s))
    /\ sr_advanced s
       = with_rover (DoStepDynamics (rover_sys (sr_entry s)) h)
           (with_gpu (AdvanceSimulation (sr_pushed s) h) (sr_entry s))
    /\ collect_wheel_forces 0 (wheel_bodies (sr_entry s))
         (gpu_sys (sr_advanced s)) (rover_sys (sr_advanced s)) VNULL VNULL
         (tr1 ++ [Advance Terrain h; Advance Rigid h])
       = (tr1 ++ [Advance Terrain h; Advance Rigid h], Done c)
    /\ sr_collected s = with_rover (fst c) (sr_advanced s)
    /\ ((cadence_check cs out_steps = Some true
         /\ exists rows,
              record_frame dir (fst (snd c)) (snd (snd c)) (sr_collected s)
                (tr1 ++ [Advance Terrain h; Advance Rigid h])
              = (tr', Done (sr_end s, rows))
              /\ sr_frame s = Some rows)
        \/ (cadence_check cs out_steps = Some false
            /\ sr_end s = sr_collected s /\ sr_frame s = None
            /\ tr' = tr1 ++ [Advance Terrain h; Advance Rigid h])).
Proof.
  unfold loop_body. intros Hb.
  apply bind_Done in Hb as (w1 & tr1 & Hrel & Hb).
  apply bind_Done in Hb as (pushed & tr2 & Hpush & Hb).
  pose proof (push_wheel_motion_Done _ _ _ _ _ _ _ Hpush) as (-> & _).
  apply bind_Done in Hb as ([] & tr3 & [= <-] & Hb).
  apply bind_Done in Hb as ([] & tr4 & [= <-] & Hb).
  apply bind_Done in Hb as (c & tr5 & Hcol & Hb).
  pose proof (collect_wheel_forces_silent _ _ _ _ _ _ _ _ _ Hcol) as (-> & _).
  rewrite <- app_assoc in Hcol, Hb. cbn [app] in Hcol, Hb.
  exists tr1, c.
  destruct (cadence_check cs out_steps) as [[|] |] eqn:Hcad; [| | discriminate].
  - apply bind_Done in Hb as ([wend rows] & tr6 & Hrec & Hb).
    injection Hb as <- <-. cbn.
    repeat split; auto; left; split; [done |]; exists rows; auto.
  - injection Hb as <- <-. cbn.
    repeat split; auto; right; auto.
Qed.

Lemma loop_body_total dir h out_steps t cs (w : World T P X Y) (tr : list Eff) :
  RigidSolverLaws T Y ->
  world_ok w ->
  out_steps <> 0 ->
  (String.length (dir ++ "/step" ++ pad6 (currframe w)) < 100)%nat ->
  exists tr' s, loop_body dir h out_steps t cs w tr = (tr', Done s).
Proof.
  intros Laws Hok Hos Hfit. unfold loop_body.
  destruct (release_chassis_total t w tr) as (tr1 & w1 & Hrel).
  pose proof (release_chassis_Done _ _ _ _ _ Hrel)
    as (Hg & Hc & Hw & Hf & _ & Hsame & Hfree).
  assert (Hlen1 : length (sys_bodies (rover_sys w1)) = length (sys_bodies (rover_sys w))).
  { destruct (chassis_fixed w && past_settling t).
    - destruct (Hfree eq_refl) as (-> & _). apply on_body_length.
    - destruct (Hsame eq_refl) as (-> & _). done. }
  destruct Hok as (Hcok & Hwok & Hnd & Hnotin).
  assert (Hv1 : Forall (fun x => (x < length (sys_bodies (rover_sys w1)))%nat)
                       (wheel_bodies w1)).
  { rewrite Hw, Hlen1. done. }
  erewrite bind_step by exact Hrel.
  destruct (push_wheel_motion_total (wheel_bodies w1) 0 (rover_sys w1) (gpu_sys w1)
              tr1 Hv1) as (pushed & Hpush).
  erewrite bind_step by exact Hpush.
  do 2 (erewrite bind_step by reflexivity).
  match goal with
  | |- context [bind (collect_wheel_forces 0 ?ws ?g ?r ?f0 ?t0) _ ?tr0] =>
      destruct (collect_wheel_forces_total ws 0 g r f0 t0 tr0) as (c & Hcol)
  end.
  { cbn. rewrite step_length. done. }
  erewrite bind_step by exact Hcol.
  pose proof (collect_wheel_forces_silent _ _ _ _ _ _ _ _ _ Hcol) as (_ & Hlen3).
  cbn in Hlen3. rewrite step_length in Hlen3.
  unfold cadence_check. destruct (out_steps =? 0) eqn:H0; [lia |].
  destruct (cs mod out_steps =? 0); [| eauto].
  match goal with
  | |- context [bind (record_frame ?d ?f0 ?t0 ?w0) _ ?tr0] =>
      destruct (record_frame_total d f0 t0 w0 tr0) as (tr6 & res & Hrec)
  end.
  { repeat split; cbn; rewrite ?Hc, ?Hw, ?Hlen3, ?Hlen1; auto. }
  { cbn. by rewrite Hf. }
  erewrite bind_step by exact Hrec. eauto.
Qed.

(** *** What a turn keeps and what it changes *)

Lemma step_worlds dir h out_steps (s : StepRecord T P X Y) :
  is_step dir h out_steps s ->
  exists c,
    sr_released s = chassis_fixed (sr_begin s) && past_settling (sr_t s)
    /\ (exists tr tr1, release_chassis (sr_t s) (sr_begin s) tr = (tr1, Done (sr_entry s)))
    /\ (exists tr1,
          push_wheel_motion 0 (wheel_bodies (sr_entry s)) (rover_sys (sr_entry s))
            (gpu_sys (sr_entry s)) tr1 = (tr1, Done (sr_pushed s)))
    /\ sr_advanced s
       = with_rover (DoStepDynamics (rover_sys (sr_entry s)) h)
           (with_gpu (AdvanceSimulation (sr_pushed s) h) (sr_entry s))
    /\ (exists tr2,
          collect_wheel_forces 0 (wheel_bodies (sr_entry s))
            (gpu_sys (sr_advanced s)) (rover_sys (sr_advanced s)) VNULL VNULL tr2
          = (tr2, Done c))
    /\ sr_collected s = with_rover (fst c) (sr_advanced s)
    /\ (exists n,
          cadence_check (sr_curr_step s) out_steps = Some (bool_decide (is_Some (sr_frame s)))
          /\ (n = 0 \/ n = 1)
          /\ (n = 1 <-> is_Some (sr_frame s))
          /\ (forall rows, sr_frame s = Some rows ->
                           length rows = S (length (wheel_bodies (sr_entry s))))
          /\ sr_end s
             = mkWorld (gpu_sys (sr_collected s)) (rover_sys (sr_collected s))
                 (chassis_body (sr_collected s)) (wheel_bodies (sr_collected s))
                 (terrain_height_offset (sr_collected s))
                 (chassis_fixed (sr_collected s)) (currframe (sr_collected s) + n)).
Proof.
  intros (tr & tr' & Hb).
  apply loop_body_Done in Hb
    as (tr1 & c & _ & _ & _ & Hrel & Hr & Hp & Ha & Hc & Hcol & Hend).
  exists c. repeat split; eauto.
  destruct Hend as [(Hcad & rows & Hrec & Hf) | (Hcad & He & Hf & _)].
  - apply record_frame_Done in Hrec as [Hw Hn]. cbn in Hw, Hn.
    exists 1. rewrite Hf, Hcad.
    split; [done |]. split; [auto |]. split; [done |]. split; [| done].
    intros rows' [= <-]. rewrite Hcol, Ha in Hn. done.
  - exists 0. rewrite Hf, Hcad, He.
    split; [done |]. split; [auto |]. split.
    { split; [done |]. by intros [? [=]]. }
    split; [done |].
    destruct (sr_collected s); cbn. by rewrite Z.add_0_r.
Qed.

Lemma step_keeps_handles dir h out_steps (s : StepRecord T P X Y) :
  is_step dir h out_steps s ->
  chassis_body (sr_entry s) = chassis_body (sr_begin s)
  /\ wheel_bodies (sr_entry s) = wheel_bodies (sr_begin s)
  /\ chassis_body (sr_advanced s) = chassis_body (sr_begin s)
  /\ wheel_bodies (sr_advanced s) = wheel_bodies (sr_begin s)
  /\ chassis_body (sr_collected s) = chassis_body (sr_begin s)
  /\ wheel_bodies (sr_collected s) = wheel_bodies (sr_begin s)
  /\ chassis_body (sr_end s) = chassis_body (sr_begin s)
  /\ wheel_bodies (sr_end s) = wheel_bodies (sr_begin s).
Proof.
  intros Hs. destruct (step_worlds _ _ _ _ Hs)
    as (c & _ & (tr & tr1 & Hr) & _ & Ha & _ & Hcol & (n & _ & _ & _ & _ & He)).
  apply release_chassis_Done in Hr as (_ & Hc & Hw & _).
  rewrite He, Hcol, Ha. cbn. auto 10.
Qed.

Lemma step_keeps_lengths dir h out_steps (s : StepRecord T P X Y) :
  RigidSolverLaws T Y ->
  is_step dir h out_steps s ->
  length (sys_bodies (rover_sys (sr_entry s))) = length (sys_bodies (rover_sys (sr_begin s)))
  /\ length (sys_bodies (rover_sys (sr_advanced s)))
     = length (sys_bodies (rover_sys (sr_begin s)))
  /\ length (sys_bodies (rover_sys (sr_collected s)))
     = length (sys_bodies (rover_sys (sr_begin s)))
  /\ length (sys_bodies (rover_sys (sr_end s)))
     = length (sys_bodies (rover_sys (sr_begin s))).
Proof.
  intros Laws Hs. destruct (step_worlds _ _ _ _ Hs)
    as (c & _ & (tr & tr1 & Hr) & _ & Ha & (tr2 & Hc) & Hcol
        & (n & _ & _ & _ & _ & He)).
  assert (H1 : length (sys_bodies (rover_sys (sr_entry s)))
               = length (sys_bodies (rover_sys (sr_begin s)))).
  { apply release_chassis_Done in Hr as (_ & _ & _ & _ & _ & Hsame & Hfree).
    destruct (chassis_fixed (sr_begin s) && past_settling (sr_t s)).
    - destruct (Hfree eq_refl) as (-> & _). apply on_body_length.
    - destruct (Hsame eq_refl) as (-> & _). done. }
  apply collect_wheel_forces_silent in Hc as (_ & Hl).
  rewrite He, Hcol. cbn. rewrite Hl, Ha. cbn. rewrite step_length. auto.
Qed.

Lemma world_ok_transfer (w w' : World T P X Y) :
  chassis_body w' = chassis_body w ->
  wheel_bodies w' = wheel_bodies w ->
  length (sys_bodies (rover_sys w')) = length (sys_bodies (rover_sys w)) ->
  world_ok w -> world_ok w'.
Proof. unfold world_ok. intros -> -> ->. done. Qed.

Lemma step_world_ok dir h out_steps (s : StepRecord T P X Y) :
  RigidSolverLaws T Y ->
  is_step dir h out_steps s ->
  world_ok (sr_begin s) ->
  world_ok (sr_entry s) /\ world_ok (sr_advanced s)
  /\ world_ok (sr_collected s) /\ world_ok (sr_end s).
Proof.
  intros Laws Hs Hok.
  destruct (step_keeps_handles _ _ _ _ Hs) as (? & ? & ? & ? & ? & ? & ? & ?).
  destruct (step_keeps_lengths _ _ _ _ Laws Hs) as (? & ? & ? & ?).
  repeat split; eapply world_ok_transfer; eauto.
Qed.

(** *** Runs of the loop *)

Lemma loop_times_S fuel t h time_end :
  loop_times (S fuel) t h time_end
  = if loop_continues t time_end
    then t :: loop_times fuel (next_time t h) h time_end else [].
Proof. reflexivity. Qed.

Lemma coupling_loop_Done dir h time_end out_steps fuel :
  forall t cs (w : World T P X Y) (tr tr' : list Eff) w' steps,
    coupling_loop fuel dir h time_end out_steps t cs w tr = (tr', Done (w', steps)) ->
    run_from dir h out_steps w t cs steps
    /\ map sr_t steps = loop_times fuel t h time_end
    /\ loop_times (S fuel) t h time_end = loop_times fuel t h time_end.
Proof.
  induction fuel as [| fuel IH]; intros t cs w tr tr' w' steps Hl; cbn in Hl.
  - destruct (loop_continues t time_end) eqn:Hc; [discriminate |].
    injection Hl as _ _ <-. cbn. rewrite Hc. repeat split; constructor.
  - rewrite (loop_times_S fuel t), (loop_times_S (S fuel) t).
    destruct (loop_continues t time_end) eqn:Hc.
    + apply bind_Done in Hl as (s & tr1 & Hs & Hl).
      apply bind_Done in Hl as ([w2 rest] & tr2 & Hrest & Hl).
      injection Hl as _ _ <-. cbn [map snd].
      pose proof (loop_body_Done _ _ _ _ _ _ _ _ _ Hs) as (? & ? & Ht & Hcs & Hw & _).
      apply IH in Hrest as (Hrun & Htimes & Hstop).
      rewrite Ht, Htimes, Hstop. repeat split; auto.
      econstructor; eauto. exists tr, tr1. by rewrite Ht, Hcs, Hw.
    + injection Hl as _ _ <-. repeat split; constructor.
Qed.

Lemma run_from_steps dir h out_steps (w : World T P X Y) t cs steps :
  RigidSolverLaws T Y ->
  run_from dir h out_steps w t cs steps ->
  world_ok w ->
  Forall (fun s => is_step dir h out_steps s /\ world_ok (sr_begin s)) steps.
Proof.
  intros Laws Hrun. induction Hrun as [| w t cs s rest Hs Hw Ht Hcs Hrun IH];
    intros Hok; constructor.
  - subst w. auto.
  - apply IH. subst w. by apply (step_world_ok _ _ _ _ Laws Hs).
Qed.


Lemma run_from_curr_step dir h out_steps (w : World T P X Y) t cs steps :
  run_from dir h out_steps w t cs steps ->
  0 <= cs < 2 ^ 32 ->
  forall k s, steps !! k = Some s ->
    sr_curr_step s = (cs + Z.of_nat k) mod 2 ^ 32.
Proof.
  intros Hrun. induction Hrun as [| w t cs s0 rest Hs Hw Ht Hcs Hrun IH];
    intros Hrange k s Hk; [done |].
  destruct k as [| k]; cbn in Hk.
  - injection Hk as <-. rewrite Hcs, Z.add_0_r, Z.mod_small; done.
  - rewrite (IH ltac:(unfold next_step; apply Z.mod_pos_bound; lia) k s Hk).
    unfold next_step. rewrite Zplus_mod_idemp_l. f_equal. lia.
Qed.

Lemma completed_loop fuel dir h time_end out_steps t cs (w : World T P X Y)
  (tr : list Eff) :
  completed (coupling_loop fuel dir h time_end out_steps t cs w tr) = true ->
  exists tr' w',
    coupling_loop fuel dir h time_end out_steps t cs w tr
    = (tr', Done (w', steps_of (coupling_loop fuel dir h time_end out_steps t cs w tr))).
Proof.
  unfold completed, steps_of.
  destruct (coupling_loop fuel dir h time_end out_steps t cs w tr)
    as [tr' [[w' steps] | | | | |]]; cbn; try discriminate. eauto.
Qed.

Lemma run_from_invariants dir h out_steps (w : World T P X Y) t cs steps :
  RigidSolverLaws T Y ->
  run_from dir h out_steps w t cs steps ->
  world_ok w ->
  Forall (fun s => is_step dir h out_steps s /\ world_ok (sr_begin s)
                   /\ wheel_bodies (sr_begin s) = wheel_bodies w
                   /\ chassis_body (sr_begin s) = chassis_body w) steps.
Proof.
  intros Laws Hrun. induction Hrun as [| w t cs s rest Hs Hw Ht Hcs Hrun IH];
    intros Hok; constructor.
  - subst w. auto.
  - subst w.
    destruct (step_keeps_handles _ _ _ _ Hs) as (_ & _ & _ & _ & _ & _ & Hc & Hwh).
    eapply Forall_impl; [apply IH; by apply (step_world_ok _ _ _ _ Laws Hs) |].
    cbn. intros s' (? & ? & -> & ->). auto.
Qed.

Lemma run_from_meshes dir h out_steps (w : World T P X Y) t cs steps :
  TerrainSolverLaws T P X ->
  run_from dir h out_steps w t cs steps ->
  meshes_match w ->
  Forall (fun s => meshes_match (sr_begin s)) steps.
Proof.
  intros Laws Hrun. induction Hrun as [| w t cs s rest Hs Hw Ht Hcs Hrun IH];
    intros Hm; constructor.
  - by subst w.
  - apply IH. subst w. unfold meshes_match in *.
    destruct (step_keeps_handles _ _ _ _ Hs) as (_ & _ & _ & _ & _ & _ & _ & ->).
    destruct (step_worlds _ _ _ _ Hs)
      as (c & _ & (tr & tr1 & Hr) & (tr2 & Hp) & Ha & _ & Hcol
          & (n & _ & _ & _ & _ & He)).
    rewrite He, Hcol, Ha. cbn. rewrite advance_meshes.
    apply push_wheel_motion_Done in Hp as (_ & -> & _).
    apply release_chassis_Done in Hr as (-> & _). done.
Qed.

(** *** The force accumulators *)

Section Accumulators.
Context {NT : NumberEq T} {Laws : RealLaws T}.

Lemma cross_of_zero (a b f g : T) :
  r_same a r_zero -> r_same b r_zero -> r_finite f -> r_finite g ->
  r_same (r_sub (r_mul a f) (r_mul b g)) r_zero.
Proof. intros Ha Hb Hf Hg. apply r_sub_0_0; apply r_mul_0_l; assumption. Qed.

(** Clearing, then one force at the body's own position and one torque,
    leaves that force and that torque: the force has no moment about the
    point it is applied at. The force accumulator is [0 + f]; the torque
    accumulator is [(0 + (p - p) x f) + t], which is [t] when the
    position [p] and the force [f] are finite. *)
Lemma load_wheel_accumulators f t (b : ChBody T) :
  Vsame (Force_acc (load_wheel f t b)) f
  /\ (Vfinite (body_pos b) -> Vfinite f -> Vsame (Torque_acc (load_wheel f t b)) t).
Proof.
  unfold load_wheel, Accumulate_torque, Accumulate_force,
    Empty_forces_accumulators, with_accumulators; cbn.
  split.
  - unfold Vsame, Vadd, VNULL; cbn.
    repeat split; apply r_add_0_l, r_same_refl.
  - intros (Px & Py & Pz) (Fx & Fy & Fz).
    pose proof (r_sub_diag _ Px) as Dx. pose proof (r_sub_diag _ Py) as Dy.
    pose proof (r_sub_diag _ Pz) as Dz.
    unfold Vsame, Vadd, Vcross, Vsub, VNULL; cbn.
    repeat split; apply r_add_0_l;
      (eapply r_same_trans; [apply r_add_0_l, r_same_refl |]);
      apply cross_of_zero; assumption.
Qed.

End Accumulators.

(** C1. A run of the coupling loop makes one turn per time of its
    header, and at every turn and for every wheel [i]: after the
    force-collection phase the wheel's body is the body the rigid solver
    left, with its accumulators cleared once and then loaded with the
    force (at the body's position) and the torque collected from mesh
    [i]; its force accumulator is that force and, the body position and
    the force being finite, its torque accumulator is that torque, as
    numbers; and the body is still so at the end of the turn. This holds
    on the real numbers and on binary64, where [0 + x] is [x] but for
    the sign of a zero. *)
Theorem forces_collected_each_step {NT : NumberEq T} `{!RealLaws T}
  `{!RigidSolverLaws T Y}
  fuel dir h time_end out_steps t cs (w : World T P X Y) (tr : list Eff) :
  world_ok w ->
  completed (coupling_loop fuel dir h time_end out_steps t cs w tr) = true ->
  map sr_t (steps_of (coupling_loop fuel dir h time_end out_steps t cs w tr))
  = loop_times fuel t h time_end
  /\ forall k s i handle,
       steps_of (coupling_loop fuel dir h time_end out_steps t cs w tr) !! k = Some s ->
       wheel_bodies w !! i = Some handle ->
       exists b0 b,
         body_at (sr_advanced s) handle = Some b0
         /\ body_at (sr_collected s) handle = Some b
         /\ b = Accumulate_torque
                  (snd (CollectMeshContactForces (gpu_sys (sr_advanced s)) i))
                  (Accumulate_force
                     (fst (CollectMeshContactForces (gpu_sys (sr_advanced s)) i))
                     (body_pos b0) (Empty_forces_accumulators b0))
         /\ Vsame (Force_acc b) (fst (CollectMeshContactForces (gpu_sys (sr_advanced s)) i))
         /\ (Vfinite (body_pos b0) ->
             Vfinite (fst (CollectMeshContactForces (gpu_sys (sr_advanced s)) i)) ->
             Vsame (Torque_acc b)
                   (snd (CollectMeshContactForces (gpu_sys (sr_advanced s)) i)))
         /\ body_at (sr_end s) handle = Some b.
Proof.
  intros Hok Hdone.
  apply completed_loop in Hdone as (tr' & w' & Hloop).
  apply coupling_loop_Done in Hloop as (Hrun & Htimes & _).
  split; [exact Htimes |].
  intros k s i handle Hk Hi.
  pose proof (run_from_invariants _ _ _ _ _ _ _ _ Hrun Hok) as Hall.
  rewrite Forall_lookup in Hall.
  destruct (Hall k s Hk) as (Hs & Hoks & Hwh & _).
  destruct (step_keeps_handles _ _ _ _ Hs) as (_ & Hwe & _).
  destruct (step_world_ok _ _ _ _ _ Hs Hoks) as (_ & _ & _ & _).
  destruct (step_worlds _ _ _ _ Hs)
    as (c & _ & _ & _ & Ha & (tr2 & Hc) & Hcol & (n & _ & _ & _ & _ & He)).
  destruct Hoks as (_ & _ & Hnd & _).
  rewrite Hwe, Hwh in Hc.
  apply collect_wheel_forces_Done in Hc as (_ & _ & Hin & _); [| by rewrite <- Hwh].
  destruct (Hin i handle Hi) as (b0 & Hb0 & Hb).
  exists b0, (load_wheel (fst (CollectMeshContactForces (gpu_sys (sr_advanced s)) i))
                         (snd (CollectMeshContactForces (gpu_sys (sr_advanced s)) i)) b0).
  unfold body_at. rewrite He, Hcol. cbn [rover_sys with_rover].
  split; [done |]. split; [done |]. split; [reflexivity |].
  destruct (load_wheel_accumulators
              (fst (CollectMeshContactForces (gpu_sys (sr_advanced s)) i))
              (snd (CollectMeshContactForces (gpu_sys (sr_advanced s)) i)) b0).
  auto.
Qed.

(** C2, as the code has it. At every step and for every wheel [i], the
    wheel's position, orientation, linear and angular velocity are in
    mesh [i] of the terrain system that is advanced, and both solvers are
    advanced from the state after this push. The terrain system has one
    mesh per wheel and none for the chassis. *)
Theorem wheels_pushed_before_advance `{!RigidSolverLaws T Y}
  `{!TerrainSolverLaws T P X}
  fuel dir h time_end out_steps t cs (w : World T P X Y) (tr : list Eff) :
  world_ok w ->
  meshes_match w ->
  completed (coupling_loop fuel dir h time_end out_steps t cs w tr) = true ->
  forall k s,
    steps_of (coupling_loop fuel dir h time_end out_steps t cs w tr) !! k = Some s ->
    (forall i handle,
        wheel_bodies w !! i = Some handle ->
        exists b m,
          body_at (sr_entry s) handle = Some b
          /\ gpu_meshes (sr_pushed s) !! i = Some m
          /\ mesh_motion m = Some (motion_of b))
    /\ sr_advanced s
       = with_rover (DoStepDynamics (rover_sys (sr_entry s)) h)
           (with_gpu (AdvanceSimulation (sr_pushed s) h) (sr_entry s))
    /\ length (gpu_meshes (sr_pushed s)) = length (wheel_bodies w).
Proof.
  intros Hok Hmm Hdone k s Hk.
  apply completed_loop in Hdone as (tr' & w' & Hloop).
  apply coupling_loop_Done in Hloop as (Hrun & _).
  pose proof (run_from_invariants _ _ _ _ _ _ _ _ Hrun Hok) as Hall.
  pose proof (run_from_meshes _ _ _ _ _ _ _ _ Hrun Hmm) as Hmeshes.
  rewrite Forall_lookup in Hall, Hmeshes.
  destruct (Hall k s Hk) as (Hs & Hoks & Hwh & _).
  specialize (Hmeshes k s Hk). unfold meshes_match in Hmeshes.
  destruct (step_keeps_handles _ _ _ _ Hs) as (_ & Hwe & _).
  destruct (step_worlds _ _ _ _ Hs)
    as (c & _ & (tr0 & tr1 & Hr) & (tr2 & Hp) & Ha & _).
  apply release_chassis_Done in Hr as (Hg & _).
  apply push_wheel_motion_Done in Hp as (_ & Hlen & _ & Hpush).
  rewrite Hg in Hlen, Hpush. rewrite Hwe, Hwh in Hpush.
  split; [| split; [done | by rewrite Hlen, Hmeshes, Hwh]].
  intros i handle Hi.
  destruct (Hpush i handle Hi) as (b & Hb & Hm). cbn in Hm.
  assert (Hlt : (i < length (gpu_meshes (gpu_sys (sr_begin s))))%nat).
  { rewrite Hmeshes, Hwh. eapply lookup_lt_Some. eauto. }
  apply lookup_lt_is_Some_2 in Hlt as [m0 Hm0]. rewrite Hm0 in Hm.
  exists b, (with_motion (motion_of b) m0). auto.
Qed.

(** *** The chassis through one turn *)





(** *** The chassis along a run *)







(** *** The output cadence *)

(** C5, as the code has it. With [out_steps] the value the program
    computes, [1 / (out_fps * h)] truncated to an [unsigned int], and that
    value positive: a frame is recorded at exactly the steps whose number
    is a multiple of [out_steps], and it holds one row per wheel and one
    for the chassis. *)
Theorem frames_at_multiples_of_out_steps
  fuel dir h time_end out_steps t (w : World T P X Y) (tr : list Eff) :
  compute_out_steps h = Some out_steps ->
  0 < out_steps ->
  completed (coupling_loop fuel dir h time_end out_steps t 0 w tr) = true ->
  frames_every out_steps
    (steps_of (coupling_loop fuel dir h time_end out_steps t 0 w tr))
  /\ forall k s rows,
       steps_of (coupling_loop fuel dir h time_end out_steps t 0 w tr) !! k = Some s ->
       sr_frame s = Some rows ->
       length rows = S (length (wheel_bodies (sr_entry s))).
Proof.
  intros _ Hpos Hdone.
  apply completed_loop in Hdone as (tr' & w' & Hloop).
  apply coupling_loop_Done in Hloop as (Hrun & _).
  set (steps := steps_of (coupling_loop fuel dir h time_end out_steps t 0 w tr)) in *.
  assert (Hsteps : forall k s, steps !! k = Some s -> is_step dir h out_steps s).
  { clear -Hrun. induction Hrun as [| w t cs s0 rest Hs Hw Ht Hcs Hrun IH];
      intros k s Hk; [done |].
    destruct k as [| k]; cbn in Hk; [by injection Hk as <- | eauto]. }
  split.
  - intros k s Hk Hrange.
    pose proof (run_from_curr_step _ _ _ _ _ _ _ Hrun ltac:(lia) k s Hk) as Hcs.
    rewrite Z.add_0_l, Z.mod_small in Hcs by lia.
    destruct (step_worlds _ _ _ _ (Hsteps k s Hk))
      as (c & _ & _ & _ & _ & _ & _ & (n & Hcad & _)).
    unfold cadence_check in Hcad. rewrite Hcs in Hcad.
    destruct (out_steps =? 0) eqn:H0; [lia |].
    injection Hcad as Hcad.
    rewrite <- Z.eqb_eq, Hcad, bool_decide_eq_true. done.
  - intros k s rows Hk Hf.
    destruct (step_worlds _ _ _ _ (Hsteps k s Hk))
      as (c & _ & _ & _ & _ & _ & _ & (n & _ & _ & _ & Hrows & _)).
    by apply Hrows.
Qed.

(** *** The loop runs to its end *)

Lemma string_length_append (a b : string) :
  String.length (a ++ b) = (String.length a + String.length b)%nat.
Proof. induction a as [| c a IH]; cbn; [done | by rewrite IH]. Qed.

Lemma pad6_length (n : Z) : 0 <= n < 1000 -> String.length (pad6 n) = 6%nat.
Proof.
  intros Hn.
  assert (Hall : forallb (fun k => (String.length (pad6 (Z.of_nat k)) =? 6)%nat)
                         (List.seq 0 1000) = true) by (vm_compute; reflexivity).
  rewrite forallb_forall in Hall.
  specialize (Hall (Z.to_nat n)). rewrite Z2Nat.id in Hall by lia.
  apply Nat.eqb_eq, Hall, in_seq. lia.
Qed.

Lemma frame_filename_fits dir n :
  (String.length dir <= 88)%nat -> 0 <= n < 1000 ->
  (String.length (dir ++ "/step" ++ pad6 n) < 100)%nat.
Proof.
  intros Hd Hn. rewrite !string_length_append, pad6_length by done. cbn. lia.
Qed.

Lemma step_currframe dir h out_steps (s : StepRecord T P X Y) :
  is_step dir h out_steps s ->
  currframe (sr_begin s) <= currframe (sr_end s) <= currframe (sr_begin s) + 1.
Proof.
  intros Hs. destruct (step_worlds _ _ _ _ Hs)
    as (c & _ & (tr & tr1 & Hr) & _ & Ha & _ & Hcol & (n & _ & Hn & _ & _ & He)).
  apply release_chassis_Done in Hr as (_ & _ & _ & Hf & _).
  rewrite He, Hcol, Ha. cbn. lia.
Qed.

Lemma coupling_loop_total dir h time_end out_steps :
  RigidSolverLaws T Y ->
  out_steps <> 0 ->
  (String.length dir <= 88)%nat ->
  forall fuel t cs (w : World T P X Y) (tr : list Eff),
    world_ok w ->
    0 <= currframe w ->
    currframe w + Z.of_nat fuel < 1000 ->
    loop_times (S fuel) t h time_end = loop_times fuel t h time_end ->
    completed (coupling_loop fuel dir h time_end out_steps t cs w tr) = true.
Proof.
  intros Laws Hos Hdir.
  induction fuel as [| fuel IH]; intros t cs w tr Hok Hf0 Hf Hstop.
  - cbn in Hstop |- *. destruct (loop_continues t time_end); done.
  - rewrite (loop_times_S (S fuel) t), (loop_times_S fuel t) in Hstop.
    cbn [coupling_loop].
    destruct (loop_continues t time_end); [| done].
    injection Hstop as Hstop.
    destruct (loop_body_total dir h out_steps t cs w tr Laws Hok Hos) as (tr1 & s & Hs).
    { apply frame_filename_fits; [done | lia]. }
    erewrite bind_step by exact Hs.
    pose proof (loop_body_Done _ _ _ _ _ _ _ _ _ Hs) as (? & ? & Ht & Hcs & Hw & _).
    assert (Hstep : is_step dir h out_steps s).
    { exists tr, tr1. by rewrite Ht, Hcs, Hw. }
    pose proof (step_currframe _ _ _ _ Hstep) as Hcf. rewrite Hw in Hcf.
    assert (Hoks : world_ok (sr_end s)).
    { apply (step_world_ok _ _ _ _ Laws Hstep). by rewrite Hw. }
    specialize (IH (next_time t h) (next_step cs) (sr_end s) tr1 Hoks
                   ltac:(lia) ltac:(lia) Hstop).
    unfold completed in *. unfold bind.
    destruct (coupling_loop fuel dir h time_end out_steps (next_time t h)
                (next_step cs) (sr_end s) tr1) as [tr2 [[w2 rest] | | | | |]];
      done.
Qed.

(** The number of turns is the number of times of the [for] header. *)
Lemma coupling_loop_length fuel dir h time_end out_steps t cs
  (w : World T P X Y) (tr : list Eff) :
  completed (coupling_loop fuel dir h time_end out_steps t cs w tr) = true ->
  map sr_t (steps_of (coupling_loop fuel dir h time_end out_steps t cs w tr))
  = loop_times fuel t h time_end.
Proof.
  intros Hdone. apply completed_loop in Hdone as (tr' & w' & Hloop).
  by apply coupling_loop_Done in Hloop as (_ & Hm & _).
Qed.

(** C4, what the code does. A SETTLING run at step size 0.005 (as a
    [float] widened, or as a [double]) makes 201 turns of the loop, not
    200: after 200 increments the [float] time is 16777203 * 2^-24, about
    0.9999992, which is still less than 1.0, and the body runs once
    more. *)
Theorem settling_run_takes_201_steps `{!RigidSolverLaws T Y}
  dir h out_steps (w : World T P X Y) (tr : list Eff) :
  h = Reference.h_0_005 \/ h = Ieee.dlit 5 1000 ->
  world_ok w -> currframe w = 0 -> out_steps <> 0 ->
  (String.length dir <= 88)%nat ->
  completed
    (coupling_loop 202 dir h time_settling out_steps Ieee.fzero 0 w tr) = true
  /\ length (steps_of (coupling_loop 202 dir h time_settling out_steps
                         Ieee.fzero 0 w tr)) = 201%nat
  /\ exists s,
       steps_of (coupling_loop 202 dir h time_settling out_steps Ieee.fzero 0 w tr)
         !! 200%nat = Some s
       /\ sr_t s = S754_finite false 16777203 (-24)
       /\ loop_continues (sr_t s) time_settling = true.
Proof.
  intros Hh Hok Hcf Hos Hdir.
  assert (Htimes : loop_times 203 Ieee.fzero h time_settling
                   = loop_times 202 Ieee.fzero h time_settling
                   /\ length (loop_times 202 Ieee.fzero h time_settling) = 201%nat
                   /\ loop_times 202 Ieee.fzero h time_settling !! 200%nat
                      = Some (S754_finite false 16777203 (-24))).
  { destruct Hh as [-> | ->]; vm_compute; repeat split; reflexivity. }
  destruct Htimes as (Hstop & Hlen & Hlast).
  assert (Hdone : completed (coupling_loop 202 dir h time_settling out_steps
                               Ieee.fzero 0 w tr) = true).
  { apply (coupling_loop_total dir h time_settling out_steps _ Hos Hdir 202
             Ieee.fzero 0 w tr Hok); [rewrite Hcf; lia | rewrite Hcf; lia |].
    exact Hstop. }
  pose proof (coupling_loop_length _ _ _ _ _ _ _ _ _ Hdone) as Hmap.
  split; [exact Hdone |]. split.
  - rewrite <- (length_map sr_t), Hmap. exact Hlen.
  - rewrite <- Hmap, list_lookup_fmap in Hlast.
    destruct (steps_of _ !! 200%nat) as [s |]; [| discriminate].
    injection Hlast as Hlast. exists s. rewrite Hlast.
    split; [reflexivity |]. split; [reflexivity |]. vm_compute. reflexivity.
Qed.

End LoopPhases.


(** ** The reference solvers keep the laws *)

Lemma R_RealLaws : RealLaws R.
Proof.
  split; unfold r_zero; cbn.
  - reflexivity.
  - intros x y z -> ->. reflexivity.
  - intros z x ->. lra.
  - intros x _. lra.
  - intros z x -> _. lra.
  - intros y z -> ->. lra.
Qed.

Lemma double_zero : r_zero (T := Ieee.double) = S754_zero false.
Proof. vm_compute. reflexivity. Qed.

Lemma same_as_zero (z : Ieee.double) :
  r_same z (S754_zero false) <-> is_zero z = true.
Proof.
  cbn. split.
  - intros [-> | [Hz _]]; [reflexivity | exact Hz].
  - intros Hz. right. split; [exact Hz | reflexivity].
Qed.

(** binary64 keeps the laws: [0 + x] is [x], or a zero when [x] is one;
    [x - x] and [0 * x] are zeros for a finite [x]. *)
Lemma double_RealLaws : RealLaws Ieee.double.
Proof.
  split; rewrite ?double_zero.
  - intros x. left. reflexivity.
  - intros x y z [-> | [Hx Hy]] [-> | [Hy' Hz]].
    + left. reflexivity.
    + right. split; assumption.
    + right. split; assumption.
    + right. split; assumption.
  - intros z x Hz. apply same_as_zero in Hz.
    destruct z as [sz | | |]; try discriminate Hz.
    destruct x as [sx | sx | | sx mx ex]; cbn.
    + right. destruct sz, sx; split; reflexivity.
    + left. reflexivity.
    + left. reflexivity.
    + left. reflexivity.
  - intros x Hx. apply same_as_zero.
    destruct x as [sx | sx | | sx mx ex]; cbn in Hx |- *; try discriminate Hx.
    + destruct sx; reflexivity.
    + unfold Ieee.dsub, SFsub. rewrite Z.sub_diag. reflexivity.
  - intros z x Hz Hx. apply same_as_zero in Hz. apply same_as_zero.
    destruct z as [sz | | |]; try discriminate Hz.
    destruct x as [sx | sx | | sx mx ex]; cbn in Hx |- *; try discriminate Hx; reflexivity.
  - intros y z Hy Hz. apply same_as_zero in Hy, Hz. apply same_as_zero.
    destruct y as [sy | | |]; try discriminate Hy.
    destruct z as [sz | | |]; try discriminate Hz.
    destruct sy, sz; reflexivity.
Qed.

Lemma frozen_rigid_laws {T : Type} : RigidSolverLaws T unit (RS := Reference.frozen_rigid).
Proof.
  split; cbn; [done | | done].
  intros sys _ i b ->. done.
Qed.

Lemma euler_body_fixed G h (b : ChBody Reference.D) :
  body_fixed (Reference.euler_body G h b) = body_fixed b.
Proof. unfold Reference.euler_body. by destruct (body_fixed b) eqn:Hb. Qed.

Lemma euler_rigid_laws : RigidSolverLaws Reference.D unit (RS := Reference.euler_rigid).
Proof.
  split; cbn.
  - intros sys h. apply length_map.
  - intros sys h i b Hb. rewrite list_lookup_fmap, Hb. cbn.
    by rewrite euler_body_fixed.
  - intros sys h i b Hb Hf. rewrite list_lookup_fmap, Hb. cbn.
    unfold Reference.euler_body. by rewrite Hf.
Qed.

Lemma still_terrain_laws {T : Type} {RT : Real T} :
  TerrainSolverLaws T unit unit (TS := Reference.still_terrain).
Proof. split. done. Qed.

(** ** The properties on the reference runs *)

Lemma wheels_pushed_witness :
  world_ok (Reference.demo_world Reference.h_0_005)
  /\ meshes_match (Reference.demo_world Reference.h_0_005)
  /\ completed
       (coupling_loop (TS := Reference.still_terrain) (RS := Reference.euler_rigid)
          202 "out" Reference.h_0_005 time_settling 4 Ieee.fzero 0
          (Reference.demo_world Reference.h_0_005) []) = true
  /\ forall k s,
       steps_of
         (coupling_loop (TS := Reference.still_terrain) (RS := Reference.euler_rigid)
            202 "out" Reference.h_0_005 time_settling 4 Ieee.fzero 0
            (Reference.demo_world Reference.h_0_005) []) !! k = Some s ->
       (forall i handle,
           wheel_bodies (Reference.demo_world Reference.h_0_005) !! i = Some handle ->
           exists b m,
             body_at (sr_entry s) handle = Some b
             /\ gpu_meshes (sr_pushed s) !! i = Some m
             /\ mesh_motion m = Some (motion_of b))
       /\ sr_advanced s
          = with_rover
              (DoStepDynamics (RigidSolver := Reference.euler_rigid)
                 (rover_sys (sr_entry s)) Reference.h_0_005)
              (with_gpu
                 (AdvanceSimulation (TerrainSolver := Reference.still_terrain)
                    (sr_pushed s) Reference.h_0_005) (sr_entry s))
       /\ length (gpu_meshes (sr_pushed s))
          = length (wheel_bodies (Reference.demo_world Reference.h_0_005)).
Proof.
  assert (Hok : world_ok (Reference.demo_world Reference.h_0_005)).
  { apply (bool_decide_unpack _). vm_compute. exact I. }
  assert (Hmm : meshes_match (Reference.demo_world Reference.h_0_005)).
  { apply (bool_decide_unpack _). vm_compute. exact I. }
  assert (Hdone : completed
       (coupling_loop (TS := Reference.still_terrain) (RS := Reference.euler_rigid)
          202 "out" Reference.h_0_005 time_settling 4 Ieee.fzero 0
          (Reference.demo_world Reference.h_0_005) []) = true).
  { vm_compute. reflexivity. }
  split; [exact Hok |]. split; [exact Hmm |]. split; [exact Hdone |].
  exact (wheels_pushed_before_advance (RigidSolverLaws0 := euler_rigid_laws)
           (TerrainSolverLaws0 := still_terrain_laws)
           (TS := Reference.still_terrain) (RS := Reference.euler_rigid)
           202 "out" Reference.h_0_005 time_settling 4 Ieee.fzero 0
           (Reference.demo_world Reference.h_0_005) [] Hok Hmm Hdone).
Defined.

(** The push as the claim words it fails on the code: in the SETTLING
    run at step size 0.005, at step 150 the chassis is free, and no mesh
    of the terrain system holds its motion. *)
Lemma chassis_motion_is_not_pushed :
  completed (Reference.demo_loop 202 Reference.h_0_005) = true
  /\ exists s,
       steps_of (Reference.demo_loop 202 Reference.h_0_005) !! 150%nat = Some s
       /\ chassis_fixed (sr_entry s) = false
       /\ ~ pushes_every_coupled_body s.
Proof.
  split; [vm_compute; reflexivity |].
  eexists. split; [vm_compute; reflexivity |].
  split; [reflexivity |].
  intros [_ Hchassis].
  specialize (Hchassis eq_refl _ eq_refl) as (j & mesh & Hj & Hm).
  do 6 (destruct j as [| j]; [cbn in Hj; injection Hj as <-; vm_compute in Hm;
                              discriminate Hm |]).
  cbn in Hj. destruct j; discriminate Hj.
Qed.



Lemma demo_settling_world_ok : world_ok (Reference.demo_world Reference.h_0_005).
Proof. apply (bool_decide_unpack _). vm_compute. exact I. Qed.


Lemma demo_settling_completed :
  completed
    (coupling_loop (TS := Reference.still_terrain) (RS := Reference.euler_rigid)
       202 "out" Reference.h_0_005 time_settling 4 Ieee.fzero 0
       (Reference.demo_world Reference.h_0_005) []) = true.
Proof. vm_compute. reflexivity. Qed.





Lemma demo_settling_turns :
  length (loop_times 202 Ieee.fzero Reference.h_0_005 time_settling) = 201%nat.
Proof. vm_compute. reflexivity. Qed.

Lemma demo_settling_first_turn :
  exists s handle,
    steps_of
      (coupling_loop (TS := Reference.still_terrain) (RS := Reference.euler_rigid)
         202 "out" Reference.h_0_005 time_settling 4 Ieee.fzero 0
         (Reference.demo_world Reference.h_0_005) []) !! 0%nat = Some s
    /\ wheel_bodies (Reference.demo_world Reference.h_0_005) !! 0%nat = Some handle.
Proof. eexists _, _. split; vm_compute; reflexivity. Qed.

Lemma finite_b_finite (v : ChVector Ieee.double) :
  finite_b (vec_x v) && finite_b (vec_y v) && finite_b (vec_z v) = true -> Vfinite v.
Proof.
  rewrite !andb_true_iff. unfold Vfinite; cbn. tauto.
Qed.

Lemma first_wheel_finite_sound {P X Y : Type}
  (steps : list (StepRecord Ieee.double P X Y)) (wheels : list nat) s handle b0 :
  first_wheel_finite steps wheels = true ->
  steps !! 0%nat = Some s ->
  wheels !! 0%nat = Some handle ->
  body_at (sr_advanced s) handle = Some b0 ->
  Vfinite (body_pos b0).
Proof.
  unfold first_wheel_finite. intros H Hs Hh Hb.
  unfold Ieee.double in *. rewrite Hs, Hh in H.
  cbn beta iota in H. rewrite Hb in H. exact (finite_b_finite _ H).
Qed.

Lemma demo_settling_first_wheel_finite :
  first_wheel_finite
    (steps_of
       (coupling_loop (TS := Reference.still_terrain) (RS := Reference.euler_rigid)
          202 "out" Reference.h_0_005 time_settling 4 Ieee.fzero 0
          (Reference.demo_world Reference.h_0_005) []))
    (wheel_bodies (Reference.demo_world Reference.h_0_005)) = true.
Proof. vm_compute. reflexivity. Qed.

Lemma first_contact_load_finite :
  Vfinite (fst (Reference.contact_load (T := Ieee.double) 0)).
Proof. apply finite_b_finite. vm_compute. reflexivity. Qed.

Lemma forces_collected_witness :
  world_ok (Reference.demo_world Reference.h_0_005)
  /\ completed
       (coupling_loop (TS := Reference.still_terrain) (RS := Reference.euler_rigid)
          202 "out" Reference.h_0_005 time_settling 4 Ieee.fzero 0
          (Reference.demo_world Reference.h_0_005) []) = true
  /\ length
       (steps_of
          (coupling_loop (TS := Reference.still_terrain) (RS := Reference.euler_rigid)
             202 "out" Reference.h_0_005 time_settling 4 Ieee.fzero 0
             (Reference.demo_world Reference.h_0_005) [])) = 201%nat
  /\ exists s handle b,
       steps_of
         (coupling_loop (TS := Reference.still_terrain) (RS := Reference.euler_rigid)
            202 "out" Reference.h_0_005 time_settling 4 Ieee.fzero 0
            (Reference.demo_world Reference.h_0_005) []) !! 0%nat = Some s
       /\ wheel_bodies (Reference.demo_world Reference.h_0_005) !! 0%nat = Some handle
       /\ body_at (sr_collected s) handle = Some b
       /\ Vsame (Force_acc b) (fst (Reference.contact_load 0))
       /\ Vsame (Torque_acc b) (snd (Reference.contact_load 0))
       /\ body_at (sr_end s) handle = Some b.
Proof.
  split; [exact demo_settling_world_ok |]. split; [exact demo_settling_completed |].
  destruct (forces_collected_each_step (NT := double_NumberEq)
              (RealLaws0 := double_RealLaws) (RigidSolverLaws0 := euler_rigid_laws)
              (TS := Reference.still_terrain) (RS := Reference.euler_rigid)
              202 "out" Reference.h_0_005 time_settling 4 Ieee.fzero 0
              (Reference.demo_world Reference.h_0_005) []
              demo_settling_world_ok demo_settling_completed) as [Htimes Hall].
  split; [rewrite <- (length_map sr_t), Htimes; exact demo_settling_turns |].
  destruct demo_settling_first_turn as (s & handle & Hs & Hh).
  destruct (Hall 0%nat s 0%nat handle Hs Hh) as (b0 & b & Hb0 & Hb & _ & Hf & Ht & Hend).
  pose proof (first_wheel_finite_sound _ _ s handle b0 demo_settling_first_wheel_finite
                Hs Hh Hb0) as Fp.
  exists s, handle, b. split; [exact Hs |]. split; [exact Hh |]. split; [exact Hb |].
  split; [exact Hf |]. split; [exact (Ht Fp first_contact_load_finite) | exact Hend].
Defined.





Lemma settling_201_steps_witness :
  completed
    (coupling_loop (TS := Reference.still_terrain) (RS := Reference.euler_rigid)
       202 "out" Reference.h_0_005 time_settling 4 Ieee.fzero 0
       (Reference.demo_world Reference.h_0_005) []) = true
  /\ length
       (steps_of
          (coupling_loop (TS := Reference.still_terrain) (RS := Reference.euler_rigid)
             202 "out" Reference.h_0_005 time_settling 4 Ieee.fzero 0
             (Reference.demo_world Reference.h_0_005) [])) = 201%nat
  /\ exists s,
       steps_of
         (coupling_loop (TS := Reference.still_terrain) (RS := Reference.euler_rigid)
            202 "out" Reference.h_0_005 time_settling 4 Ieee.fzero 0
            (Reference.demo_world Reference.h_0_005) []) !! 200%nat = Some s
       /\ sr_t s = S754_finite false 16777203 (-24)
       /\ loop_continues (sr_t s) time_settling = true.
Proof.
  apply (settling_run_takes_201_steps (RigidSolverLaws0 := euler_rigid_laws)
           (TS := Reference.still_terrain) (RS := Reference.euler_rigid)
           "out" Reference.h_0_005 4 (Reference.demo_world Reference.h_0_005) []).
  - left. reflexivity.
  - apply (bool_decide_unpack _). vm_compute. exact I.
  - vm_compute. reflexivity.
  - lia.
  - vm_compute. lia.
Defined.

Lemma frames_cadence_witness :
  compute_out_steps Reference.h_0_005 = Some 4
  /\ 0 < 4
  /\ completed
       (coupling_loop (TS := Reference.still_terrain) (RS := Reference.euler_rigid)
          202 "out" Reference.h_0_005 time_settling 4 Ieee.fzero 0
          (Reference.demo_world Reference.h_0_005) []) = true
  /\ frames_every 4
       (steps_of
          (coupling_loop (TS := Reference.still_terrain) (RS := Reference.euler_rigid)
             202 "out" Reference.h_0_005 time_settling 4 Ieee.fzero 0
             (Reference.demo_world Reference.h_0_005) []))
  /\ forall k s rows,
       steps_of
         (coupling_loop (TS := Reference.still_terrain) (RS := Reference.euler_rigid)
            202 "out" Reference.h_0_005 time_settling 4 Ieee.fzero 0
            (Reference.demo_world Reference.h_0_005) []) !! k = Some s ->
       sr_frame s = Some rows ->
       length rows = S (length (wheel_bodies (sr_entry s))).
Proof.
  assert (Hos : compute_out_steps Reference.h_0_005 = Some 4).
  { vm_compute. reflexivity. }
  assert (Hdone : completed
       (coupling_loop (TS := Reference.still_terrain) (RS := Reference.euler_rigid)
          202 "out" Reference.h_0_005 time_settling 4 Ieee.fzero 0
          (Reference.demo_world Reference.h_0_005) []) = true).
  { vm_compute. reflexivity. }
  split; [exact Hos |]. split; [lia |]. split; [exact Hdone |].
  apply (frames_at_multiples_of_out_steps
           (TS := Reference.still_terrain) (RS := Reference.euler_rigid)
           202 "out" Reference.h_0_005 time_settling 4 Ieee.fzero
           (Reference.demo_world Reference.h_0_005) [] Hos ltac:(lia) Hdone).
Defined.

(** The cadence as the claim words it fails on the code: at step size
    0.003 the rounded quotient is 7 while the program's [out_steps] is 6,
    and a frame is recorded at step 6. *)
Lemma frames_not_every_rounded_quotient :
  rounded_out_steps Reference.h_0_003 = Some 7
  /\ compute_out_steps Reference.h_0_003 = Some 6
  /\ completed (Reference.demo_loop 400 Reference.h_0_003) = true
  /\ ~ frames_every 7 (steps_of (Reference.demo_loop 400 Reference.h_0_003)).
Proof.
  split; [vm_compute; reflexivity |]. split; [vm_compute; reflexivity |].
  split; [vm_compute; reflexivity |].
  intros Hall.
  assert (Hs : exists s,
             steps_of (Reference.demo_loop 400 Reference.h_0_003) !! 6%nat = Some s
             /\ is_Some (sr_frame s)).
  { eexists. split; [vm_compute; reflexivity |]. eexists. reflexivity. }
  destruct Hs as (s & Hs & Hf).
  apply (Hall 6%nat s Hs) in Hf; [| vm_compute; reflexivity].
  vm_compute in Hf. discriminate Hf.
Qed.

(* ===================================================================== *)
(** * Checkpoint files: reading back what was written                     *)
(* ===================================================================== *)







(** ** [find], [substr] and [erase] on a line of fields *)

Lemma find_first_comma s r :
  all_chars (fun c => c <> ","%char) s ->
  find (s ++ String "," r) "," = Some (String.length s).
Proof.
  unfold find. induction s as [| c s IH]; cbn [all_chars append String.length].
  - intros _. cbn. destruct r; reflexivity.
  - intros [Hc Hs]. cbn [String.index String.prefix].
    destruct (ascii_dec "," c) as [E | _]; [congruence |].
    rewrite (IH Hs). reflexivity.
Qed.

Lemma find_no_comma s :
  all_chars (fun c => c <> ","%char) s -> find s "," = None.
Proof.
  unfold find. induction s as [| c s IH]; cbn [all_chars].
  - intros _. reflexivity.
  - intros [Hc Hs]. cbn [String.index String.prefix].
    destruct (ascii_dec "," c) as [E | _]; [congruence |].
    rewrite (IH Hs). reflexivity.
Qed.

Lemma substring_prefix s r :
  String.substring 0 (String.length s) (s ++ r) = s.
Proof.
  induction s as [| c s IH]; cbn.
  - destruct r; reflexivity.
  - by rewrite IH.
Qed.

Lemma substring_whole s : String.substring 0 (String.length s) s = s.
Proof. induction s as [| c s IH]; cbn; [reflexivity | by rewrite IH]. Qed.

Lemma substring_after s c r :
  String.substring (S (String.length s))
    (String.length (s ++ String c r) - S (String.length s)) (s ++ String c r) = r.
Proof.
  induction s as [| a s IH].
  - cbn [append String.length].
    replace (S (String.length r) - 1)%nat with (String.length r) by lia.
    cbn [String.substring]. apply substring_whole.
  - cbn [append String.length].
    replace (S (String.length (s ++ String c r)) - S (S (String.length s)))%nat
      with (String.length (s ++ String c r) - S (String.length s))%nat by lia.
    cbn [String.substring]. exact IH.
Qed.

(** ** [std::stof] on a printed number *)
















(** ** One line, three fields *)





(** ** The reader rounds to a nearest [float] *)

Lemma digits2_pos_bounds (p : positive) :
  2 ^ (Zpos (digits2_pos p) - 1) <= Zpos p < 2 ^ Zpos (digits2_pos p).
Proof.
  induction p as [p IH | p IH |]; cbn [digits2_pos].
  - rewrite Pos2Z.inj_succ.
    replace (Z.succ (Zpos (digits2_pos p)) - 1) with (Z.succ (Zpos (digits2_pos p) - 1)) by lia.
    rewrite !Z.pow_succ_r by lia. lia.
  - rewrite Pos2Z.inj_succ.
    replace (Z.succ (Zpos (digits2_pos p)) - 1) with (Z.succ (Zpos (digits2_pos p) - 1)) by lia.
    rewrite !Z.pow_succ_r by lia. lia.
  - cbn. lia.
Qed.

Lemma digits2_pos_unique (p : positive) (k : Z) :
  2 ^ (k - 1) <= Zpos p < 2 ^ k -> Zpos (digits2_pos p) = k.
Proof.
  intros [Hlo Hhi]. pose proof (digits2_pos_bounds p) as [Dlo Dhi].
  assert (0 < k).
  { destruct (Z.ltb_spec 0 k) as [|Hk]; [assumption |].
    assert (2 ^ k <= 2 ^ 0) by (destruct (Z.eq_dec k 0) as [-> |];
      [lia | rewrite Z.pow_neg_r by lia; cbn; lia]).
    cbn in *. lia. }
  assert (k - 1 < Zpos (digits2_pos p)).
  { apply (Z.pow_lt_mono_r_iff 2); lia. }
  assert (Zpos (digits2_pos p) - 1 < k).
  { apply (Z.pow_lt_mono_r_iff 2); lia. }
  lia.
Qed.

Section NearestFloat.
Local Open Scope R_scope.


















Section Rounding.
Variables (n e10 : Z).
Hypothesis Hn : (0 < n)%Z.

Local Abbreviation a := (decimal_num n e10).
Local Abbreviation b := (decimal_den e10).
Local Abbreviation e := (float_exponent n e10).
Local Abbreviation m := (float_mantissa n e10).
Local Abbreviation D := (IZR n * powerRZ 10 e10).







End Rounding.








End NearestFloat.




(* ===================================================================== *)
(** * The output interval when [out_fps * iteration_step] exceeds one     *)
(* ===================================================================== *)

Lemma fexp_double (x : Z) : fexp 53 1024 x = Z.max (x - 53) (-1074).
Proof. reflexivity. Qed.

Lemma shr_fexp_no_shift (m e : Z) (l : location) :
  fexp 53 1024 (Zdigits2 m + e) <= e ->
  shr_fexp 53 1024 m e l = (shr_record_of_loc m l, e).
Proof.
  intros H. unfold shr_fexp, shr.
  destruct (fexp 53 1024 (Zdigits2 m + e) - e) eqn:E; try reflexivity. lia.
Qed.

Lemma shr_m_of_loc (m : Z) (l : location) : shr_m (shr_record_of_loc m l) = m.
Proof. destruct l as [| []]; reflexivity. Qed.

Lemma loc_of_shr_record_of_loc (m : Z) (l : location) :
  loc_of_shr_record (shr_record_of_loc m l) = l.
Proof. destruct l as [| []]; reflexivity. Qed.

Lemma round_nearest_even_cases (m : Z) (l : location) :
  round_nearest_even m l = m \/ round_nearest_even m l = m + 1.
Proof. destruct l as [| []]; cbn; try destruct (Z.even m); auto. Qed.

(** The mantissa [2^53] has one bit too many: it is shifted once. *)
Lemma binary_round_aux_pow53 (s : bool) (e : Z) :
  -1074 <= e <= 969 ->
  binary_round_aux 53 1024 s 9007199254740992 e loc_Exact
  = S754_finite s 4503599627370496 (e + 1).
Proof.
  intros He. unfold binary_round_aux, shr_fexp.
  change (Zdigits2 9007199254740992) with 54. rewrite fexp_double.
  replace (Z.max (54 + e - 53) (-1074) - e) with 1 by lia.
  cbn [shr shr_record_of_loc SpecFloat.iter_pos shr_1 shr_m loc_of_shr_record
       round_nearest_even orb].
  change (Zdigits2 4503599627370496) with 53. rewrite fexp_double.
  replace (Z.max (53 + (e + 1) - 53) (-1074) - (e + 1)) with 0 by lia.
  cbn [shr shr_m].
  replace (e + 1 <=? 1024 - 53) with true by (symmetry; apply Z.leb_le; lia).
  reflexivity.
Qed.

(** Rounding a mantissa that needs no shift: the result keeps the
    exponent, or is the next power of two. *)
Lemma binary_round_aux_no_shift (s : bool) (q : positive) (e : Z) (l : location) :
  2 ^ 52 <= Zpos q < 2 ^ 53 -> -1074 <= e <= 970 ->
  exists m' e', binary_round_aux 53 1024 s (Zpos q) e l = S754_finite s m' e'
    /\ ((e' = e /\ Zpos m' < 2 ^ 53 /\ Zpos m' <= Zpos q + 1)
        \/ (e' = e + 1 /\ Zpos m' = 2 ^ 52 /\ Zpos q = 2 ^ 53 - 1)).
Proof.
  intros Hq He. unfold binary_round_aux.
  assert (Hd : Zdigits2 (Zpos q) = 53) by (apply (digits2_pos_unique q 53); exact Hq).
  rewrite shr_fexp_no_shift by (rewrite Hd, fexp_double; lia).
  rewrite shr_m_of_loc, loc_of_shr_record_of_loc.
  destruct (round_nearest_even_cases (Zpos q) l) as [-> | ->].
  - rewrite shr_fexp_no_shift by (rewrite Hd, fexp_double; lia).
    cbn [shr_record_of_loc shr_m].
    replace (e <=? 1024 - 53) with true by (symmetry; apply Z.leb_le; lia).
    exists q, e. split; [reflexivity |]. left. lia.
  - destruct (Z.eq_dec (Zpos q) (2 ^ 53 - 1)) as [Emax | Nmax].
    + replace (Zpos q + 1) with 9007199254740992 by (rewrite Emax; reflexivity).
      unfold shr_fexp. change (Zdigits2 9007199254740992) with 54.
      rewrite fexp_double. replace (Z.max (54 + e - 53) (-1074) - e) with 1 by lia.
      cbn [shr shr_record_of_loc SpecFloat.iter_pos shr_1 shr_m].
      replace (e + 1 <=? 1024 - 53) with true by (symmetry; apply Z.leb_le; lia).
      exists 4503599627370496%positive, (e + 1). split; [reflexivity |]. right.
      split; [reflexivity | split; [reflexivity | exact Emax]].
    + assert (Hq1 : 2 ^ 52 <= Zpos (q + 1) < 2 ^ 53) by lia.
      change (Zpos q + 1) with (Zpos (q + 1)).
      rewrite shr_fexp_no_shift
        by (cbn [Zdigits2]; rewrite (digits2_pos_unique (q + 1) 53 Hq1), fexp_double; lia).
      cbn [shr_record_of_loc shr_m].
      replace (e <=? 1024 - 53) with true by (symmetry; apply Z.leb_le; lia).
      exists (q + 1)%positive, e. split; [reflexivity |]. left. lia.
Qed.

(** On the smallest exponent, mantissas of fewer than 53 bits need no
    shift either. *)
Lemma binary_round_aux_smallest (s : bool) (q : positive) (l : location) :
  Zpos q < 2 ^ 53 ->
  exists m' e', binary_round_aux 53 1024 s (Zpos q) (-1074) l = S754_finite s m' e'
    /\ e' <= -1073 /\ Zpos m' < 2 ^ 53.
Proof.
  intros Hq. unfold binary_round_aux.
  pose proof (digits2_pos_bounds q) as [Dlo Dhi].
  assert (Hd : Zpos (digits2_pos q) <= 53).
  { destruct (Z.leb_spec (Zpos (digits2_pos q)) 53) as [| Hgt]; [assumption |].
    assert (2 ^ 53 <= 2 ^ (Zpos (digits2_pos q) - 1)) by (apply Z.pow_le_mono_r; lia).
    lia. }
  rewrite shr_fexp_no_shift by (cbn [Zdigits2]; rewrite fexp_double; lia).
  rewrite shr_m_of_loc, loc_of_shr_record_of_loc.
  destruct (round_nearest_even_cases (Zpos q) l) as [-> | ->].
  - rewrite shr_fexp_no_shift by (cbn [Zdigits2]; rewrite fexp_double; lia).
    cbn [shr_record_of_loc shr_m]. exists q, (-1074). split; [reflexivity | lia].
  - destruct (Z.eq_dec (Zpos q) (2 ^ 53 - 1)) as [Emax | Nmax].
    + replace (Zpos q + 1) with 9007199254740992 by (rewrite Emax; reflexivity).
      exists 4503599627370496%positive, (-1073). split; [reflexivity |].
      split; [lia | reflexivity].
    + change (Zpos q + 1) with (Zpos (q + 1)).
      pose proof (digits2_pos_bounds (q + 1)) as [Elo Ehi].
      assert (Hd1 : Zpos (digits2_pos (q + 1)) <= 53).
      { destruct (Z.leb_spec (Zpos (digits2_pos (q + 1))) 53) as [| Hgt]; [assumption |].
        assert (2 ^ 53 <= 2 ^ (Zpos (digits2_pos (q + 1)) - 1))
          by (apply Z.pow_le_mono_r; lia).
        lia. }
      rewrite shr_fexp_no_shift by (cbn [Zdigits2]; rewrite fexp_double; lia).
      cbn [shr_record_of_loc shr_m]. exists (q + 1)%positive, (-1074).
      split; [reflexivity | lia].
Qed.

Lemma trunc_finite_below_one (m : positive) (e : Z) :
  e < 0 -> Zpos m < 2 ^ (- e) -> Ieee.trunc_finite false m e = 0.
Proof.
  intros He Hm. unfold Ieee.trunc_finite. destruct e as [| k | k]; try lia.
  rewrite Z.shiftr_div_pow2 by lia. apply Z.div_small.
  change (- Zneg k) with (Zpos k) in Hm. lia.
Qed.

Lemma pow2_le_mono (a b : Z) : 0 <= a <= b -> 2 ^ a <= 2 ^ b.
Proof. intros. apply Z.pow_le_mono_r; lia. Qed.

(** The quotient [1 / p] of a double [p > 1] truncates to zero. *)
Lemma quotient_below_one (m : positive) (e : Z) :
  bounded 53 1024 m e = true ->
  SFltb (S754_finite false 4503599627370496 (-52)) (S754_finite false m e) = true ->
  exists m' e',
    SFdiv 53 1024 (S754_finite false 4503599627370496 (-52)) (S754_finite false m e)
    = S754_finite false m' e'
    /\ e' < 0 /\ Zpos m' < 2 ^ (- e').
Proof.
  intros Hb Hlt.
  unfold bounded, canonical_mantissa in Hb.
  apply andb_true_iff in Hb as [Hcan Hemax].
  apply Z.eqb_eq in Hcan. apply Z.leb_le in Hemax. rewrite fexp_double in Hcan.
  change (1024 - 53) with 971 in Hemax.
  assert (Hgt : -52 < e \/ (e = -52 /\ 2 ^ 52 < Zpos m)).
  { unfold SFltb, SFcompare in Hlt.
    destruct (Z.compare_spec (-52) e) as [E | L | G]; [| left; lia | discriminate].
    right. split; [lia |].
    destruct (Pos.compare_cont Eq 4503599627370496 m) eqn:C; try discriminate.
    change (Pos.compare_cont Eq 4503599627370496 m) with (4503599627370496 ?= m)%positive in C.
    change (2 ^ 52) with (Zpos 4503599627370496).
    exact C. }
  assert (He : -52 <= e) by lia.
  assert (Hd : Zpos (digits2_pos m) = 53) by lia.
  pose proof (digits2_pos_bounds m) as Hm. rewrite Hd in Hm.
  change (2 ^ (53 - 1)) with (2 ^ 52) in Hm.
  unfold SFdiv, SFdiv_core_binary.
  change (Zdigits2 4503599627370496) with 53. cbn [Zdigits2]. rewrite Hd, fexp_double.
  change (xorb false false) with false.
  destruct (Z.le_gt_cases e 969) as [Hnorm | Hbig].
  - (* the quotient is a normal number *)
    replace (Z.min (Z.max (53 + -52 - (53 + e) - 53) (-1074)) (-52 - e)) with (-105 - e) by lia.
    replace (-52 - e - (-105 - e)) with 53 by lia.
    change (Z.shiftl 4503599627370496 53) with (2 ^ 105).
    pose proof (Z_div_mod (2 ^ 105) (Zpos m) eq_refl) as Hdm.
    destruct (Z.div_eucl (2 ^ 105) (Zpos m)) as [q r].
    destruct Hdm as [Hdiv Hr].
    assert (Hq : 2 ^ 52 <= q <= 2 ^ 53).
    { change (2 ^ 105) with (2 ^ 52 * 2 ^ 53) in Hdiv. nia. }
    destruct (Z.eq_dec q (2 ^ 53)) as [Etop | Ntop].
    + (* the divisor is a power of two: one shift *)
      assert (Hm52 : Zpos m = 2 ^ 52).
      { change (2 ^ 105) with (2 ^ 52 * 2 ^ 53) in Hdiv. nia. }
      assert (Hr0 : r = 0).
      { rewrite Etop, Hm52 in Hdiv. change (2 ^ 105) with (2 ^ 52 * 2 ^ 53) in Hdiv. lia. }
      assert (e <> -52) by lia.
      subst q r.
      assert (Hloc : new_location (Zpos m) 0 = loc_Exact).
      { unfold new_location. destruct (Z.even (Zpos m)); reflexivity. }
      rewrite Hloc. change (2 ^ 53) with 9007199254740992.
      rewrite binary_round_aux_pow53 by lia.
      exists 4503599627370496%positive, (-105 - e + 1).
      split; [reflexivity |]. split; [lia |].
      apply Z.lt_le_trans with (2 ^ 53); [reflexivity |].
      apply pow2_le_mono. lia.
    + destruct q as [| q | q]; try lia.
      destruct (binary_round_aux_no_shift false q (-105 - e) (new_location (Zpos m) r))
        as (m' & e' & -> & Hcases); [lia | lia |].
      exists m', e'. split; [reflexivity |].
      destruct Hcases as [(-> & Hm' & _) | (-> & Hm' & Hqmax)].
      * split; [lia |].
        apply Z.lt_le_trans with (2 ^ 53); [exact Hm' |]. apply pow2_le_mono. lia.
      * (* the quotient rounds up to a power of two: the divisor is not
           on the exponent of one *)
        assert (e <> -52).
        { intros ->. destruct Hgt as [? | [_ Hm1]]; [lia |].
          rewrite Hqmax in Hdiv. change (2 ^ 105) with (2 ^ 52 * 2 ^ 53) in Hdiv.
          change (2 ^ 53) with (2 * 2 ^ 52) in *. nia. }
        split; [lia |]. rewrite Hm'.
        apply Z.lt_le_trans with (2 ^ 53); [reflexivity |]. apply pow2_le_mono. lia.
  - (* the quotient is subnormal *)
    replace (Z.min (Z.max (53 + -52 - (53 + e) - 53) (-1074)) (-52 - e)) with (-1074) by lia.
    assert (Hs : -52 - e - -1074 = 52 \/ -52 - e - -1074 = 51) by lia.
    assert (Hval : exists a, 2 ^ 103 <= a <= 2 ^ 104 /\
              match -52 - e - -1074 with
              | 0 => 4503599627370496
              | Zpos _ => Z.shiftl 4503599627370496 (-52 - e - -1074)
              | Zneg _ => 0
              end = a).
    { destruct Hs as [-> | ->]; [exists (2 ^ 104) | exists (2 ^ 103)];
        (split; [split; discriminate | reflexivity]). }
    destruct Hval as (a & Ha & ->).
    pose proof (Z_div_mod a (Zpos m) eq_refl) as Hdm.
    destruct (Z.div_eucl a (Zpos m)) as [q r]. destruct Hdm as [Hdiv Hr].
    assert (Hq : 0 < q < 2 ^ 53).
    { change (2 ^ 104) with (2 ^ 52 * 2 ^ 52) in Ha.
      change (2 ^ 103) with (2 ^ 53 * 2 ^ 50) in Ha.
      change (2 ^ 53) with (2 * 2 ^ 52) in *. nia. }
    destruct q as [| q | q]; try lia.
    destruct (binary_round_aux_smallest false q (new_location (Zpos m) r))
      as (m' & e' & -> & He' & Hm'); [lia |].
    exists m', e'. split; [reflexivity |]. split; [lia |].
    apply Z.lt_le_trans with (2 ^ 53); [exact Hm' |]. apply pow2_le_mono. lia.
Qed.

(** The product exceeds one: the interval is zero. *)
Lemma compute_out_steps_above_one (h : Ieee.double) :
  valid_binary 53 1024 (Ieee.dmul (Ieee.d_of_Z out_fps) h) = true ->
  Ieee.dltb (Ieee.d_of_Z 1) (Ieee.dmul (Ieee.d_of_Z out_fps) h) = true ->
  compute_out_steps h = Some 0.
Proof.
  intros Hvalid Hgt. unfold compute_out_steps.
  change (Ieee.d_of_Z 1) with (S754_finite false 4503599627370496 (-52)) in Hgt |- *.
  unfold Ieee.dltb in Hgt. unfold Ieee.ddiv.
  destruct (Ieee.dmul (Ieee.d_of_Z out_fps) h) as [s | s | | s m e].
  - discriminate Hgt.
  - destruct s; [discriminate Hgt | reflexivity].
  - discriminate Hgt.
  - destruct s; [discriminate Hgt |].
    destruct (quotient_below_one m e Hvalid Hgt) as (m' & e' & -> & He' & Hm').
    unfold Ieee.d2uint. rewrite (trunc_finite_below_one m' e' He' Hm'). reflexivity.
Qed.

Lemma binary_round_aux_no_shift_bounds (s : bool) (q : positive) (e : Z) (l : location) :
  2 ^ 52 <= Zpos q < 2 ^ 53 -> -1074 <= e <= 970 ->
  exists m' e', binary_round_aux 53 1024 s (Zpos q) e l = S754_finite s m' e'
    /\ ((e' = e /\ Zpos m' < 2 ^ 53 /\ Zpos m' <= Zpos q + 1 /\ Zpos q <= Zpos m')
        \/ (e' = e + 1 /\ Zpos m' = 2 ^ 52 /\ Zpos q = 2 ^ 53 - 1)).
Proof.
  intros Hq He. unfold binary_round_aux.
  assert (Hd : Zdigits2 (Zpos q) = 53) by (apply (digits2_pos_unique q 53); exact Hq).
  rewrite shr_fexp_no_shift by (rewrite Hd, fexp_double; lia).
  rewrite shr_m_of_loc, loc_of_shr_record_of_loc.
  destruct (round_nearest_even_cases (Zpos q) l) as [-> | ->].
  - rewrite shr_fexp_no_shift by (rewrite Hd, fexp_double; lia).
    cbn [shr_record_of_loc shr_m].
    replace (e <=? 1024 - 53) with true by (symmetry; apply Z.leb_le; lia).
    exists q, e. split; [reflexivity |]. left. lia.
  - destruct (Z.eq_dec (Zpos q) (2 ^ 53 - 1)) as [Emax | Nmax].
    + replace (Zpos q + 1) with 9007199254740992 by (rewrite Emax; reflexivity).
      unfold shr_fexp. change (Zdigits2 9007199254740992) with 54.
      rewrite fexp_double. replace (Z.max (54 + e - 53) (-1074) - e) with 1 by lia.
      cbn [shr shr_record_of_loc SpecFloat.iter_pos shr_1 shr_m].
      replace (e + 1 <=? 1024 - 53) with true by (symmetry; apply Z.leb_le; lia).
      exists 4503599627370496%positive, (e + 1). split; [reflexivity |]. right.
      split; [reflexivity | split; [reflexivity | exact Emax]].
    + assert (Hq1 : 2 ^ 52 <= Zpos (q + 1) < 2 ^ 53) by lia.
      change (Zpos q + 1) with (Zpos (q + 1)).
      rewrite shr_fexp_no_shift
        by (cbn [Zdigits2]; rewrite (digits2_pos_unique (q + 1) 53 Hq1), fexp_double; lia).
      cbn [shr_record_of_loc shr_m].
      replace (e <=? 1024 - 53) with true by (symmetry; apply Z.leb_le; lia).
      exists (q + 1)%positive, e. split; [reflexivity |]. left. lia.
Qed.

Lemma truncated_inverse_finite (m : positive) (e : Z) :
  e < 0 -> truncated_inverse (S754_finite false m e) = Some (2 ^ (- e) / Zpos m).
Proof.
  intros He. unfold truncated_inverse, Ieee.to_Q. f_equal.
  rewrite Zdiv_Qdiv. apply Qfloor_comp.
  rewrite Qpower.Zpower_Qpower by lia. rewrite Qpower.Qpower_opp.
  assert (Hp : ~ (inject_Z 2 ^ e == 0)%Q).
  { apply Qpower.Qpower_not_0. discriminate. }
  change (inject_Z 2) with 2%Q in *.
  field. split; [exact Hp | discriminate].
Qed.

Lemma SFleb_finite_pos (m1 m2 : positive) (e1 e2 : Z) :
  SFleb (S754_finite false m1 e1) (S754_finite false m2 e2) = true ->
  e1 < e2 \/ (e1 = e2 /\ Zpos m1 <= Zpos m2).
Proof.
  unfold SFleb, SFcompare. intros H.
  destruct (Z.compare_spec e1 e2) as [E | L | G]; [| left; lia | discriminate].
  right. split; [exact E |].
  destruct (Pos.compare_cont Eq m1 m2) eqn:C; try discriminate.
  - fold (Pos.compare m1 m2) in C. apply Pos.compare_eq in C. subst. lia.
  - assert (Zpos m1 < Zpos m2) by exact C. lia.
Qed.

Lemma div_eucl_div_mod (a b : Z) : Z.div_eucl a b = (a / b, a mod b).
Proof. unfold Z.div, Z.modulo. destruct (Z.div_eucl a b); reflexivity. Qed.

Lemma trunc_finite_shift (m : positive) (e : Z) :
  e < 0 -> Ieee.trunc_finite false m e = Zpos m / 2 ^ (- e).
Proof.
  intros He. unfold Ieee.trunc_finite. destruct e as [| k | k]; try lia.
  rewrite Z.shiftr_div_pow2 by lia. reflexivity.
Qed.

(** The quotient [1 / p] of a double [2^-31 <= p <= 1], truncated: the
    truncation of the exact quotient, or one more when the quotient
    rounds up to the next integer. *)
Lemma quotient_truncation (m : positive) (e : Z) :
  bounded 53 1024 m e = true ->
  SFleb (S754_finite false m e) (S754_finite false 4503599627370496 (-52)) = true ->
  SFleb two_pow_minus_31 (S754_finite false m e) = true ->
  exists m' e',
    SFdiv 53 1024 (S754_finite false 4503599627370496 (-52)) (S754_finite false m e)
    = S754_finite false m' e'
    /\ 2 ^ (- e) / Zpos m <= Ieee.trunc_finite false m' e' <= 2 ^ (- e) / Zpos m + 1
    /\ 1 <= Ieee.trunc_finite false m' e' < 2 ^ 32.
Proof.
  intros Hb Hle Hge.
  unfold bounded, canonical_mantissa in Hb.
  apply andb_true_iff in Hb as [Hcan Hemax].
  apply Z.eqb_eq in Hcan. rewrite fexp_double in Hcan.
  apply SFleb_finite_pos in Hle, Hge.
  assert (Hlo : -83 <= e) by lia.
  assert (Hd : Zpos (digits2_pos m) = 53) by lia.
  pose proof (digits2_pos_bounds m) as Hm. rewrite Hd in Hm.
  change (2 ^ (53 - 1)) with (2 ^ 52) in Hm.
  change (Zpos 4503599627370496) with (2 ^ 52) in Hle.
  assert (Hhi : e < -52 \/ (e = -52 /\ Zpos m = 2 ^ 52)) by lia.
  clear Hle Hge.
  set (s := 105 + e).
  assert (Hs : 22 <= s <= 53) by lia.
  assert (Hpow : 2 ^ 105 = 2 ^ (- e) * 2 ^ s).
  { rewrite <- Z.pow_add_r by lia. f_equal. lia. }
  assert (Hps : 0 < 2 ^ s) by (apply Z.pow_pos_nonneg; lia).
  assert (Hpe : 0 < 2 ^ (- e)) by (apply Z.pow_pos_nonneg; lia).
  assert (HF : 2 ^ (- e) / Zpos m = (2 ^ 105 / Zpos m) / 2 ^ s).
  { rewrite Z.div_div by lia. rewrite Hpow.
    rewrite (Z.mul_comm (Zpos m)), <- Z.div_div by lia.
    rewrite Z.div_mul by lia. reflexivity. }
  unfold SFdiv, SFdiv_core_binary.
  change (Zdigits2 4503599627370496) with 53. cbn [Zdigits2]. rewrite Hd, fexp_double.
  change (xorb false false) with false.
  replace (Z.min (Z.max (53 + -52 - (53 + e) - 53) (-1074)) (-52 - e)) with (-105 - e) by lia.
  replace (-52 - e - (-105 - e)) with 53 by lia.
  change (Z.shiftl 4503599627370496 53) with (2 ^ 105).
  rewrite HF, (div_eucl_div_mod (2 ^ 105) (Zpos m)).
  pose proof (Z.div_mod (2 ^ 105) (Zpos m) ltac:(lia)) as Hdiv.
  pose proof (Z.mod_pos_bound (2 ^ 105) (Zpos m) ltac:(lia)) as Hr.
  set (q := 2 ^ 105 / Zpos m) in *. set (r := 2 ^ 105 mod Zpos m) in *.
  clearbody q r.
  assert (Hq : 2 ^ 52 <= q <= 2 ^ 53).
  { change (2 ^ 105) with (2 ^ 52 * 2 ^ 53) in Hdiv. nia. }
  assert (Hs2 : 2 ^ s <= 2 ^ 53) by (apply pow2_le_mono; lia).
  assert (Hs22 : 2 ^ 22 <= 2 ^ s) by (apply pow2_le_mono; lia).
  destruct (Z.eq_dec q (2 ^ 53)) as [Etop | Ntop].
  - assert (Hm52 : Zpos m = 2 ^ 52).
    { change (2 ^ 105) with (2 ^ 52 * 2 ^ 53) in Hdiv. nia. }
    assert (Hr0 : r = 0).
    { rewrite Etop, Hm52 in Hdiv. change (2 ^ 105) with (2 ^ 52 * 2 ^ 53) in Hdiv. lia. }
    subst q r.
    assert (Hloc : new_location (Zpos m) 0 = loc_Exact).
    { unfold new_location. destruct (Z.even (Zpos m)); reflexivity. }
    rewrite Hloc. change (2 ^ 53) with 9007199254740992.
    rewrite binary_round_aux_pow53 by lia.
    exists 4503599627370496%positive, (-105 - e + 1). split; [reflexivity |].
    rewrite trunc_finite_shift by lia.
      replace (- (-105 - e + 1)) with (s - 1) by lia.
      change 9007199254740992 with (2 * 2 ^ 52).
      change (Z.pos 4503599627370496) with (2 ^ 52).
      assert (E : 2 * 2 ^ 52 / 2 ^ s = 2 ^ 52 / 2 ^ (s - 1)).
      { replace (2 ^ s) with (2 * 2 ^ (s - 1))
          by (rewrite <- Z.pow_succ_r by lia; f_equal; lia).
        rewrite Z.div_mul_cancel_l; [reflexivity | | lia].
        assert (0 < 2 ^ (s - 1)) by (apply Z.pow_pos_nonneg; lia). lia. }
      rewrite E.
      assert (Hs1 : 2 ^ 21 <= 2 ^ (s - 1) <= 2 ^ 52) by (split; apply pow2_le_mono; lia).
      assert (1 <= 2 ^ 52 / 2 ^ (s - 1)).
      { apply Z.div_le_lower_bound; lia. }
      assert (2 ^ 52 / 2 ^ (s - 1) < 2 ^ 32).
      { apply Z.div_lt_upper_bound; [lia |]. change (2 ^ 52) with (2 ^ 21 * 2 ^ 31). nia. }
      lia.
  - destruct q as [| q | q]; try lia.
    destruct (binary_round_aux_no_shift_bounds false q (-105 - e) (new_location (Zpos m) r))
      as (m' & e' & -> & Hcases); [lia | lia |].
    exists m', e'. split; [reflexivity |].
    assert (Hmono : Zpos q / 2 ^ s <= (Zpos q + 1) / 2 ^ s <= Zpos q / 2 ^ s + 1).
    { split; [apply Z.div_le_mono; lia |].
      replace (Zpos q / 2 ^ s + 1) with ((Zpos q + 1 * 2 ^ s) / 2 ^ s)
        by (rewrite Z.div_add by lia; reflexivity).
      apply Z.div_le_mono; lia. }
    assert (Hone : e < -52 -> 1 <= Zpos q / 2 ^ s).
    { intros He. apply Z.div_le_lower_bound; [lia |].
      assert (2 ^ s <= 2 ^ 52) by (apply pow2_le_mono; lia). lia. }
    assert (He52 : e < -52).
    { destruct Hhi as [? | [-> Hm1]]; [assumption |].
      rewrite Hm1 in Hdiv. change (2 ^ 105) with (2 ^ 52 * 2 ^ 53) in Hdiv.
      rewrite Hm1 in Hr. nia. }
    assert (Hup : (Zpos q + 1) / 2 ^ s < 2 ^ 32).
    { apply Z.div_lt_upper_bound; [lia |].
      change (2 ^ 53) with (2 ^ 22 * 2 ^ 31) in *. nia. }
    destruct Hcases as [(-> & Hm' & Hup' & Hlo') | (-> & Hm' & Hqmax)].
    + rewrite trunc_finite_shift by lia.
      replace (- (-105 - e)) with s by lia.
      assert (Zpos q / 2 ^ s <= Zpos m' / 2 ^ s) by (apply Z.div_le_mono; lia).
      assert (Zpos m' / 2 ^ s <= (Zpos q + 1) / 2 ^ s) by (apply Z.div_le_mono; lia).
      specialize (Hone He52). lia.
    + rewrite trunc_finite_shift by lia.
      replace (- (-105 - e + 1)) with (s - 1) by lia.
      rewrite Hm'.
      assert (E : 2 ^ 52 / 2 ^ (s - 1) = (Zpos q + 1) / 2 ^ s).
      { rewrite Hqmax. replace (2 ^ 53 - 1 + 1) with (2 * 2 ^ 52) by reflexivity.
        replace (2 ^ s) with (2 * 2 ^ (s - 1))
          by (rewrite <- Z.pow_succ_r by lia; f_equal; lia).
        rewrite Z.div_mul_cancel_l; [reflexivity | | lia].
        assert (0 < 2 ^ (s - 1)) by (apply Z.pow_pos_nonneg; lia). lia. }
      rewrite E. specialize (Hone He52). lia.
Qed.

(** C10. The output interval is the [double] quotient
    [1 / (out_fps * iteration_step)] truncated to an integer. With [p]
    the product [out_fps * iteration_step] (a [double]): whenever
    [p > 1] the interval is zero, and the cadence check
    [curr_step % out_steps] is undefined at every step, a modulo by zero;
    whenever [2^-31 <= p <= 1] the interval is at least one, the cadence
    check has a value at every step, and the interval is the integer
    truncation of the exact quotient [1 / p], or one more where the
    [double] division rounds the quotient up to the next integer (as at
    step size 0.004, where it is 5). *)
Theorem out_steps_truncates_the_quotient (iteration_step : Ieee.double) :
  valid_binary 53 1024 (Ieee.dmul (Ieee.d_of_Z out_fps) iteration_step) = true ->
  (Ieee.dltb (Ieee.d_of_Z 1) (Ieee.dmul (Ieee.d_of_Z out_fps) iteration_step) = true ->
   compute_out_steps iteration_step = Some 0
   /\ forall curr_step, cadence_check curr_step 0 = None)
  /\ (Ieee.dleb two_pow_minus_31 (Ieee.dmul (Ieee.d_of_Z out_fps) iteration_step) = true ->
      Ieee.dleb (Ieee.dmul (Ieee.d_of_Z out_fps) iteration_step) (Ieee.d_of_Z 1) = true ->
      exists out_steps F,
        compute_out_steps iteration_step = Some out_steps
        /\ truncated_inverse (Ieee.dmul (Ieee.d_of_Z out_fps) iteration_step) = Some F
        /\ F <= out_steps <= F + 1
        /\ 1 <= out_steps
        /\ forall curr_step,
             cadence_check curr_step out_steps = Some (curr_step mod out_steps =? 0)).
Proof.
  intros Hvalid. split.
  - intros Hgt. split; [| reflexivity].
    exact (compute_out_steps_above_one iteration_step Hvalid Hgt).
  - intros Hge Hle. unfold compute_out_steps.
    change (Ieee.d_of_Z 1) with (S754_finite false 4503599627370496 (-52)) in Hle |- *.
    unfold Ieee.dleb in Hle, Hge. unfold Ieee.ddiv.
    destruct (Ieee.dmul (Ieee.d_of_Z out_fps) iteration_step) as [s | s | | s m e];
      [discriminate Hge | destruct s; discriminate | discriminate Hge |].
    destruct s; [discriminate Hge |].
    destruct (quotient_truncation m e Hvalid Hle Hge) as (m' & e' & -> & HF & Hn).
    assert (He : e < 0).
    { apply SFleb_finite_pos in Hle. lia. }
    exists (Ieee.trunc_finite false m' e'), (2 ^ (- e) / Zpos m).
    split.
    { unfold Ieee.d2uint.
      replace ((0 <=? Ieee.trunc_finite false m' e') && (Ieee.trunc_finite false m' e' <? 2 ^ 32))
        with true; [reflexivity |].
      symmetry. apply andb_true_iff. split; [apply Z.leb_le | apply Z.ltb_lt]; lia. }
    split; [exact (truncated_inverse_finite m e He) |].
    split; [exact HF |]. split; [lia |].
    intros curr_step. unfold cadence_check.
    destruct (Z.eqb_spec (Ieee.trunc_finite false m' e') 0) as [E |]; [lia | reflexivity].
Qed.

Lemma out_steps_at_0_004 :
  compute_out_steps (Ieee.dlit 4 1000) = Some 5
  /\ truncated_inverse (Ieee.dmul (Ieee.d_of_Z out_fps) (Ieee.dlit 4 1000)) = Some 4.
Proof. split; vm_compute; reflexivity. Qed.

Lemma out_steps_witness :
  (valid_binary 53 1024 (Ieee.dmul (Ieee.d_of_Z out_fps) Reference.h_0_03) = true
   /\ Ieee.dltb (Ieee.d_of_Z 1) (Ieee.dmul (Ieee.d_of_Z out_fps) Reference.h_0_03) = true
   /\ compute_out_steps Reference.h_0_03 = Some 0
   /\ cadence_check 0 0 = None)
  /\ (valid_binary 53 1024 (Ieee.dmul (Ieee.d_of_Z out_fps) Reference.h_0_005) = true
      /\ Ieee.dleb two_pow_minus_31 (Ieee.dmul (Ieee.d_of_Z out_fps) Reference.h_0_005) = true
      /\ Ieee.dleb (Ieee.dmul (Ieee.d_of_Z out_fps) Reference.h_0_005) (Ieee.d_of_Z 1) = true
      /\ exists out_steps F,
           compute_out_steps Reference.h_0_005 = Some out_steps
           /\ truncated_inverse (Ieee.dmul (Ieee.d_of_Z out_fps) Reference.h_0_005) = Some F
           /\ F <= out_steps <= F + 1
           /\ 1 <= out_steps
           /\ compute_out_steps Reference.h_0_005 = Some 4
           /\ truncated_inverse (Ieee.dmul (Ieee.d_of_Z out_fps) Reference.h_0_005) = Some 4).
Proof.
  assert (Hv : valid_binary 53 1024 (Ieee.dmul (Ieee.d_of_Z out_fps) Reference.h_0_03)
               = true) by (vm_compute; reflexivity).
  assert (Hg : Ieee.dltb (Ieee.d_of_Z 1) (Ieee.dmul (Ieee.d_of_Z out_fps) Reference.h_0_03)
               = true) by (vm_compute; reflexivity).
  assert (Hv5 : valid_binary 53 1024 (Ieee.dmul (Ieee.d_of_Z out_fps) Reference.h_0_005)
                = true) by (vm_compute; reflexivity).
  assert (Hl5 : Ieee.dleb two_pow_minus_31
                  (Ieee.dmul (Ieee.d_of_Z out_fps) Reference.h_0_005) = true)
    by (vm_compute; reflexivity).
  assert (Hu5 : Ieee.dleb (Ieee.dmul (Ieee.d_of_Z out_fps) Reference.h_0_005)
                  (Ieee.d_of_Z 1) = true) by (vm_compute; reflexivity).
  split.
  - split; [exact Hv |]. split; [exact Hg |].
    destruct (out_steps_truncates_the_quotient Reference.h_0_03 Hv) as (Habove & _).
    destruct (Habove Hg) as (H0 & Hc). split; [exact H0 | exact (Hc 0)].
  - split; [exact Hv5 |]. split; [exact Hl5 |]. split; [exact Hu5 |].
    destruct (out_steps_truncates_the_quotient Reference.h_0_005 Hv5) as (_ & Hbelow).
    destruct (Hbelow Hl5 Hu5) as (n & F & Hn & HF & Hb & H1 & _).
    exists n, F. split; [exact Hn |]. split; [exact HF |]. split; [exact Hb |].
    split; [exact H1 |]. split; vm_compute; reflexivity.
Defined.

(* ===================================================================== *)
(** * Further properties                                                  *)
(* ===================================================================== *)

(** ** What [main] sets up *)

Section Setup.
Context {T P X Y : Type} {RT : Real T} {TS : TerrainSolver T P X}
  {RS : RigidSolver T Y}.

Local Abbreviation Eff := (IO T (ChSystemGpuMesh T P X)).

(** The rover as [main] builds it: the chassis is body 0 and is fixed,
    the six calls of [addWheelBody] add the bodies 1 to 6 and one mesh
    each. *)
Lemma build_rover_shape (params : Params T P) (G : ChVector T) (tr : list Eff) :
  exists sys glob tr',
    build_rover params G tr = (tr', Done (sys, glob, 0%nat))
    /\ tr' = tr ++ repeat (Print (MsgInertia wheel_inertia_x wheel_inertia_y
                                             wheel_inertia_z)) 6
    /\ length (sys_bodies sys) = 7%nat
    /\ g_wheel_bodies glob = [1; 2; 3; 4; 5; 6]%nat
    /\ g_meshes glob
       = repeat (mkMesh wheel_filename wheel_scaling VNULL (r_float wheel_mass) None) 6
    /\ sys_G_acc sys = G
    /\ body_fixed <$> sys_bodies sys !! 0%nat = Some true
    /\ (body_pos <$> sys_bodies sys !! 0%nat
        = Some (mkVec (r_div (r_opp (box_X params)) (r_lit 4 1)) r_zero r_zero))
    /\ (forall i o,
          wheel_offsets !! i = Some o ->
          exists b,
            sys_bodies sys !! S i = Some b
            /\ body_pos b
               = Vadd (mkVec (r_div (r_opp (box_X params)) (r_lit 4 1)) r_zero r_zero) o
            /\ body_fixed b = false
            /\ body_mass b = wheel_mass
            /\ sys_links sys !! (2 * i)%nat = Some (ChLinkLockRevolute 0 (S i) (body_pos b))
            /\ sys_links sys !! (2 * i + 1)%nat
               = Some (ChLinkMotorRotationAngle 0 (S i) (body_pos b)))
    /\ length (sys_links sys) = 12%nat.
Proof.
  do 3 eexists. split.
  - cbv [build_rover add_wheels wheel_offsets addWheelBody bind ret emit
         get_body AddBody on_body with_bodies Set_G_acc AddLink sys_bodies
         sys_links sys_G_acc sys_state fst snd length app lookup list_lookup
         alter list_alter g_wheel_bodies g_meshes].
    reflexivity.
  - split.
    { set (p := Print (MsgInertia wheel_inertia_x wheel_inertia_y wheel_inertia_z)).
      transitivity ((((((tr ++ [p]) ++ [p]) ++ [p]) ++ [p]) ++ [p]) ++ [p]);
        [reflexivity | rewrite <- !app_assoc; reflexivity]. }
    split; [reflexivity |]. split; [reflexivity |]. split; [reflexivity |].
    split; [reflexivity |]. split; [reflexivity |]. split; [reflexivity |].
    split; [| reflexivity].
    intros i o Hi.
    do 6 (destruct i as [| i];
          [injection Hi as <-; eexists; split; [reflexivity |];
           repeat split; reflexivity |]).
    discriminate Hi.
Qed.

(** The world [setup] returns. *)
Lemma setup_shape (fs : FileSystem) (args : Args T P)
  (params : Params T P) (G : ChVector T) (tr tr1 : list Eff)
  (pts : list (ChVector Ieee.float)) :
  initial_particles fs args params tr = (tr1, Done pts) ->
  exists tr' w,
    setup fs args params G tr = (tr', Done w)
    /\ world_ok w /\ chassis_fixed w = true /\ chassis_held w /\ meshes_match w
    /\ currframe w = 0
    /\ chassis_body w = 0%nat /\ wheel_bodies w = [1; 2; 3; 4; 5; 6]%nat
    /\ gpu_particles (gpu_sys w) = pts
    /\ gpu_initialized (gpu_sys w) = true
    /\ gpu_gravity (gpu_sys w) = G /\ sys_G_acc (rover_sys w) = G
    /\ terrain_height_offset w = r_add (box_Z params) height_offset_chassis_to_bottom
    /\ (forall i o,
          wheel_offsets !! i = Some o ->
          exists b c,
            body_at w (S i) = Some b /\ body_at w 0%nat = Some c
            /\ body_pos b = Vadd (body_pos c) o /\ body_fixed b = false).
Proof.
  intros Hinit.
  destruct (build_rover_shape params G tr1)
    as (sys & glob & tr2 & Hb & _ & Hlen & Hwheels & Hmeshes & HG & Hfix & Hpos & Hw & _).
  unfold setup. erewrite bind_step by exact Hinit. erewrite bind_step by exact Hb.
  cbn [fst snd]. unfold bind, emit, ret. do 2 eexists. split; [reflexivity |].
  cbn [chassis_fixed currframe chassis_body wheel_bodies gpu_sys rover_sys
       terrain_height_offset].
  split.
  { unfold world_ok. cbn [chassis_body wheel_bodies rover_sys]. rewrite Hlen, Hwheels.
    split; [lia |]. split; [repeat constructor; lia |].
    split; [apply (bool_decide_unpack _); reflexivity |].
    apply (bool_decide_unpack _); reflexivity. }
  split; [reflexivity |].
  split; [intros _; exact Hfix |].
  split.
  { unfold meshes_match. cbn. rewrite Hmeshes, Hwheels. reflexivity. }
  split; [reflexivity |]. split; [reflexivity |]. split; [exact Hwheels |].
  split; [reflexivity |]. split; [reflexivity |]. split; [reflexivity |].
  split; [exact HG |]. split; [reflexivity |].
  intros i o Hi. destruct (Hw i o Hi) as (b & Hb1 & Hb2 & Hb3 & _).
  unfold body_at. cbn [rover_sys].
  destruct (sys_bodies sys !! 0%nat) as [c |] eqn:Hc; [| discriminate Hfix].
  exists b, c. split; [exact Hb1 |]. split; [reflexivity |].
  split; [| exact Hb3]. rewrite Hb2. cbn in Hpos. injection Hpos as <-. reflexivity.
Qed.

(** What [setup] prints and creates after the particles are there. *)
Lemma setup_trace (fs : FileSystem) (args : Args T P)
  (params : Params T P) (G : ChVector T) (tr tr1 : list Eff)
  (pts : list (ChVector Ieee.float)) :
  initial_particles fs args params tr = (tr1, Done pts) ->
  exists w,
    setup fs args params G tr
    = (tr1 ++ repeat (Print (MsgInertia wheel_inertia_x wheel_inertia_y
                                        wheel_inertia_z)) 6
           ++ [CreateDirectory "../";
               CreateDirectory ("../" ++ output_dir params);
               Print (MsgSoupFamilies 6); Print (MsgRenderingAt out_fps)],
       Done w).
Proof.
  intros Hinit.
  destruct (build_rover_shape params G tr1)
    as (sys & glob & tr2 & Hb & -> & _ & _ & Hmeshes & _).
  unfold setup. erewrite bind_step by exact Hinit. erewrite bind_step by exact Hb.
  cbn [fst snd]. unfold bind, emit, ret. eexists.
  unfold GetNumMeshes, configure, SetOutputMode, LoadMeshes, with_meshes.
  cbn [gpu_meshes]. rewrite Hmeshes. cbn [repeat length].
  rewrite <- !app_assoc. reflexivity.
Qed.

(** X1. Whatever the parameters and the gravity vector, once the initial
    particles are there (sampled, or read from the checkpoint), the set-up
    part of [main] runs to its end, and the world it hands to the coupling
    loop is sound: the chassis is body 0, fixed in the rigid system with
    the flag [chassis_fixed] set; the wheels are the six distinct bodies 1
    to 6, free, each placed at the chassis position plus its offset; the
    terrain system holds the particles, is initialised and has exactly one
    mesh per wheel; both systems have the gravity vector; no frame has been
    written. *)
Theorem setup_builds_sound_world (fs : FileSystem) (args : Args T P)
  (params : Params T P) (G : ChVector T) (tr tr1 : list Eff)
  (pts : list (ChVector Ieee.float)) :
  initial_particles fs args params tr = (tr1, Done pts) ->
  exists tr' w,
    setup fs args params G tr = (tr', Done w)
    /\ world_ok w /\ chassis_fixed w = true /\ chassis_held w /\ meshes_match w
    /\ currframe w = 0
    /\ chassis_body w = 0%nat /\ wheel_bodies w = [1; 2; 3; 4; 5; 6]%nat
    /\ gpu_particles (gpu_sys w) = pts
    /\ gpu_initialized (gpu_sys w) = true
    /\ gpu_gravity (gpu_sys w) = G /\ sys_G_acc (rover_sys w) = G
    /\ terrain_height_offset w = r_add (box_Z params) height_offset_chassis_to_bottom
    /\ (forall i o,
          wheel_offsets !! i = Some o ->
          exists b c,
            body_at w (S i) = Some b /\ body_at w 0%nat = Some c
            /\ body_pos b = Vadd (body_pos c) o /\ body_fixed b = false).
Proof. apply setup_shape. Qed.


End Setup.

Lemma setup_sound_world_witness :
  exists tr' w,
    setup (TS := Reference.still_terrain) (RS := Reference.frozen_rigid)
      Reference.no_files (Reference.demo_args (T := R) SETTLING Reference.h_0_005)
      (Reference.demo_params Reference.h_0_005) (mkVec 0 0 (- 370))%R [] = (tr', Done w)
    /\ world_ok w /\ meshes_match w /\ wheel_bodies w = [1; 2; 3; 4; 5; 6]%nat.
Proof.
  destruct (setup_builds_sound_world (TS := Reference.still_terrain)
              (RS := Reference.frozen_rigid) Reference.no_files
              (Reference.demo_args (T := R) SETTLING Reference.h_0_005)
              (Reference.demo_params Reference.h_0_005) (mkVec 0 0 (- 370))%R [] []
              [mkVec Ieee.fzero Ieee.fzero (Ieee.flit 125 10)] eq_refl)
    as (tr' & w & Hs & Hok & _ & _ & Hm & _ & _ & Hw & _).
  exists tr', w. split; [exact Hs |]. split; [exact Hok |]. split; [exact Hm | exact Hw].
Defined.

(** ** Whole runs of [main] *)

Section WholeRuns.
Context {T P X Y : Type} {RT : Real T} {TS : TerrainSolver T P X}
  {RS : RigidSolver T Y} {LM : Libm T}.

Local Abbreviation Eff := (IO T (ChSystemGpuMesh T P X)).

(** The world a completed loop returns is the one its last turn left. *)
Lemma coupling_loop_last dir h time_end out_steps fuel :
  forall t cs (w : World T P X Y) (tr tr' : list Eff) w' steps,
    coupling_loop fuel dir h time_end out_steps t cs w tr = (tr', Done (w', steps)) ->
    w' = default w (sr_end <$> last steps).
Proof.
  induction fuel as [| fuel IH]; intros t cs w tr tr' w' steps; cbn [coupling_loop].
  - destruct (loop_continues t time_end); [discriminate |].
    intros [= <- <- <-]. reflexivity.
  - destruct (loop_continues t time_end); [| intros [= <- <- <-]; reflexivity].
    intros H. apply bind_Done in H as (s & tr1 & _ & H).
    apply bind_Done in H as ([w2 rest] & tr2 & Hrest & H).
    injection H as <- <- <-. cbn [fst snd].
    rewrite (IH _ _ _ _ _ _ _ Hrest).
    destruct rest as [| s1 rest]; [reflexivity |].
    rewrite last_cons_cons.
    destruct (last (s1 :: rest)) as [sl |] eqn:E; [reflexivity |].
    apply last_None in E. discriminate E.
Qed.

(** [main] in SETTLING mode, cut at the loop: the set-up gives a sound
    world, and the rest is the loop followed by the checkpoint. *)
Lemma settling_main_unfold (fuel : nat) (fs : FileSystem)
  (args : Args T P) (params : Params T P) (tr : list Eff) (out_steps : Z) :
  argc args = 5 ->
  parsed_json args = Some params ->
  run_mode args = SETTLING ->
  compute_out_steps (step_size params) = Some out_steps ->
  exists w,
    world_ok w /\ wheel_bodies w = [1; 2; 3; 4; 5; 6]%nat /\ currframe w = 0
    /\ chassis_fixed w = true /\ chassis_held w /\ meshes_match w
    /\ gpu_mesh_collision (gpu_sys w) = false
    /\ main fuel fs args tr
       = (let* run := coupling_loop fuel (output_dir params) (step_size params)
                        time_settling out_steps Ieee.fzero 0 w in
          emit (WriteFile (checkpoint_file_base args)
                          (SetOutputMode CSV (gpu_sys (fst run)))) ;;;
          emit (Print MsgTime) ;;;
          ret (0, snd run)) (tr ++ settling_prelude args params).
Proof.
  intros Hargc Hjson Hmode Hsteps.
  set (G := gravity (input_grav_angle_deg args)).
  set (tr1 := tr ++ [Print (MsgGravity (input_grav_angle_deg args)
                              (vec_x G) (vec_y G) (vec_z G))]).
  assert (Hinit : exists pts, initial_particles fs args params tr1 = (tr1, Done pts)).
  { unfold initial_particles. rewrite Hmode. eexists. reflexivity. }
  destruct Hinit as (pts & Hinit).
  destruct (setup_shape fs args params G tr1 tr1 pts Hinit)
    as (tr2 & w & Hsetup & Hok & Hfix & Hheld & Hmesh & Hcf & _ & Hwheels & _).
  destruct (setup_trace fs args params G tr1 tr1 pts Hinit) as (w' & Htrace).
  rewrite Hsetup in Htrace. injection Htrace as -> _.
  exists (with_gpu (EnableMeshCollision false (gpu_sys w)) w).
  split; [exact Hok |]. split; [exact Hwheels |]. split; [exact Hcf |].
  split; [exact Hfix |]. split; [exact Hheld |]. split; [exact Hmesh |].
  split; [reflexivity |].
  unfold main. rewrite Hargc, Hjson. cbn [Z.eqb Pos.eqb].
  fold G. unfold bind at 1. unfold emit at 1. fold tr1.
  erewrite bind_step by exact Hsetup. rewrite Hsteps.
  unfold select_phase. rewrite Hmode. cbn [Z.eqb SETTLING fst snd].
  unfold bind at 1. unfold emit at 1. unfold bind at 1. unfold emit at 1.
  unfold settling_prelude, tr1. fold G.
  rewrite <- !app_assoc. cbn [app]. reflexivity.
Qed.

(** A SETTLING run that terminates, cut at its three parts. *)
Lemma settling_main_shape `{!RigidSolverLaws T Y} (fuel : nat) (fs : FileSystem)
  (args : Args T P) (params : Params T P) (tr : list Eff) (out_steps : Z) :
  argc args = 5 ->
  parsed_json args = Some params ->
  run_mode args = SETTLING ->
  compute_out_steps (step_size params) = Some out_steps ->
  out_steps <> 0 ->
  (String.length (output_dir params) <= 88)%nat ->
  Z.of_nat fuel < 1000 ->
  loop_times (S fuel) Ieee.fzero (step_size params) time_settling
  = loop_times fuel Ieee.fzero (step_size params) time_settling ->
  exists tr0 w wend steps,
    main fuel fs args tr
    = (tr0 ++ [WriteFile (checkpoint_file_base args) (SetOutputMode CSV (gpu_sys wend));
               Print MsgTime],
       Done (0, steps))
    /\ coupling_loop fuel (output_dir params) (step_size params) time_settling
         out_steps Ieee.fzero 0 w (tr ++ settling_prelude args params)
       = (tr0, Done (wend, steps))
    /\ world_ok w /\ currframe w = 0
    /\ wend = default w (sr_end <$> last steps)
    /\ map sr_t steps = loop_times fuel Ieee.fzero (step_size params) time_settling.
Proof.
  intros Hargc Hjson Hmode Hsteps Hnz Hdir Hfuel Hstop.
  destruct (settling_main_unfold fuel fs args params tr out_steps Hargc Hjson Hmode Hsteps)
    as (w & Hok & _ & Hcf & _ & _ & _ & _ & Hmain).
  pose proof (coupling_loop_total (output_dir params) (step_size params) time_settling
                out_steps _ Hnz Hdir fuel Ieee.fzero 0 w
                (tr ++ settling_prelude args params) Hok) as Hdone.
  rewrite Hcf in Hdone. specialize (Hdone ltac:(lia) ltac:(lia) Hstop).
  pose proof (coupling_loop_length _ _ _ _ _ _ _ _ _ Hdone) as Hmap.
  destruct (completed_loop _ _ _ _ _ _ _ _ _ Hdone) as (tr3 & wend & Hloop).
  rewrite Hloop in Hmap. cbn [steps_of snd] in Hmap.
  set (steps := steps_of _) in *.
  exists tr3, w, wend, steps. split.
  - rewrite Hmain. erewrite bind_step by exact Hloop.
    cbn [fst snd]. unfold bind, emit, ret. rewrite <- app_assoc. reflexivity.
  - split; [exact Hloop |]. split; [exact Hok |]. split; [exact Hcf |].
    split; [exact (coupling_loop_last _ _ _ _ _ _ _ _ _ _ _ _ Hloop) |].
    exact Hmap.
Qed.

(** X2. A SETTLING run whose loop header stops within the fuel, with an
    output interval that is not zero and fewer than 1000 turns, returns 0:
    the loop makes one turn per time of its header, and the last two
    effects of the program are the terrain snapshot written to
    [checkpoint_file_base] with the output mode set to CSV, whatever the
    mode of the parameter file, and the time message. The snapshot holds
    the terrain system as the last turn left it. *)
Theorem settling_main_returns_zero `{!RigidSolverLaws T Y} (fuel : nat)
  (fs : FileSystem) (args : Args T P) (params : Params T P) (tr : list Eff)
  (out_steps : Z) :
  argc args = 5 ->
  parsed_json args = Some params ->
  run_mode args = SETTLING ->
  compute_out_steps (step_size params) = Some out_steps ->
  out_steps <> 0 ->
  (String.length (output_dir params) <= 88)%nat ->
  Z.of_nat fuel < 1000 ->
  loop_times (S fuel) Ieee.fzero (step_size params) time_settling
  = loop_times fuel Ieee.fzero (step_size params) time_settling ->
  exists tr0 g steps,
    main fuel fs args tr
    = (tr0 ++ [WriteFile (checkpoint_file_base args) g; Print MsgTime], Done (0, steps))
    /\ gpu_output_mode g = CSV
    /\ map sr_t steps = loop_times fuel Ieee.fzero (step_size params) time_settling
    /\ (forall s, last steps = Some s -> g = SetOutputMode CSV (gpu_sys (sr_end s))).
Proof.
  intros Hargc Hjson Hmode Hsteps Hnz Hdir Hfuel Hstop.
  destruct (settling_main_shape fuel fs args params tr out_steps Hargc Hjson Hmode
              Hsteps Hnz Hdir Hfuel Hstop)
    as (tr0 & w & wend & steps & Hmain & _ & _ & _ & Hend & Hmap).
  exists tr0, (SetOutputMode CSV (gpu_sys wend)), steps.
  split; [exact Hmain |]. split; [reflexivity |]. split; [exact Hmap |].
  intros s Hs. rewrite Hend, Hs. reflexivity.
Qed.

End WholeRuns.

Lemma settling_times_at_0_005 :
  compute_out_steps Reference.h_0_005 = Some 4
  /\ loop_times 203 Ieee.fzero Reference.h_0_005 time_settling
     = loop_times 202 Ieee.fzero Reference.h_0_005 time_settling
  /\ length (loop_times 202 Ieee.fzero Reference.h_0_005 time_settling) = 201%nat.
Proof. vm_compute. repeat split; reflexivity. Qed.

Lemma settling_main_witness :
  exists tr0 g steps,
    main (T := R) (TS := Reference.still_terrain) (RS := Reference.frozen_rigid)
      202 Reference.no_files (Reference.demo_args SETTLING Reference.h_0_005) []
    = (tr0 ++ [WriteFile "settled"%string g; Print MsgTime], Done (0, steps))
    /\ gpu_output_mode g = CSV
    /\ length steps = 201%nat.
Proof.
  destruct settling_times_at_0_005 as (Hos & Hstop & Hlen).
  destruct (settling_main_returns_zero (T := R) (TS := Reference.still_terrain)
              (RS := Reference.frozen_rigid) (RigidSolverLaws0 := frozen_rigid_laws)
              202 Reference.no_files (Reference.demo_args SETTLING Reference.h_0_005)
              (Reference.demo_params Reference.h_0_005) [] 4
              eq_refl eq_refl eq_refl Hos ltac:(discriminate) ltac:(cbn; lia)
              ltac:(reflexivity) Hstop)
    as (tr0 & g & steps & Hmain & Hg & Hmap & _).
  exists tr0, g, steps. split; [exact Hmain |]. split; [exact Hg |].
  rewrite <- (length_map sr_t), Hmap. exact Hlen.
Defined.

(** ** The effects of a run *)

Section Traces.
Context {T P X Y : Type} {RT : Real T} {TS : TerrainSolver T P X}
  {RS : RigidSolver T Y}.

Local Abbreviation Eff := (IO T (ChSystemGpuMesh T P X)).

Lemma frame_rows_trace offset (rover : ChSystemNSC T Y) wheels :
  forall (tr tr' : list Eff) rows,
    mapM (fun handle =>
            let* b := get_body rover handle in
            writeMeshFrames offset b wheel_filename wheel_scaling) wheels tr
    = (tr', Done rows) ->
    exists evs, tr' = tr ++ evs
                /\ Forall (fun e => exists q, e = Print (MsgRot q)) evs
                /\ length evs = length wheels.
Proof.
  induction wheels as [| handle rest IH]; intros tr tr' rows; cbn [mapM].
  - intros [= <- <-]. exists []. rewrite app_nil_r. auto.
  - intros H. apply bind_Done in H as (row & tr1 & Hrow & H).
    apply bind_Done in H as (rows' & tr2 & Hrows & H). injection H as <- <-.
    apply bind_Done in Hrow as (b & tr0 & Hb & Hrow).
    apply get_body_Done in Hb as (-> & _).
    rewrite writeMeshFrames_row in Hrow. injection Hrow as <- _.
    destruct (IH _ _ _ Hrows) as (evs & -> & Hall & Hlen).
    exists (Print (MsgRot (body_rot b)) :: evs).
    rewrite <- app_assoc. split; [reflexivity |].
    split; [constructor; eauto | cbn; lia].
Qed.

(** What one recorded frame prints and writes. *)
Lemma record_frame_trace dir f t (w : World T P X Y) (tr tr' : list Eff) res :
  record_frame dir f t w tr = (tr', Done res) ->
  exists evs,
    tr' = tr ++ [Print (MsgRenderingFrame (currframe w)); Print (MsgWheelForces f);
                 Print (MsgWheelTorques t);
                 WriteFile (dir ++ "/step" ++ pad6 (currframe w)) (gpu_sys w)]
             ++ evs
             ++ [WriteMeshFile ((dir ++ "/step" ++ pad6 (currframe w))
                                ++ "_meshframes.csv") (snd res)]
    /\ Forall (fun e => exists q, e = Print (MsgRot q)) evs
    /\ length evs = S (length (wheel_bodies w)).
Proof.
  unfold record_frame. intros Hr.
  apply bind_Done in Hr as ([] & tr1 & [= <-] & Hr).
  apply bind_Done in Hr as ([] & tr2 & [= <-] & Hr).
  apply bind_Done in Hr as ([] & tr3 & [= <-] & Hr).
  apply bind_Done in Hr as (name & tr4 & Hname & Hr).
  unfold frame_filename in Hname.
  destruct (String.length (dir ++ "/step" ++ pad6 (currframe w)) <? 100)%nat;
    [| discriminate Hname].
  injection Hname as <- <-.
  apply bind_Done in Hr as ([] & tr5 & [= <-] & Hr).
  apply bind_Done in Hr as (rows & tr6 & Hrows & Hr).
  apply frame_rows_trace in Hrows as (evs & -> & Hall & Hlen).
  apply bind_Done in Hr as (cb & tr7 & Hcb & Hr).
  apply get_body_Done in Hcb as (-> & _).
  apply bind_Done in Hr as (crow & tr8 & Hcrow & Hr).
  rewrite writeMeshFrames_row in Hcrow. injection Hcrow as <- _.
  apply bind_Done in Hr as ([] & tr9 & [= <-] & Hr).
  injection Hr as <- <-. cbn [snd].
  exists (evs ++ [Print (MsgRot (body_rot cb))]).
  split; [rewrite <- !app_assoc; reflexivity |].
  split; [apply Forall_app; split; [exact Hall | constructor; eauto] |].
  rewrite length_app. cbn. lia.
Qed.

Lemma rot_prints_silent (evs : list Eff) :
  Forall (fun e => exists q, e = Print (MsgRot q)) evs ->
  written_paths evs = [] /\ advances evs = [].
Proof.
  induction 1 as [| e evs [q ->] _ [IH1 IH2]]; [split; reflexivity |].
  unfold written_paths, advances in *. cbn. auto.
Qed.

Lemma written_paths_app (a b : list Eff) :
  written_paths (a ++ b) = written_paths a ++ written_paths b.
Proof. apply omap_app. Qed.

Lemma advances_app (a b : list Eff) : advances (a ++ b) = advances a ++ advances b.
Proof. apply omap_app. Qed.

(** What one turn of the loop does to the outside: both solvers are
    advanced, and a turn that records a frame writes its two files. *)
Lemma loop_body_trace dir h out_steps t cs (w : World T P X Y)
  (tr tr' : list Eff) s :
  loop_body dir h out_steps t cs w tr = (tr', Done s) ->
  advances tr' = advances tr ++ [(Terrain, h); (Rigid, h)]
  /\ written_paths tr'
     = written_paths tr
       ++ (if sr_frame s is Some _ then frame_files dir (currframe w) else [])
  /\ currframe (sr_end s) = currframe w + (if sr_frame s is Some _ then 1 else 0).
Proof.
  intros Hb.
  destruct (loop_body_Done _ _ _ _ _ _ _ _ _ Hb)
    as (tr1 & c & _ & _ & _ & _ & Hrel & _ & Hadv & _ & Hcol & Hend).
  apply release_chassis_Done in Hrel as (_ & _ & _ & Hcf & _ & Hkeep & Hfree).
  assert (Htr1 : advances tr1 = advances tr /\ written_paths tr1 = written_paths tr).
  { destruct (chassis_fixed w && past_settling t).
    - destruct (Hfree eq_refl) as (_ & _ & ->).
      rewrite advances_app, written_paths_app. cbn. rewrite !app_nil_r. auto.
    - destruct (Hkeep eq_refl) as (_ & ->). auto. }
  destruct Htr1 as [Ha Hp].
  assert (Hcc : currframe (sr_collected s) = currframe w).
  { rewrite Hcol, Hadv. cbn. exact Hcf. }
  destruct Hend as [(_ & rows & Hrec & Hfr) | (_ & He & Hfr & Htr)].
  - pose proof (record_frame_Done _ _ _ _ _ _ _ Hrec) as [Hfst _]. cbn [fst] in Hfst.
    apply record_frame_trace in Hrec as (evs & Htr & Hall & _).
    destruct (rot_prints_silent evs Hall) as [Hp0 Ha0].
    rewrite Hfr, Htr, Hfst.
    rewrite !advances_app, !written_paths_app, Ha, Hp, Ha0, Hp0, Hcc.
    split; [cbn; rewrite app_nil_r; reflexivity |].
    split; [rewrite <- app_assoc; reflexivity | reflexivity].
  - rewrite Hfr, Htr, He, advances_app, written_paths_app, Ha, Hp, Hcc.
    split; [reflexivity |]. split; [cbn; rewrite app_nil_r; reflexivity | lia].
Qed.

Lemma frame_paths_S dir first count :
  frame_paths dir first (S count)
  = frame_files dir first ++ frame_paths dir (first + 1) count.
Proof.
  unfold frame_paths. cbn [seq flat_map]. rewrite Z.add_0_r. f_equal.
  rewrite <- seq_shift, flat_map_concat_map, map_map, <- flat_map_concat_map.
  apply flat_map_ext. intros j. f_equal. lia.
Qed.

(** The effects of the whole loop. *)
Lemma coupling_loop_trace dir h time_end out_steps fuel :
  forall t cs (w : World T P X Y) (tr tr' : list Eff) w' steps,
    coupling_loop fuel dir h time_end out_steps t cs w tr = (tr', Done (w', steps)) ->
    advances tr' = advances tr ++ flat_map (fun _ => [(Terrain, h); (Rigid, h)]) steps
    /\ written_paths tr'
       = written_paths tr ++ frame_paths dir (currframe w) (recorded_frames steps)
    /\ currframe w' = currframe w + Z.of_nat (recorded_frames steps).
Proof.
  induction fuel as [| fuel IH]; intros t cs w tr tr' w' steps; cbn [coupling_loop].
  - destruct (loop_continues t time_end); [discriminate |].
    intros [= <- <- <-]. unfold recorded_frames, frame_paths. cbn.
    rewrite !app_nil_r. split; [reflexivity |]. split; [reflexivity | lia].
  - destruct (loop_continues t time_end);
      [| intros [= <- <- <-]; unfold recorded_frames, frame_paths; cbn;
         rewrite !app_nil_r; split; [reflexivity |]; split; [reflexivity | lia]].
    intros H. apply bind_Done in H as (s & tr1 & Hs & H).
    apply bind_Done in H as ([w2 rest] & tr2 & Hrest & H).
    injection H as <- <- <-. cbn [fst snd].
    destruct (loop_body_trace _ _ _ _ _ _ _ _ _ Hs) as (Ha & Hp & Hc).
    destruct (IH _ _ _ _ _ _ _ Hrest) as (Ha' & Hp' & Hc').
    rewrite Ha', Ha, Hp', Hp, Hc', Hc. cbn [flat_map]. rewrite <- !app_assoc.
    unfold recorded_frames.
    destruct (sr_frame s) as [rows |] eqn:Hfr.
    + rewrite filter_cons_True by (rewrite Hfr; eauto). cbn [length].
      rewrite frame_paths_S.
      split; [reflexivity |]. split; [reflexivity | lia].
    + rewrite filter_cons_False by (rewrite Hfr; intros [? ?]; discriminate).
      rewrite Z.add_0_r. split; [reflexivity |]. split; [reflexivity | lia].
Qed.

End Traces.

Section RunFacts.
Context {T P X Y : Type} {RT : Real T} {TS : TerrainSolver T P X}
  {RS : RigidSolver T Y}.

Local Abbreviation Eff := (IO T (ChSystemGpuMesh T P X)).

(** X4. In a run of the coupling loop that ends, the two solvers are
    advanced in lockstep: for every turn of the loop the terrain solver is
    advanced once and then the rigid solver once, both by the same step
    size [iteration_step], and no solver is advanced anywhere else. *)
Theorem solvers_advance_in_lockstep fuel dir h time_end out_steps t cs
  (w : World T P X Y) (tr : list Eff) :
  completed (coupling_loop fuel dir h time_end out_steps t cs w tr) = true ->
  advances (fst (coupling_loop fuel dir h time_end out_steps t cs w tr))
  = advances tr
    ++ flat_map (fun _ => [(Terrain, h); (Rigid, h)])
         (steps_of (coupling_loop fuel dir h time_end out_steps t cs w tr)).
Proof.
  intros Hdone. destruct (completed_loop _ _ _ _ _ _ _ _ _ Hdone) as (tr' & w' & Hloop).
  rewrite Hloop at 1. cbn [fst].
  exact (proj1 (coupling_loop_trace _ _ _ _ _ _ _ _ _ _ _ _ Hloop)).
Qed.

(** X5. The files a run of the coupling loop writes are the two files of
    each recorded frame, the terrain snapshot [dir/stepNNNNNN] and then
    [dir/stepNNNNNN_meshframes.csv], with the frame numbers consecutive
    from the initial value of the frame counter, in this order: no number
    is skipped and none is used twice. The frame counter ends at its
    initial value plus the number of recorded frames. *)
Theorem frame_files_numbered_consecutively fuel dir h time_end out_steps t cs
  (w : World T P X Y) (tr : list Eff) :
  completed (coupling_loop fuel dir h time_end out_steps t cs w tr) = true ->
  written_paths (fst (coupling_loop fuel dir h time_end out_steps t cs w tr))
  = written_paths tr
    ++ frame_paths dir (currframe w)
         (recorded_frames (steps_of (coupling_loop fuel dir h time_end out_steps
                                       t cs w tr)))
  /\ forall s,
       last (steps_of (coupling_loop fuel dir h time_end out_steps t cs w tr)) = Some s ->
       currframe (sr_end s)
       = currframe w
         + Z.of_nat (recorded_frames
                       (steps_of (coupling_loop fuel dir h time_end out_steps t cs w tr))).
Proof.
  intros Hdone. destruct (completed_loop _ _ _ _ _ _ _ _ _ Hdone) as (tr' & w' & Hloop).
  destruct (coupling_loop_trace _ _ _ _ _ _ _ _ _ _ _ _ Hloop) as (_ & Hp & Hc).
  split.
  - rewrite Hloop at 1. cbn [fst]. exact Hp.
  - intros s Hs. rewrite <- Hc.
    rewrite (coupling_loop_last _ _ _ _ _ _ _ _ _ _ _ _ Hloop), Hs. reflexivity.
Qed.

Lemma next_multiple_count (a n : Z) :
  0 <= a -> 0 < n ->
  (a + n) / n = (a + n - 1) / n + (if a mod n =? 0 then 1 else 0).
Proof.
  intros Ha Hn.
  pose proof (Z.div_mod a n ltac:(lia)) as Hdm.
  pose proof (Z.mod_pos_bound a n Hn) as Hr.
  assert (H1 : (a + n) / n = a / n + 1).
  { symmetry. apply (Z.div_unique _ _ _ (a mod n)); lia. }
  destruct (Z.eqb_spec (a mod n) 0) as [E | N].
  - assert ((a + n - 1) / n = a / n).
    { symmetry. apply (Z.div_unique _ _ _ (n - 1)); lia. }
    lia.
  - assert ((a + n - 1) / n = a / n + 1).
    { symmetry. apply (Z.div_unique _ _ _ (a mod n - 1)); lia. }
    lia.
Qed.

(** The frame counter at the beginning of each turn, for a run that
    starts at step number [cs]. *)
Lemma run_from_currframe dir h out_steps (w : World T P X Y) t cs steps :
  run_from dir h out_steps w t cs steps ->
  0 < out_steps -> 0 <= cs -> cs + Z.of_nat (length steps) <= 2 ^ 32 ->
  forall k s, steps !! k = Some s ->
    currframe (sr_begin s)
    = currframe w + ((cs + Z.of_nat k + out_steps - 1) / out_steps
                     - (cs + out_steps - 1) / out_steps)
    /\ sr_curr_step s = cs + Z.of_nat k
    /\ (is_Some (sr_frame s) <-> (cs + Z.of_nat k) mod out_steps = 0).
Proof.
  intros Hrun Hn. induction Hrun as [| w t cs s rest Hs Hw Ht Hcs Hrun IH];
    intros Hcs0 Hlen k s' Hk; [discriminate Hk |].
  cbn [length] in Hlen.
  assert (Hcad : is_Some (sr_frame s) <-> cs mod out_steps = 0).
  { destruct (step_worlds _ _ _ _ Hs) as (_ & _ & _ & _ & _ & _ & _ & n & Hc & _).
    rewrite Hcs in Hc. unfold cadence_check in Hc.
    destruct (Z.eqb_spec out_steps 0); [lia |]. injection Hc as Hc.
    split.
    - intros Hf. rewrite bool_decide_eq_true_2 in Hc by exact Hf.
      by apply Z.eqb_eq.
    - intros Hm. apply Z.eqb_eq in Hm. rewrite Hm in Hc. symmetry in Hc.
      by apply bool_decide_eq_true in Hc. }
  destruct k as [| k].
  - injection Hk as <-. rewrite Hw, Hcs, Z.add_0_r.
    split; [lia |]. split; [lia | exact Hcad].
  - cbn in Hk.
    assert (Hlt : cs + 1 < 2 ^ 32).
    { apply lookup_lt_Some in Hk. lia. }
    assert (Hnext : next_step cs = cs + 1).
    { unfold next_step. apply Z.mod_small. lia. }
    rewrite Hnext in IH.
    destruct (IH ltac:(lia) ltac:(lia) k s' Hk) as (Hc' & Hcs' & Hf').
    replace (cs + 1 + Z.of_nat k) with (cs + Z.of_nat (S k)) in * by lia.
    split; [| split; [exact Hcs' | exact Hf']].
    rewrite Hc'.
    destruct Hs as (tr0 & tr1 & Hbody).
    destruct (loop_body_trace _ _ _ _ _ _ _ _ _ Hbody) as (_ & _ & Hend).
    rewrite Hend, Hw.
    pose proof (next_multiple_count cs out_steps Hcs0 Hn) as Hcount.
    replace (cs + 1 + out_steps - 1) with (cs + out_steps) by lia.
    destruct (sr_frame s) as [rows |] eqn:Hfr.
    + assert (Hm : cs mod out_steps = 0) by (apply Hcad; eauto).
      rewrite Hm in Hcount. cbn in Hcount. lia.
    + assert (Hm : cs mod out_steps <> 0).
      { intros Hm. apply Hcad in Hm as [? ?]. discriminate. }
      apply Z.eqb_neq in Hm. rewrite Hm in Hcount. lia.
Qed.

(** X6. In a run that ends, started at step number 0 with an output
    interval [out_steps] of at least one: when turn [k] begins, the frame
    counter has advanced by the number of multiples of [out_steps] below
    [k], and the frame recorded at a turn [k] (a multiple of [out_steps])
    has the number [k / out_steps]. *)
Theorem frame_number_of_turn fuel dir h time_end out_steps t
  (w : World T P X Y) (tr : list Eff) :
  0 < out_steps ->
  completed (coupling_loop fuel dir h time_end out_steps t 0 w tr) = true ->
  forall k s,
    steps_of (coupling_loop fuel dir h time_end out_steps t 0 w tr) !! k = Some s ->
    Z.of_nat k < 2 ^ 32 ->
    currframe (sr_begin s) = currframe w + (Z.of_nat k + out_steps - 1) / out_steps
    /\ (is_Some (sr_frame s) ->
        currframe (sr_begin s) = currframe w + Z.of_nat k / out_steps
        /\ currframe (sr_end s) = currframe w + Z.of_nat k / out_steps + 1).
Proof.
  intros Hn Hdone k s Hk Hlt.
  destruct (completed_loop _ _ _ _ _ _ _ _ _ Hdone) as (tr' & w' & Hloop).
  destruct (coupling_loop_Done _ _ _ _ _ _ _ _ _ _ _ _ Hloop) as (Hrun & _).
  set (steps := steps_of _) in *.
  assert (Htake : run_from dir h out_steps w t 0 (take (S k) steps)).
  { clear - Hrun. revert k. induction Hrun as [| w t cs s rest Hs Hw Ht Hcs Hrun IH];
      intros k; [constructor |].
    cbn [take]. econstructor; eauto. destruct k; [constructor | apply IH]. }
  assert (Hk' : take (S k) steps !! k = Some s).
  { rewrite lookup_take_lt by lia. exact Hk. }
  destruct (run_from_currframe _ _ _ _ _ _ _ Htake Hn ltac:(lia)
              ltac:(rewrite length_take; lia) k s Hk') as (Hc & _ & Hf).
  replace ((0 + out_steps - 1) / out_steps) with 0 in Hc
    by (symmetry; apply Z.div_small; lia).
  rewrite !Z.add_0_l in *. rewrite Z.sub_0_r in Hc.
  split; [exact Hc |].
  intros Hfr. apply Hf in Hfr as Hm.
  assert (Hq : (Z.of_nat k + out_steps - 1) / out_steps = Z.of_nat k / out_steps).
  { symmetry. apply (Z.div_unique _ _ _ (out_steps - 1)); [lia |].
    pose proof (Z.div_mod (Z.of_nat k) out_steps ltac:(lia)). lia. }
  split; [rewrite Hc, Hq; reflexivity |].
  assert (Hstep : is_step dir h out_steps s).
  { clear - Hrun Hk. revert k Hk.
    induction Hrun as [| w t cs s0 rest Hs Hw Ht Hcs Hrun IH]; intros k Hk;
      [discriminate Hk |].
    destruct k; [injection Hk as <-; exact Hs | exact (IH k Hk)]. }
  destruct Hstep as (tr0 & tr1 & Hbody).
  destruct (loop_body_trace _ _ _ _ _ _ _ _ _ Hbody) as (_ & _ & Hend).
  rewrite Hend, Hc, Hq. destruct Hfr as [rows ->]. reflexivity.
Qed.

(** X7. The loop counts time in a [float]: when the step size is so
    small against the time reached that adding it leaves the [float]
    unchanged, and that time is still before [time_end], the time never
    advances again and the loop does not end, whatever the fuel. *)
Theorem stalled_time_never_ends dir h time_end out_steps t :
  next_time t h = t ->
  loop_continues t time_end = true ->
  forall fuel cs (w : World T P X Y) (tr : list Eff),
    completed (coupling_loop fuel dir h time_end out_steps t cs w tr) = false.
Proof.
  intros Hstall Hcont. induction fuel as [| fuel IH]; intros cs w tr;
    cbn [coupling_loop]; rewrite Hcont; [reflexivity |].
  unfold bind at 1.
  destruct (loop_body dir h out_steps t cs w tr) as [tr1 [s | | | | |]];
    try reflexivity.
  rewrite Hstall. specialize (IH (next_step cs) (sr_end s) tr1).
  unfold completed, bind in *.
  destruct (coupling_loop fuel dir h time_end out_steps t (next_step cs) (sr_end s) tr1)
    as [tr2 [[w2 rest] | | | | |]]; [discriminate IH | reflexivity ..].
Qed.

(** An output interval of zero: the cadence check of the first turn is a
    modulo by zero. *)
Lemma loop_body_zero_interval dir h t cs (w : World T P X Y) (tr : list Eff) :
  completed (loop_body dir h 0 t cs w tr) = false.
Proof.
  destruct (loop_body dir h 0 t cs w tr) as [tr' [s | | | | |]] eqn:Hb;
    try reflexivity.
  destruct (loop_body_Done _ _ _ _ _ _ _ _ _ Hb)
    as (_ & _ & _ & _ & _ & _ & _ & _ & _ & _ & _ & [(Hc & _) | (Hc & _)]);
    discriminate Hc.
Qed.

Lemma coupling_loop_zero_interval fuel dir h time_end t cs (w : World T P X Y)
  (tr : list Eff) :
  loop_continues t time_end = true ->
  completed (coupling_loop fuel dir h time_end 0 t cs w tr) = false.
Proof.
  intros Hcont. destruct fuel as [| fuel]; cbn [coupling_loop]; rewrite Hcont;
    [reflexivity |].
  pose proof (loop_body_zero_interval dir h t cs w tr) as Hb.
  unfold bind at 1.
  destruct (loop_body dir h 0 t cs w tr) as [tr1 [s | | | | |]];
    [discriminate Hb | reflexivity ..].
Qed.

End RunFacts.

(** ** A step size too coarse for the output rate *)

Section CoarseStep.
Context {T P X Y : Type} {RT : Real T} {TS : TerrainSolver T P X}
  {RS : RigidSolver T Y} {LM : Libm T}.

Local Abbreviation Eff := (IO T (ChSystemGpuMesh T P X)).

(** With an output interval of zero, a turn of the loop advances both
    solvers and then takes a remainder modulo zero. *)
Lemma loop_body_zero_interval_result `{!RigidSolverLaws T Y} dir h t cs
  (w : World T P X Y) (tr : list Eff) :
  world_ok w ->
  chassis_fixed w && past_settling t = false ->
  loop_body dir h 0 t cs w tr
  = (tr ++ [Advance Terrain h; Advance Rigid h], Undefined "modulo by zero").
Proof.
  intros (Hcok & Hwok & _) Hheld. unfold loop_body.
  assert (Hrel : release_chassis t w tr = (tr, Done w)).
  { unfold release_chassis. rewrite Hheld. reflexivity. }
  erewrite bind_step by exact Hrel.
  destruct (push_wheel_motion_total (wheel_bodies w) 0 (rover_sys w) (gpu_sys w)
              tr Hwok) as (pushed & Hpush).
  erewrite bind_step by exact Hpush.
  do 2 (erewrite bind_step by reflexivity).
  match goal with
  | |- context [bind (collect_wheel_forces 0 ?ws ?g ?r ?f0 ?t0) _ ?tr0] =>
      destruct (collect_wheel_forces_total ws 0 g r f0 t0 tr0) as (c & Hcol)
  end.
  { cbn. rewrite step_length. exact Hwok. }
  erewrite bind_step by exact Hcol.
  cbn [cadence_check Z.eqb stop]. rewrite <- app_assoc. reflexivity.
Qed.

(** X8. When the product [out_fps * step_size] exceeds one, a SETTLING
    run does not survive its first turn: after the set-up it advances the
    terrain solver and the rigid solver once, then the cadence check takes
    a remainder modulo zero, which is undefined. No frame and no
    checkpoint is written. *)
Theorem coarse_step_breaks_first_turn `{!RigidSolverLaws T Y} (fuel : nat)
  (fs : FileSystem) (args : Args T P) (params : Params T P) (tr : list Eff) :
  argc args = 5 ->
  parsed_json args = Some params ->
  run_mode args = SETTLING ->
  valid_binary 53 1024 (Ieee.dmul (Ieee.d_of_Z out_fps) (step_size params)) = true ->
  Ieee.dltb (Ieee.d_of_Z 1) (Ieee.dmul (Ieee.d_of_Z out_fps) (step_size params)) = true ->
  main (S fuel) fs args tr
  = (tr ++ settling_prelude args params
        ++ [Advance Terrain (step_size params); Advance Rigid (step_size params)],
     Undefined "modulo by zero").
Proof.
  intros Hargc Hjson Hmode Hvalid Hgt.
  pose proof (compute_out_steps_above_one _ Hvalid Hgt) as Hzero.
  destruct (settling_main_unfold (S fuel) fs args params tr 0 Hargc Hjson Hmode Hzero)
    as (w & Hok & _ & _ & Hfix & _ & _ & _ & ->).
  cbn [coupling_loop].
  change (loop_continues Ieee.fzero time_settling) with true. cbn match.
  unfold bind at 1. unfold bind at 1.
  rewrite (loop_body_zero_interval_result _ _ _ _ _ _ Hok)
    by (rewrite Hfix; reflexivity).
  rewrite <- app_assoc. reflexivity.
Qed.

End CoarseStep.

Lemma coarse_step_witness :
  main (T := R) (TS := Reference.still_terrain) (RS := Reference.frozen_rigid)
    1 Reference.no_files (Reference.demo_args SETTLING Reference.h_0_03) []
  = (settling_prelude (Reference.demo_args SETTLING Reference.h_0_03)
       (Reference.demo_params Reference.h_0_03)
       ++ [Advance Terrain Reference.h_0_03; Advance Rigid Reference.h_0_03],
     Undefined "modulo by zero").
Proof.
  apply (coarse_step_breaks_first_turn (T := R) (TS := Reference.still_terrain)
           (RS := Reference.frozen_rigid) (RigidSolverLaws0 := frozen_rigid_laws)
           0 Reference.no_files (Reference.demo_args SETTLING Reference.h_0_03)
           (Reference.demo_params Reference.h_0_03) []);
    reflexivity.
Defined.

(** ** Checkpoint lines that are not three numbers *)

Lemma string_append_assoc (a b c : string) :
  ((a ++ b) ++ c)%string = (a ++ b ++ c)%string.
Proof. induction a as [| x a IH]; cbn; [reflexivity | by rewrite IH]. Qed.

(** [parse_point] only converts: its result does not depend on what was
    done before, and it leaves no trace. *)
Lemma parse_point_pure {E} (line : string) (tr : list E) :
  parse_point line tr = (tr, point_of_line line).
Proof.
  unfold point_of_line, parse_point, bind, stop, ret.
  destruct (read_field line) as [f0 | | | | |]; [| reflexivity ..].
  destruct (read_field (snd f0)) as [f1 | | | | |]; [| reflexivity ..].
  destruct (read_field (snd f1)) as [f2 | | | | |]; reflexivity.
Qed.

Lemma mapM_parse_all {E} (lines : list string) (pts : list (ChVector Ieee.float))
  (tr : list E) :
  map point_of_line lines = map Done pts ->
  mapM parse_point lines tr = (tr, Done pts).
Proof.
  revert pts. induction lines as [| l lines IH]; intros [| p pts]; cbn [map mapM];
    try discriminate; [reflexivity |].
  intros [= Hl Hrest]. unfold bind at 1. rewrite parse_point_pure, Hl.
  unfold bind at 1. rewrite (IH pts Hrest). reflexivity.
Qed.

Lemma mapM_parse_ext {E} (lines lines' : list string) (tr : list E) :
  map point_of_line lines = map point_of_line lines' ->
  mapM parse_point lines tr = mapM parse_point lines' tr.
Proof.
  revert lines'. induction lines as [| l lines IH]; intros [| l' lines']; cbn [map mapM];
    try discriminate; [reflexivity |].
  intros [= Hl Hrest]. unfold bind at 1 3. rewrite !parse_point_pure, Hl.
  destruct (point_of_line l'); try reflexivity.
  unfold bind. rewrite (IH lines' Hrest). reflexivity.
Qed.

Lemma mapM_parse_stops {E} (good : list string) (line : string) (rest : list string)
  (s : string) (tr : list E) :
  forallb line_parses good = true ->
  point_of_line line = Throw s ->
  mapM parse_point (good ++ line :: rest) tr = (tr, Throw s).
Proof.
  intros Hgood Hbad. induction good as [| l good IH]; cbn [app mapM].
  - unfold bind. rewrite parse_point_pure, Hbad. reflexivity.
  - cbn [forallb] in Hgood. apply andb_true_iff in Hgood as [Hl Hgood].
    unfold bind at 1. rewrite parse_point_pure. unfold line_parses in Hl.
    destruct (point_of_line l); try discriminate.
    unfold bind at 1. rewrite (IH Hgood). reflexivity.
Qed.

Lemma read_field_comma (a r : string) :
  no_comma a -> read_field (a ++ String "," r) = field_result a r.
Proof.
  intros Ha. unfold read_field, field_result.
  rewrite (find_first_comma _ r Ha).
  cbn [substr0 erase0]. rewrite substring_prefix, substring_after. reflexivity.
Qed.

Lemma read_field_no_comma (a : string) :
  no_comma a -> read_field a = field_result a a.
Proof.
  intros Ha. unfold read_field, field_result.
  rewrite (find_no_comma _ Ha). reflexivity.
Qed.

Lemma point_of_line_extra (f : string * string * string) (more : string) :
  fields_no_comma f ->
  point_of_line (line_of_fields f ++ "," ++ more) = point_of_line (line_of_fields f).
Proof.
  destruct f as [[a b] c]. unfold fields_no_comma, line_of_fields. cbn [fst snd].
  intros (Ha & Hb & Hc).
  unfold point_of_line, parse_point, bind, stop, ret.
  rewrite !string_append_assoc. cbn [append].
  rewrite !(read_field_comma a _ Ha). unfold field_result.
  destruct (stof a) as [va | | | | |]; [| reflexivity ..]. cbn [fst snd].
  rewrite !(read_field_comma b _ Hb). unfold field_result.
  destruct (stof b) as [vb | | | | |]; [| reflexivity ..]. cbn [fst snd].
  rewrite (read_field_comma c _ Hc), (read_field_no_comma c Hc). unfold field_result.
  destruct (stof c) as [vc | | | | |]; reflexivity.
Qed.

(** X9. A data line with more than three fields is read as its first
    three: whatever follows the third comma is never looked at. A file
    whose lines carry further columns after the three fields loads
    exactly as the file without these columns does, with the same points
    or the same error, whatever the fields are. *)
Theorem extra_columns_are_ignored {T G : Type}
  (rows : list (string * string * string)) (more : string * string * string -> string)
  (header header' : string) (fs fs' : FileSystem) (path path' : string)
  (tr : list (IO T G)) :
  Forall fields_no_comma rows ->
  fs path = Some (header :: map (fun f => line_of_fields f ++ "," ++ more f)%string rows) ->
  fs' path' = Some (header' :: map line_of_fields rows) ->
  loadCheckpointFile fs path tr = loadCheckpointFile fs' path' tr.
Proof.
  intros Hrows Hfile Hfile'. unfold loadCheckpointFile. rewrite Hfile, Hfile'. cbn [tail].
  apply mapM_parse_ext. clear Hfile Hfile'. induction Hrows as [| f rows Hf _ IH]; cbn [map]; [reflexivity |].
  rewrite (point_of_line_extra f (more f) Hf), IH. reflexivity.
Qed.

(** X10. A data line with fewer than three fields is not an error: when
    no comma is left, [erase] removes nothing and the last field is read
    again. A line of one number [a] gives the point [(a, a, a)], a line
    of two numbers [a,b] gives [(a, b, b)]. *)
Theorem short_line_repeats_last_field {E : Type} (a b : string) (va vb : Ieee.float)
  (tr : list E) :
  no_comma a ->
  no_comma b ->
  stof a = Done va ->
  stof b = Done vb ->
  parse_point a tr = (tr, Done (mkVec va va va))
  /\ parse_point (a ++ "," ++ b) tr = (tr, Done (mkVec va vb vb)).
Proof.
  intros Ha Hb Sa Sb. unfold parse_point, bind, stop, ret. split.
  - rewrite (read_field_no_comma a Ha). unfold field_result. rewrite Sa. cbn [fst snd].
    rewrite (read_field_no_comma a Ha). unfold field_result. rewrite Sa. cbn [fst snd].
    rewrite (read_field_no_comma a Ha). unfold field_result. rewrite Sa. reflexivity.
  - cbn [append]. rewrite (read_field_comma a _ Ha). unfold field_result at 1.
    rewrite Sa. cbn [fst snd].
    rewrite (read_field_no_comma b Hb). unfold field_result. rewrite Sb. cbn [fst snd].
    rewrite (read_field_no_comma b Hb). unfold field_result. rewrite Sb. reflexivity.
Qed.

Section MalformedCheckpoint.
Context {T P X Y : Type} {RT : Real T} {TS : TerrainSolver T P X}
  {RS : RigidSolver T Y} {LM : Libm T}.

Local Abbreviation Eff := (IO T (ChSystemGpuMesh T P X)).

(** X11. A TESTING run whose checkpoint file has, after any number of
    lines that parse, a line on which [std::stof] throws (a blank line, a
    second header, a number out of the range of [float]) ends with that
    exception, which nothing catches: the points read so far are dropped,
    the output directory is not created and no solver is advanced. The
    only output is the line that reports gravity. *)
Theorem malformed_checkpoint_is_fatal (fuel : nat) (fs : FileSystem)
  (args : Args T P) (params : Params T P) (header : string)
  (good : list string) (line : string) (rest : list string) (s : string)
  (tr : list Eff) :
  argc args = 5 ->
  parsed_json args = Some params ->
  run_mode args = TESTING ->
  fs (checkpoint_file_base args ++ ".csv")%string = Some (header :: good ++ line :: rest) ->
  forallb line_parses good = true ->
  point_of_line line = Throw s ->
  main fuel fs args tr
  = (tr ++ [Print (MsgGravity (input_grav_angle_deg args)
                     (vec_x (gravity (input_grav_angle_deg args)))
                     (vec_y (gravity (input_grav_angle_deg args)))
                     (vec_z (gravity (input_grav_angle_deg args))))],
     Throw s).
Proof.
  intros Hargc Hjson Hmode Hfs Hgood Hbad.
  assert (Hinit : forall tr1 : list Eff,
            initial_particles fs args params tr1 = (tr1, Throw s)).
  { intros tr1. unfold initial_particles, loadCheckpointFile.
    rewrite Hmode, Hfs. cbn [Z.eqb Pos.eqb TESTING SETTLING tail].
    apply (mapM_parse_stops good line rest s tr1 Hgood Hbad). }
  unfold main. rewrite Hargc, Hjson. cbn [Z.eqb Pos.eqb].
  unfold bind at 1. unfold emit at 1. unfold bind at 1.
  unfold setup. unfold bind at 1. rewrite Hinit. reflexivity.
Qed.

(** X12. A TESTING run does not sample particles: it starts from the
    points of the checkpoint file. When every data line of the file
    [<base>.csv] parses, the set-up ends with a sound world whose
    terrain system holds the points of the lines, one per line and in
    the order of the file. *)
Theorem testing_run_starts_from_checkpoint (fs : FileSystem)
  (args : Args T P) (params : Params T P) (G : ChVector T)
  (header : string) (lines : list string) (points : list (ChVector Ieee.float))
  (tr : list Eff) :
  run_mode args = TESTING ->
  fs (checkpoint_file_base args ++ ".csv")%string = Some (header :: lines) ->
  map point_of_line lines = map Done points ->
  exists tr' w,
    setup fs args params G tr = (tr', Done w)
    /\ gpu_particles (gpu_sys w) = points
    /\ world_ok w /\ meshes_match w /\ chassis_fixed w = true.
Proof.
  intros Hmode Hfs Hpts.
  assert (Hinit : initial_particles fs args params tr = (tr, Done points)).
  { unfold initial_particles, loadCheckpointFile.
    rewrite Hmode, Hfs. cbn [Z.eqb Pos.eqb TESTING SETTLING tail].
    apply mapM_parse_all, Hpts. }
  destruct (setup_shape fs args params G tr tr _ Hinit)
    as (tr' & w & Hs & Hok & Hfix & _ & Hm & _ & _ & _ & Hp & _).
  exists tr', w. auto.
Qed.

End MalformedCheckpoint.

(** ** What a recorded frame holds *)

Section Frames.
Context {T P X Y : Type} {RT : Real T} {TS : TerrainSolver T P X}
  {RS : RigidSolver T Y}.

Local Abbreviation Eff := (IO T (ChSystemGpuMesh T P X)).

Lemma frame_rows_content offset (rover : ChSystemNSC T Y) wheels :
  forall (tr tr' : list Eff) rows,
    mapM (fun handle =>
            let* b := get_body rover handle in
            writeMeshFrames offset b wheel_filename wheel_scaling) wheels tr
    = (tr', Done rows) ->
    forall i handle,
      wheels !! i = Some handle ->
      exists b, sys_bodies rover !! handle = Some b
                /\ rows !! i = Some (row_of offset wheel_filename wheel_scaling b).
Proof.
  induction wheels as [| h0 rest IH]; intros tr tr' rows; cbn [mapM].
  - intros _ i handle Hi. discriminate Hi.
  - intros H. apply bind_Done in H as (row & tr1 & Hrow & H).
    apply bind_Done in H as (rows' & tr2 & Hrows & H). injection H as _ <-.
    apply bind_Done in Hrow as (b & tr0 & Hb & Hrow).
    apply get_body_Done in Hb as (-> & Hb).
    rewrite writeMeshFrames_row in Hrow. injection Hrow as _ <-.
    intros [| i] handle Hi.
    + injection Hi as <-. exists b. split; [exact Hb | reflexivity].
    + exact (IH _ _ _ Hrows i handle Hi).
Qed.

(** The force and torque that [collect_wheel_forces] leaves in
    [wheel_force] and [wheel_torque]: those of the last wheel. *)
Lemma collect_wheel_forces_last wheels :
  forall i (g : ChSystemGpuMesh T P X) (rover : ChSystemNSC T Y) f t
         (tr tr' : list Eff) res,
    collect_wheel_forces i wheels g rover f t tr = (tr', Done res) ->
    snd res = match wheels with
              | [] => (f, t)
              | _ => CollectMeshContactForces g (i + length wheels - 1)%nat
              end.
Proof.
  induction wheels as [| h0 rest IH]; intros i g rover f t tr tr' res;
    cbn [collect_wheel_forces].
  - intros [= _ <-]. reflexivity.
  - intros H. apply bind_Done in H as (b & tr1 & _ & H).
    rewrite (IH _ _ _ _ _ _ _ _ H). destruct rest as [| h1 rest].
    + cbn [length]. replace (i + 1 - 1)%nat with i by lia.
      destruct (CollectMeshContactForces g i); reflexivity.
    + cbn [length]. f_equal. lia.
Qed.

(** X13. A turn that records a frame writes, as the last effect of the
    turn, the mesh-frame file with one row per wheel, in the order of the
    wheels, and a last row for the chassis. Every row gives the body as it
    is after the forces were collected, raised by the terrain height
    offset of this turn. The force and the torque printed with the frame
    are those collected from the last wheel's mesh alone: each wheel's
    collection overwrites the one before. *)
Theorem frame_holds_wheels_then_chassis dir h out_steps t cs (w : World T P X Y)
  (tr tr' : list Eff) s rows :
  loop_body dir h out_steps t cs w tr = (tr', Done s) ->
  sr_frame s = Some rows ->
  last tr'
  = Some (WriteMeshFile ((dir ++ "/step" ++ pad6 (currframe w)) ++ "_meshframes.csv") rows)
  /\ (forall i handle,
        wheel_bodies w !! i = Some handle ->
        exists b, body_at (sr_collected s) handle = Some b
                  /\ rows !! i
                     = Some (row_of (terrain_height_offset (sr_entry s)) wheel_filename
                                    wheel_scaling b))
  /\ (exists c, body_at (sr_collected s) (chassis_body w) = Some c
                /\ rows !! length (wheel_bodies w)
                   = Some (row_of (terrain_height_offset (sr_entry s)) chassis_filename
                                  chassis_scaling c))
  /\ length rows = S (length (wheel_bodies w))
  /\ (wheel_bodies w <> [] ->
      In (Print (MsgWheelForces
                   (fst (CollectMeshContactForces (gpu_sys (sr_advanced s))
                           (length (wheel_bodies w) - 1))))) tr'
      /\ In (Print (MsgWheelTorques
                      (snd (CollectMeshContactForces (gpu_sys (sr_advanced s))
                              (length (wheel_bodies w) - 1))))) tr').
Proof.
  intros Hb Hfr.
  destruct (loop_body_Done _ _ _ _ _ _ _ _ _ Hb)
    as (tr1 & c & _ & _ & _ & _ & Hrel & _ & Hadv & Hcol & Hcoll & Hend).
  apply release_chassis_Done in Hrel as (_ & Hcb & Hwb & Hcf & _).
  destruct Hend as [(_ & rows' & Hrec & Hfr') | (_ & _ & Hnone & _)];
    [| rewrite Hnone in Hfr; discriminate Hfr].
  rewrite Hfr' in Hfr. injection Hfr as ->.
  assert (Hcc : currframe (sr_collected s) = currframe w).
  { rewrite Hcoll, Hadv. cbn. exact Hcf. }
  assert (Hoff : terrain_height_offset (sr_collected s) = terrain_height_offset (sr_entry s)).
  { rewrite Hcoll, Hadv. reflexivity. }
  assert (Hws : wheel_bodies (sr_collected s) = wheel_bodies w).
  { rewrite Hcoll, Hadv. cbn. exact Hwb. }
  assert (Hch : chassis_body (sr_collected s) = chassis_body w).
  { rewrite Hcoll, Hadv. cbn. exact Hcb. }
  pose proof (collect_wheel_forces_last _ _ _ _ _ _ _ _ _ Hcol) as Hlast.
  pose proof (record_frame_trace _ _ _ _ _ _ _ Hrec) as (evs & Htr & _ & _).
  cbn [snd] in Htr. rewrite Hcc in Htr.
  pose proof (record_frame_Done _ _ _ _ _ _ _ Hrec) as [_ Hlen]. cbn [snd] in Hlen.
  rewrite Hws in Hlen.
  unfold record_frame in Hrec.
  do 5 (apply bind_Done in Hrec as (? & ? & _ & Hrec)).
  apply bind_Done in Hrec as (wrows & tr2 & Hrows & Hrec).
  apply bind_Done in Hrec as (cbody & tr3 & Hcbody & Hrec).
  apply get_body_Done in Hcbody as (-> & Hcbody).
  apply bind_Done in Hrec as (crow & tr4 & Hcrow & Hrec).
  rewrite writeMeshFrames_row in Hcrow. injection Hcrow as _ <-.
  apply bind_Done in Hrec as ([] & tr5 & _ & Hrec). injection Hrec as _ _ <-.
  pose proof (frame_rows_Done _ _ _ _ _ _ Hrows) as Hwl.
  pose proof (frame_rows_content _ _ _ _ _ _ Hrows) as Hcontent.
  rewrite Hws in Hwl, Hcontent. rewrite Hoff in Hcontent. rewrite Hoff, Hch in *.
  split.
  { rewrite Htr, !app_assoc. apply last_snoc. }
  split.
  { intros i handle Hi. destruct (Hcontent i handle Hi) as (b & Hb1 & Hb2).
    exists b. split; [exact Hb1 |].
    rewrite lookup_app_l by (rewrite Hwl; eapply lookup_lt_Some; exact Hi).
    exact Hb2. }
  split.
  { exists cbody. split; [exact Hcbody |].
    rewrite lookup_app_r by lia. rewrite Hwl, Nat.sub_diag. reflexivity. }
  split; [exact Hlen |].
  intros Hne. rewrite Htr.
  assert (Hft : snd c = CollectMeshContactForces (gpu_sys (sr_advanced s))
                          (length (wheel_bodies w) - 1)).
  { rewrite Hlast. rewrite Hwb.
    destruct (wheel_bodies w) as [| h0 rest]; [contradiction |]. reflexivity. }
  rewrite <- Hft.
  split; apply in_or_app; right; apply in_or_app; left; cbn; auto.
Qed.

(** The six characters of [%06d] at least. *)
Lemma pad6_length_min (n : Z) : (6 <= String.length (pad6 n))%nat.
Proof.
  unfold pad6.
  set (s := DecimalString.NilZero.string_of_uint (N.to_uint (Z.to_N n))).
  rewrite string_length_append.
  assert (String.length (string_of_list_ascii (repeat "0"%char (6 - String.length s)))
          = (6 - String.length s)%nat) as ->.
  { generalize (6 - String.length s)%nat. intros k.
    induction k as [| k IH]; cbn; [reflexivity | by rewrite IH]. }
  lia.
Qed.

Lemma record_frame_overflow dir f t (w : World T P X Y) (tr : list Eff) :
  (89 <= String.length dir)%nat ->
  record_frame dir f t w tr
  = (tr ++ [Print (MsgRenderingFrame (currframe w)); Print (MsgWheelForces f);
            Print (MsgWheelTorques t)],
     Undefined "sprintf past the end of filename").
Proof.
  intros Hdir. unfold record_frame.
  assert (Hlong : (String.length (dir ++ "/step" ++ pad6 (currframe w)) <? 100)%nat
                  = false).
  { apply Nat.ltb_ge. rewrite !string_length_append. cbn [String.length].
    pose proof (pad6_length_min (currframe w)). lia. }
  unfold frame_filename. rewrite Hlong. unfold bind, emit, stop.
  rewrite <- !app_assoc. reflexivity.
Qed.

(** X14. The frame's file name is printed into [char filename[100]].
    With an output directory of 89 characters or more the name does not
    fit: every turn that records a frame, the first turn of each run
    among them, writes past the end of the buffer, after the solvers were
    advanced and the forces collected. *)
Theorem long_output_dir_overflows_filename `{!RigidSolverLaws T Y} dir h out_steps t cs
  (w : World T P X Y) (tr : list Eff) :
  world_ok w ->
  out_steps <> 0 ->
  cs mod out_steps = 0 ->
  (89 <= String.length dir)%nat ->
  exists tr',
    loop_body dir h out_steps t cs w tr
    = (tr', Undefined "sprintf past the end of filename")
    /\ advances tr' = advances tr ++ [(Terrain, h); (Rigid, h)]
    /\ written_paths tr' = written_paths tr.
Proof.
  intros Hok Hos Hcs Hdir. unfold loop_body.
  destruct (release_chassis_total t w tr) as (tr1 & w1 & Hrel).
  pose proof (release_chassis_Done _ _ _ _ _ Hrel)
    as (Hg & Hc & Hw & Hf & _ & Hsame & Hfree).
  assert (Htr1 : advances tr1 = advances tr /\ written_paths tr1 = written_paths tr
                 /\ length (sys_bodies (rover_sys w1))
                    = length (sys_bodies (rover_sys w))).
  { destruct (chassis_fixed w && past_settling t).
    - destruct (Hfree eq_refl) as (-> & _ & ->).
      rewrite advances_app, written_paths_app, on_body_length. cbn.
      rewrite !app_nil_r. auto.
    - destruct (Hsame eq_refl) as (-> & ->). auto. }
  destruct Htr1 as (Ha & Hp & Hlen1).
  destruct Hok as (Hcok & Hwok & Hnd & Hnotin).
  assert (Hv1 : Forall (fun x => (x < length (sys_bodies (rover_sys w1)))%nat)
                       (wheel_bodies w1)).
  { rewrite Hw, Hlen1. exact Hwok. }
  erewrite bind_step by exact Hrel.
  destruct (push_wheel_motion_total (wheel_bodies w1) 0 (rover_sys w1) (gpu_sys w1)
              tr1 Hv1) as (pushed & Hpush).
  erewrite bind_step by exact Hpush.
  do 2 (erewrite bind_step by reflexivity).
  match goal with
  | |- context [bind (collect_wheel_forces 0 ?ws ?g ?r ?f0 ?t0) _ ?tr0] =>
      destruct (collect_wheel_forces_total ws 0 g r f0 t0 tr0) as (c & Hcol)
  end.
  { cbn. rewrite step_length. exact Hv1. }
  erewrite bind_step by exact Hcol.
  unfold cadence_check. destruct (Z.eqb_spec out_steps 0) as [| _]; [contradiction |].
  rewrite Hcs. cbn [Z.eqb].
  unfold bind at 1. rewrite (record_frame_overflow _ _ _ _ _ Hdir).
  eexists. split; [reflexivity |].
  rewrite <- !app_assoc. rewrite !advances_app, !written_paths_app, Ha, Hp. cbn.
  rewrite !app_nil_r. split; reflexivity.
Qed.

End Frames.


Lemma frame_rows_witness :
  exists tr' s rows,
    loop_body (TS := Reference.still_terrain) (RS := Reference.euler_rigid)
      "out" Reference.h_0_005 4 Ieee.fzero 0 (Reference.demo_world Reference.h_0_005) []
    = (tr', Done s)
    /\ sr_frame s = Some rows
    /\ last tr' = Some (WriteMeshFile "out/step000000_meshframes.csv" rows)
    /\ length rows = 7%nat.
Proof.
  assert (H : exists tr' s rows,
             loop_body (TS := Reference.still_terrain) (RS := Reference.euler_rigid)
               "out" Reference.h_0_005 4 Ieee.fzero 0
               (Reference.demo_world Reference.h_0_005) []
             = (tr', Done s)
             /\ sr_frame s = Some rows).
  { vm_compute. do 3 eexists. split; reflexivity. }
  destruct H as (tr' & s & rows & Hb & Hfr).
  destruct (frame_holds_wheels_then_chassis (TS := Reference.still_terrain)
              (RS := Reference.euler_rigid)
              "out" Reference.h_0_005 4 Ieee.fzero 0
              (Reference.demo_world Reference.h_0_005) [] tr' s rows Hb Hfr)
    as (Hlast & _ & _ & Hlen & _).
  exists tr', s, rows. split; [exact Hb |]. split; [exact Hfr |].
  split; [exact Hlast | exact Hlen].
Defined.

Lemma long_output_dir_witness :
  exists tr',
    loop_body (TS := Reference.still_terrain) (RS := Reference.euler_rigid)
      "results/rover/settling/gravity_angle_00/step_size_0.005/sphere_radius_1.0/run_2021_03_14_a"
      Reference.h_0_005 4 Ieee.fzero 0 (Reference.demo_world Reference.h_0_005) []
    = (tr', Undefined "sprintf past the end of filename").
Proof.
  destruct (long_output_dir_overflows_filename (TS := Reference.still_terrain)
              (RS := Reference.euler_rigid) (RigidSolverLaws0 := euler_rigid_laws)
              "results/rover/settling/gravity_angle_00/step_size_0.005/sphere_radius_1.0/run_2021_03_14_a"
              Reference.h_0_005 4 Ieee.fzero 0 (Reference.demo_world Reference.h_0_005) []
              demo_settling_world_ok ltac:(discriminate) eq_refl
              ltac:(apply Nat.leb_le; reflexivity))
    as (tr' & Hb & _).
  exists tr'. exact Hb.
Defined.

(** ** The further properties on concrete runs *)

Lemma lockstep_witness :
  completed
    (coupling_loop (TS := Reference.still_terrain) (RS := Reference.euler_rigid)
       202 "out" Reference.h_0_005 time_settling 4 Ieee.fzero 0
       (Reference.demo_world Reference.h_0_005) []) = true
  /\ advances
       (fst (coupling_loop (TS := Reference.still_terrain) (RS := Reference.euler_rigid)
               202 "out" Reference.h_0_005 time_settling 4 Ieee.fzero 0
               (Reference.demo_world Reference.h_0_005) []))
     = advances (T := Reference.D) (G := ChSystemGpuMesh Reference.D unit unit) []
       ++ flat_map (fun _ => [(Terrain, Reference.h_0_005); (Rigid, Reference.h_0_005)])
            (steps_of
               (coupling_loop (TS := Reference.still_terrain)
                  (RS := Reference.euler_rigid)
                  202 "out" Reference.h_0_005 time_settling 4 Ieee.fzero 0
                  (Reference.demo_world Reference.h_0_005) [])).
Proof.
  split; [exact demo_settling_completed |].
  exact (solvers_advance_in_lockstep (TS := Reference.still_terrain)
           (RS := Reference.euler_rigid)
           202 "out" Reference.h_0_005 time_settling 4 Ieee.fzero 0
           (Reference.demo_world Reference.h_0_005) [] demo_settling_completed).
Defined.

Lemma demo_settling_frames :
  recorded_frames
    (steps_of
       (coupling_loop (TS := Reference.still_terrain) (RS := Reference.euler_rigid)
          202 "out" Reference.h_0_005 time_settling 4 Ieee.fzero 0
          (Reference.demo_world Reference.h_0_005) [])) = 51%nat
  /\ currframe (Reference.demo_world Reference.h_0_005) = 0.
Proof. vm_compute. split; reflexivity. Qed.

Lemma frame_files_witness :
  completed
    (coupling_loop (TS := Reference.still_terrain) (RS := Reference.euler_rigid)
       202 "out" Reference.h_0_005 time_settling 4 Ieee.fzero 0
       (Reference.demo_world Reference.h_0_005) []) = true
  /\ written_paths
       (fst (coupling_loop (TS := Reference.still_terrain) (RS := Reference.euler_rigid)
               202 "out" Reference.h_0_005 time_settling 4 Ieee.fzero 0
               (Reference.demo_world Reference.h_0_005) []))
     = frame_paths "out" 0 51.
Proof.
  split; [exact demo_settling_completed |].
  destruct demo_settling_frames as [Hn Hc].
  destruct (frame_files_numbered_consecutively (TS := Reference.still_terrain)
              (RS := Reference.euler_rigid)
              202 "out" Reference.h_0_005 time_settling 4 Ieee.fzero 0
              (Reference.demo_world Reference.h_0_005) [] demo_settling_completed)
    as [Hp _].
  rewrite Hp, Hn, Hc. reflexivity.
Defined.

Lemma frame_number_witness :
  0 < 4
  /\ completed
       (coupling_loop (TS := Reference.still_terrain) (RS := Reference.euler_rigid)
          202 "out" Reference.h_0_005 time_settling 4 Ieee.fzero 0
          (Reference.demo_world Reference.h_0_005) []) = true
  /\ forall s,
       steps_of
         (coupling_loop (TS := Reference.still_terrain) (RS := Reference.euler_rigid)
            202 "out" Reference.h_0_005 time_settling 4 Ieee.fzero 0
            (Reference.demo_world Reference.h_0_005) []) !! 8%nat = Some s ->
       currframe (sr_begin s)
       = currframe (Reference.demo_world Reference.h_0_005) + (Z.of_nat 8 + 4 - 1) / 4.
Proof.
  split; [reflexivity |]. split; [exact demo_settling_completed |].
  intros s Hs.
  exact (proj1 (frame_number_of_turn (TS := Reference.still_terrain)
                  (RS := Reference.euler_rigid)
                  202 "out" Reference.h_0_005 time_settling 4 Ieee.fzero
                  (Reference.demo_world Reference.h_0_005) [] eq_refl
                  demo_settling_completed 8%nat s Hs eq_refl)).
Defined.

Lemma stalled_time_witness :
  next_time (S754_finite false 8388608 (-29)) (S754_finite false 4503599627370496 (-82))
  = S754_finite false 8388608 (-29)
  /\ loop_continues (S754_finite false 8388608 (-29)) time_settling = true
  /\ compute_out_steps (S754_finite false 4503599627370496 (-82)) = Some 21474836
  /\ completed
       (coupling_loop (TS := Reference.still_terrain) (RS := Reference.euler_rigid)
          1000 "out" (S754_finite false 4503599627370496 (-82)) time_settling 21474836
          (S754_finite false 8388608 (-29)) 0
          (Reference.demo_world Reference.h_0_005) []) = false.
Proof.
  assert (H1 : next_time (S754_finite false 8388608 (-29))
                 (S754_finite false 4503599627370496 (-82))
               = S754_finite false 8388608 (-29)) by (vm_compute; reflexivity).
  assert (H2 : loop_continues (S754_finite false 8388608 (-29)) time_settling = true)
    by (vm_compute; reflexivity).
  split; [exact H1 |]. split; [exact H2 |]. split; [vm_compute; reflexivity |].
  exact (stalled_time_never_ends (TS := Reference.still_terrain)
           (RS := Reference.euler_rigid) "out"
           (S754_finite false 4503599627370496 (-82)) time_settling 21474836
           (S754_finite false 8388608 (-29)) H1 H2 1000%nat 0
           (Reference.demo_world Reference.h_0_005) []).
Defined.

Lemma extra_columns_witness :
  loadCheckpointFile (T := R) (G := unit)
    (fun _ => Some ["x,y,z,absv"; "-1.500000,2.250000,0.100000,12.5"; "1,,3,4,5"]%string)
    "t.csv" []
  = loadCheckpointFile (T := R) (G := unit)
      (fun _ => Some ["x,y,z"; "-1.500000,2.250000,0.100000"; "1,,3"]%string) "t.csv" []
  /\ loadCheckpointFile (T := R) (G := unit)
       (fun _ => Some ["x,y,z,absv"; "-1.500000,2.250000,0.100000,12.5"]%string) "t.csv" []
     = ([], Done Reference.demo_points).
Proof.
  split.
  - apply (extra_columns_are_ignored (T := R) (G := unit)
             [("-1.500000", "2.250000", "0.100000"); ("1", "", "3")]%string
             (fun f => if String.eqb (snd f) "3" then "4,5" else "12.5")%string
             "x,y,z,absv" "x,y,z" _ _ "t.csv" "t.csv" []);
      [| reflexivity | reflexivity].
    repeat constructor; discriminate.
  - vm_compute. reflexivity.
Defined.

Lemma short_line_witness :
  parse_point (E := unit) "1.5" []
  = ([], Done (mkVec (Ieee.flit 15 10) (Ieee.flit 15 10) (Ieee.flit 15 10)))
  /\ parse_point (E := unit) "1.5,-2" []
     = ([], Done (mkVec (Ieee.flit 15 10) (Ieee.flit (-2) 1) (Ieee.flit (-2) 1))).
Proof.
  assert (H1 : no_comma "1.5") by (repeat split; discriminate).
  assert (H2 : no_comma "-2") by (repeat split; discriminate).
  exact (short_line_repeats_last_field (E := unit) "1.5" "-2"
           (Ieee.flit 15 10) (Ieee.flit (-2) 1) [] H1 H2 eq_refl eq_refl).
Defined.

Lemma malformed_checkpoint_witness :
  snd (main (T := R) (TS := Reference.still_terrain) (RS := Reference.frozen_rigid)
         10 (fun _ => Some ["x,y,z"; "-1.500000,2.250000,0.100000"; ""; "1,2,3"]%string)
         (Reference.demo_args TESTING Reference.h_0_005) [])
  = Throw "invalid_argument"
  /\ snd (main (T := R) (TS := Reference.still_terrain) (RS := Reference.frozen_rigid)
         10 (fun _ => Some ["x,y,z"; "1,2,3"; "1,1e-40,3"; ""]%string)
         (Reference.demo_args TESTING Reference.h_0_005) [])
     = Throw "out_of_range".
Proof.
  split.
  - rewrite (malformed_checkpoint_is_fatal (T := R) (TS := Reference.still_terrain)
             (RS := Reference.frozen_rigid) 10
             (fun _ => Some ["x,y,z"; "-1.500000,2.250000,0.100000"; ""; "1,2,3"]%string)
             (Reference.demo_args TESTING Reference.h_0_005)
             (Reference.demo_params Reference.h_0_005)
             "x,y,z" ["-1.500000,2.250000,0.100000"%string] "" ["1,2,3"%string]
             "invalid_argument" []);
      [reflexivity | reflexivity | reflexivity | reflexivity
       | reflexivity | vm_compute; reflexivity | vm_compute; reflexivity].
  - rewrite (malformed_checkpoint_is_fatal (T := R) (TS := Reference.still_terrain)
             (RS := Reference.frozen_rigid) 10
             (fun _ => Some ["x,y,z"; "1,2,3"; "1,1e-40,3"; ""]%string)
             (Reference.demo_args TESTING Reference.h_0_005)
             (Reference.demo_params Reference.h_0_005)
             "x,y,z" ["1,2,3"%string] "1,1e-40,3" [""%string]
             "out_of_range" []);
      [reflexivity | reflexivity | reflexivity | reflexivity
       | reflexivity | vm_compute; reflexivity | vm_compute; reflexivity].
Defined.

Lemma testing_run_witness :
  exists tr' w,
    setup (T := R) (TS := Reference.still_terrain) (RS := Reference.frozen_rigid)
      Reference.checkpoint_on_disk (Reference.demo_args TESTING Reference.h_0_005)
      (Reference.demo_params Reference.h_0_005) (mkVec 0 0 (- 370))%R [] = (tr', Done w)
    /\ gpu_particles (gpu_sys w) = Reference.demo_points.
Proof.
  assert (H : map point_of_line ["-1.500000,2.250000,0.100000"%string]
              = map Done Reference.demo_points) by (vm_compute; reflexivity).
  destruct (testing_run_starts_from_checkpoint (T := R) (TS := Reference.still_terrain)
              (RS := Reference.frozen_rigid)
              Reference.checkpoint_on_disk (Reference.demo_args TESTING Reference.h_0_005)
              (Reference.demo_params Reference.h_0_005) (mkVec 0 0 (- 370))%R
              "x,y,z" ["-1.500000,2.250000,0.100000"%string] Reference.demo_points
              [] eq_refl eq_refl H)
    as (tr' & w & Hs & Hp & _).
  exists tr', w. split; [exact Hs | exact Hp].
Defined.

(** ** The file-system effects of a SETTLING run *)

Section FileEffects.
Context {T P X Y : Type} {RT : Real T} {TS : TerrainSolver T P X}
  {RS : RigidSolver T Y} {LM : Libm T}.

Local Abbreviation Eff := (IO T (ChSystemGpuMesh T P X)).

Lemma created_directories_app (a b : list Eff) :
  created_directories (a ++ b) = created_directories a ++ created_directories b.
Proof. apply omap_app. Qed.

Lemma rot_prints_create_nothing (evs : list Eff) :
  Forall (fun e => exists q, e = Print (MsgRot q)) evs ->
  created_directories evs = [].
Proof.
  induction 1 as [| e evs [q ->] _ IH]; [reflexivity |].
  unfold created_directories in *. cbn. exact IH.
Qed.

Lemma loop_body_creates_nothing dir h out_steps t cs (w : World T P X Y)
  (tr tr' : list Eff) s :
  loop_body dir h out_steps t cs w tr = (tr', Done s) ->
  created_directories tr' = created_directories tr.
Proof.
  intros Hb.
  destruct (loop_body_Done _ _ _ _ _ _ _ _ _ Hb)
    as (tr1 & c & _ & _ & _ & _ & Hrel & _ & _ & _ & _ & Hend).
  apply release_chassis_Done in Hrel as (_ & _ & _ & _ & _ & Hkeep & Hfree).
  assert (Htr1 : created_directories tr1 = created_directories tr).
  { destruct (chassis_fixed w && past_settling t).
    - destruct (Hfree eq_refl) as (_ & _ & ->).
      rewrite created_directories_app. cbn. apply app_nil_r.
    - destruct (Hkeep eq_refl) as (_ & ->). reflexivity. }
  destruct Hend as [(_ & rows & Hrec & _) | (_ & _ & _ & Htr)].
  - apply record_frame_trace in Hrec as (evs & Htr & Hall & _).
    rewrite Htr, !created_directories_app, (rot_prints_create_nothing evs Hall), Htr1.
    cbn. rewrite !app_nil_r. reflexivity.
  - rewrite Htr, created_directories_app, Htr1. cbn. apply app_nil_r.
Qed.

Lemma coupling_loop_creates_nothing dir h time_end out_steps fuel :
  forall t cs (w : World T P X Y) (tr tr' : list Eff) w' steps,
    coupling_loop fuel dir h time_end out_steps t cs w tr = (tr', Done (w', steps)) ->
    created_directories tr' = created_directories tr.
Proof.
  induction fuel as [| fuel IH]; intros t cs w tr tr' w' steps; cbn [coupling_loop].
  - destruct (loop_continues t time_end); [discriminate |].
    intros [= <- <- <-]. reflexivity.
  - destruct (loop_continues t time_end); [| intros [= <- <- <-]; reflexivity].
    intros H. apply bind_Done in H as (s & tr1 & Hs & H).
    apply bind_Done in H as ([w2 rest] & tr2 & Hrest & H).
    injection H as <- _ _.
    rewrite (IH _ _ _ _ _ _ _ Hrest). exact (loop_body_creates_nothing _ _ _ _ _ _ _ _ _ Hs).
Qed.

(** X15. All the file-system effects of a SETTLING run with four
    arguments and a parameter file that parses, whose loop header stops
    within the fuel after fewer than 1000 turns, with an output interval
    that is defined and not zero and an output directory name of at most
    88 characters (so that every frame file name fits its buffer): the
    run returns 0; it creates the directories [../] and [../output_dir];
    it writes the two files of each recorded frame, numbered from 0,
    under [output_dir] as given in the parameter file, without the [../]
    of the directory it created; and last it writes the checkpoint.
    Nothing else is created or written. *)
Theorem settling_run_file_effects `{!RigidSolverLaws T Y} (fuel : nat)
  (fs : FileSystem) (args : Args T P) (params : Params T P) (tr : list Eff)
  (out_steps : Z) :
  argc args = 5 ->
  parsed_json args = Some params ->
  run_mode args = SETTLING ->
  compute_out_steps (step_size params) = Some out_steps ->
  out_steps <> 0 ->
  (String.length (output_dir params) <= 88)%nat ->
  Z.of_nat fuel < 1000 ->
  loop_times (S fuel) Ieee.fzero (step_size params) time_settling
  = loop_times fuel Ieee.fzero (step_size params) time_settling ->
  exists tr' steps,
    main fuel fs args tr = (tr', Done (0, steps))
    /\ created_directories tr'
       = created_directories tr ++ ["../"; "../" ++ output_dir params]%string
    /\ written_paths tr'
       = written_paths tr
         ++ frame_paths (output_dir params) 0 (recorded_frames steps)
         ++ [checkpoint_file_base args].
Proof.
  intros Hargc Hjson Hmode Hsteps Hnz Hdir Hfuel Hstop.
  destruct (settling_main_shape fuel fs args params tr out_steps Hargc Hjson Hmode
              Hsteps Hnz Hdir Hfuel Hstop)
    as (tr0 & w & wend & steps & Hmain & Hloop & _ & Hcf & _).
  eexists _, steps. split; [exact Hmain |].
  pose proof (coupling_loop_creates_nothing _ _ _ _ _ _ _ _ _ _ _ _ Hloop) as Hdirs.
  destruct (coupling_loop_trace _ _ _ _ _ _ _ _ _ _ _ _ Hloop) as (_ & Hpaths & _).
  rewrite created_directories_app, written_paths_app, Hdirs, Hpaths, Hcf.
  rewrite created_directories_app, written_paths_app.
  unfold settling_prelude. cbn. rewrite !app_nil_r, <- !app_assoc. split; reflexivity.
Qed.

End FileEffects.

Lemma settling_file_effects_witness :
  exists tr' steps,
    main (T := R) (TS := Reference.still_terrain) (RS := Reference.frozen_rigid)
      202 Reference.no_files (Reference.demo_args SETTLING Reference.h_0_005) []
    = (tr', Done (0, steps))
    /\ created_directories tr' = ["../"; "../out"]%string
    /\ written_paths tr'
       = frame_paths "out" 0 (recorded_frames steps) ++ ["settled"%string].
Proof.
  destruct settling_times_at_0_005 as (Hos & Hstop & _).
  destruct (settling_run_file_effects (T := R) (TS := Reference.still_terrain)
              (RS := Reference.frozen_rigid) (RigidSolverLaws0 := frozen_rigid_laws)
              202 Reference.no_files (Reference.demo_args SETTLING Reference.h_0_005)
              (Reference.demo_params Reference.h_0_005) [] 4
              eq_refl eq_refl eq_refl Hos ltac:(discriminate) ltac:(cbn; lia)
              ltac:(reflexivity) Hstop)
    as (tr' & steps & Hmain & Hdirs & Hpaths).
  exists tr', steps. split; [exact Hmain |]. split; [exact Hdirs | exact Hpaths].
Defined.
